(** * Stickochet robot: the board generator and the movement engine

    A shallow embedding of the game logic of [Game.cpp]
    ([Game::create_board], [Game::move_player], [Game::handle_event], the
    mesh index of [Game::Game] and the draw calls of [Game::draw]) and the
    properties of the board generator, of the slide rule, of the level life
    cycle, of the mesh index and of the scene that are checked against
    it. *)

From Stdlib Require Import ZArith Lia Bool.
From stdpp Require Import base tactics option list numbers sorting strings gmap.

Local Open Scope Z_scope.

(** ** Machine integers

    [uint32_t] values are integers in [0, 2^32); every operation on them
    wraps around. *)

Definition u32 (z : Z) : Z := z mod 2 ^ 32.

(** ** Machine floats

    [float] is IEEE binary32: 24 significant bits, round to nearest, ties
    to even.  The game logic only ever adds and multiplies whole numbers
    in [float], so a [float] is modelled by the integer it holds, and
    [f32 z] is the [float] that the exact result [z] of one operation is
    rounded to: [z] itself when [|z| < 2^24], the nearest multiple of the
    spacing [2^e] of the binade of [z] otherwise.  Every operation is
    rounded on its own (no wider intermediate format, no fused
    multiply-add).  The magnitudes of the game logic stay below [2^66], far
    from the overflow of the format. *)
Definition f32 (z : Z) : Z :=
  let a := Z.abs z in
  if a <? 2 ^ 24 then z
  else
    let e := Z.log2 a - 23 in
    let q := a / 2 ^ e in
    let r := a mod 2 ^ e in
    let half := 2 ^ (e - 1) in
    let q := if (half <? r) || ((r =? half) && Z.odd q) then q + 1 else q in
    Z.sgn z * (q * 2 ^ e).

(** ** Outcomes of a call

    [Ok a]: the call returns [a].  [Fault]: the call leaves defined
    behaviour (a vector indexed out of range, [%] by zero) or trips an
    [assert].  [OutOfFuel]: the step budget of the model is used up before
    the call returns. *)

Inductive result (A : Type) : Type :=
| Ok (a : A)
| Fault
| OutOfFuel.

Arguments Ok {A} a.
Arguments Fault {A}.
Arguments OutOfFuel {A}.

#[global] Instance result_bind : MBind result := fun A B k m =>
  match m with
  | Ok a => k a
  | Fault => Fault
  | OutOfFuel => OutOfFuel
  end.

(** [for (a : l) s = body(a, s)], stopping at the first call that does not
    return. *)
Fixpoint for_each {A S : Type} (body : A -> S -> result S) (l : list A) (s : S)
  : result S :=
  match l with
  | [] => Ok s
  | a :: l' => s' ← body a s; for_each body l' s'
  end.

(** [n] rounds of [s = body(s)]. *)
Fixpoint times {S : Type} (n : nat) (body : S -> result S) (s : S) : result S :=
  match n with
  | O => Ok s
  | S n' => s' ← body s; times n' body s'
  end.

(** ** Vectors

    [std::vector<T>] as [list T]; [v[i]] is defined for [0 <= i < v.size()]
    only. *)

Definition vec_get {A : Type} (v : list A) (i : Z) : result A :=
  if 0 <=? i then
    match v !! Z.to_nat i with
    | Some a => Ok a
    | None => Fault
    end
  else Fault.

Definition vec_set {A : Type} (v : list A) (i : Z) (a : A) : result (list A) :=
  if (0 <=? i) && (i <? Z.of_nat (length v)) then Ok (<[Z.to_nat i := a]> v)
  else Fault.

(** [a % b] on unsigned operands. *)
Definition umod (a b : Z) : result Z :=
  if b =? 0 then Fault else Ok (a mod b).

(** ** Data model *)

(** The meshes a cell can point to.  [board_meshes] and [goal_meshes] hold
    [Mesh const *]: [None] is [nullptr], [Some m] is [&m]. *)
Inductive Mesh : Type :=
| wall_mesh
| floor_mesh
| player_mesh
| goop_mesh
| checkpoint_mesh
| checkpoint_collected_mesh
| goal_mesh.

#[global] Instance Mesh_eq_dec : EqDecision Mesh.
Proof. solve_decision. Defined.

Module glm.
(** [glm::uvec2], [glm::ivec2] and [glm::vec2]: a pair of numbers.  The
    unsigned wrap-around and the rounding of [float] are written at the
    operations.  The [float] components of a [vec2] only ever hold whole
    numbers. *)
Record vec2 : Type := mk { x : Z; y : Z }.

#[global] Instance vec2_eq_dec : EqDecision vec2.
Proof. solve_decision. Defined.

(** The sum of two vectors of integers, in exact arithmetic. *)
Definition add (a b : vec2) : vec2 := mk (x a + x b) (y a + y b).

(** [glm::vec2(p)] for a [uvec2] or an [ivec2] [p]: each component is
    converted to [float]. *)
Definition to_vec2 (p : vec2) : vec2 := mk (f32 (x p)) (f32 (y p)).

(** [a + b] on [glm::vec2]: each component is a [float] addition. *)
Definition fadd (a b : vec2) : vec2 := mk (f32 (x a + x b)) (f32 (y a + y b)).
End glm.

(** Modelled from the spec: the declaration of [checkpoints], in
    [Game.hpp], is not among the sources.  The specification has the
    counter "a non-negative integer"; it is an integer without a width
    here, and that it is never negative is a property to prove. *)
Definition counter : Type := Z.

(** The members of [struct Game] that the game logic touches.
    [board_size] and [player] are [glm::uvec2]: line 424 compares [player]
    with one and line 441 copies it into one. *)
Record Game : Type := mkGame {
  board_size : glm.vec2;
  board_meshes : list (option Mesh);
  goal_meshes : list (option Mesh);
  player : glm.vec2;
  checkpoints : counter;
  won : bool
}.

(** ** The pseudo-random stream

    [static std::mt19937 mt] is the standard library's engine.  The game
    logic only calls [mt()], which returns the next 32-bit number of the
    sequence that the engine state determines.  An engine state is modelled
    by that sequence and the number of draws made so far. *)
Record mt19937 : Type := mkMt {
  outputs : nat -> Z;
  drawn : nat
}.

Definition mt (g : mt19937) : Z * mt19937 :=
  (u32 (outputs g (drawn g)), mkMt (outputs g) (S (drawn g))).

(** ** Cell addressing *)

(** [y*board_size.x + x] in [uint32_t] arithmetic. *)
Definition cell (W : Z) (x y : Z) : Z := u32 (y * W + x).

Definition cell_of (W : Z) (p : glm.vec2) : Z := cell W (glm.x p) (glm.y p).

(** [at.y*board_size.x + at.x] for a [glm::vec2 at]: [board_size.x] is
    converted to [float], the product and the sum are [float] operations,
    and the result is converted to an index by [operator[]].  It is the
    index [y*board_size.x + x] of the cell where that is below [2^24];
    beyond, it may be the index of a neighbour.  A negative result is no
    index: [vec_get] and [vec_set] fault on it. *)
Definition fcell (W : Z) (p : glm.vec2) : Z :=
  f32 (f32 (glm.y p * f32 W) + glm.x p).

(** ** [Game::create_board] *)

Section Generator.
(** [board_size] and [player] are read, never written, by
    [create_board]. *)
Variable W H : Z.
Variable player_pos : glm.vec2.

(** Lines 404-409: everything is wall, then the interior is floor. *)
Definition clear_board : result (list (option Mesh)) :=
  for_each (fun x bm =>
      for_each (fun y bm => vec_set bm (cell W x y) (Some floor_mesh))
               (seqZ 1 (H - 2)) bm)
    (seqZ 1 (W - 2))
    (replicate (Z.to_nat (u32 (W * H))) (Some wall_mesh)).

(** Lines 412-417.  C++ leaves open which of the two draws is made first;
    they are made left to right here.  The order matters to what a given
    stream draws, not to the properties of every stream. *)
Definition random_board_position (g : mt19937) : result (glm.vec2 * mt19937) :=
  let '(r1, g) := mt g in
  px ← umod r1 (u32 (W - 2));
  let '(r2, g) := mt g in
  py ← umod r2 (u32 (H - 2));
  Ok (glm.mk (u32 (px + 1)) (u32 (py + 1)), g).

(** Lines 419-427. *)
Definition place_wall (s : list (option Mesh) * mt19937)
  : result (list (option Mesh) * mt19937) :=
  let '(bm, g) := s in
  '(pos, g) ← random_board_position g;
  if decide (pos = player_pos) then Ok (bm, g)
  else
    bm ← vec_set bm (cell_of W pos) (Some wall_mesh);
    Ok (bm, g).

Definition place_walls (bm : list (option Mesh)) (g : mt19937)
  : result (list (option Mesh) * mt19937) :=
  let '(r, g) := mt g in
  let walls := u32 (r mod 8 + 2) in
  times (Z.to_nat walls) place_wall (bm, g).

(** Lines 429-437. *)
Definition place_goop (bm : list (option Mesh))
    (s : list (option Mesh) * mt19937)
  : result (list (option Mesh) * mt19937) :=
  let '(gm, g) := s in
  '(pos, g) ← random_board_position g;
  m ← vec_get bm (cell_of W pos);
  if decide (m ≠ Some wall_mesh) then
    gm ← vec_set gm (cell_of W pos) (Some goop_mesh);
    Ok (gm, g)
  else Ok (gm, g).

Definition place_goops (bm gm : list (option Mesh)) (g : mt19937)
  : result (list (option Mesh) * mt19937) :=
  let '(r, g) := mt g in
  let goops := r mod 4 in
  times (Z.to_nat goops) (place_goop bm) (gm, g).

(** Lines 448-451. *)
Definition directions : list glm.vec2 :=
  [glm.mk (-1) 0; glm.mk 1 0; glm.mk 0 (-1); glm.mk 0 1].

(** Lines 453-456, the slide of a simulated walk, on [glm::vec2 at] and
    [glm::vec2 d]: the test of line 453 indexes [board_meshes] with
    [(at.y+d.y)*board_size.x+(at.x+d.x)], line 454 is [at += d], all of it
    in [float].  Where that arithmetic is exact each round enters one more
    cell, so the loop is given one round per cell of the board and one
    more for the last test; where it is not, [at += d] can round back to
    [at] and the loop never ends. *)
Fixpoint walk_slide (budget : nat) (bm gm : list (option Mesh))
    (at_ d : glm.vec2) : result glm.vec2 :=
  match budget with
  | O => OutOfFuel
  | S budget' =>
      m ← vec_get bm (fcell W (glm.fadd at_ d));
      if decide (m ≠ Some wall_mesh) then
        let at_ := glm.fadd at_ d in
        o ← vec_get gm (fcell W at_);
        if decide (o = Some goop_mesh) then Ok at_
        else walk_slide budget' bm gm at_ d
      else Ok at_
  end.

(** Lines 447-458: one step of a walk.  [d] is an [ivec2] of [directions]
    converted to [vec2], which is exact; line 457 counts the cell that
    the [float] index of [at] points to. *)
Definition walk_step (bm gm : list (option Mesh))
    (s : glm.vec2 * list Z * mt19937) : result (glm.vec2 * list Z * mt19937) :=
  let '(at_, board_counts, g) := s in
  let '(r, g) := mt g in
  d ← vec_get directions (r mod 4);
  at_ ← walk_slide (S (length bm)) bm gm at_ d;
  c ← vec_get board_counts (fcell W at_);
  board_counts ← vec_set board_counts (fcell W at_) (u32 (c + 1));
  Ok (at_, board_counts, g).

(** Lines 444-459: a hundred walks of twenty steps from [prev_goal],
    which line 446 converts to [glm::vec2]. *)
Definition random_walks (bm gm : list (option Mesh)) (prev_goal : glm.vec2)
    (g : mt19937) : result (list Z * mt19937) :=
  times 100 (fun '(board_counts, g) =>
      '(_, board_counts, g) ← times 20 (walk_step bm gm)
                                (glm.to_vec2 prev_goal, board_counts, g);
      Ok (board_counts, g))
    (replicate (Z.to_nat (u32 (W * H))) 0, g).

(** Lines 461-470: the candidate cells, in row-major order. *)
Definition possible_cell (gm : list (option Mesh)) (board_counts : list Z)
    (y x : Z) (possible_cells : list glm.vec2) : result (list glm.vec2) :=
  if (x =? glm.x player_pos) && (y =? glm.y player_pos) then Ok possible_cells
  else
    o ← vec_get gm (cell W x y);
    if decide (o ≠ None) then Ok possible_cells
    else
      c ← vec_get board_counts (cell W x y);
      if 0 <? c then Ok (possible_cells ++ [glm.mk x y])
      else Ok possible_cells.

Definition scan_possible_cells (gm : list (option Mesh)) (board_counts : list Z)
  : result (list glm.vec2) :=
  for_each (fun y cells =>
      for_each (possible_cell gm board_counts y) (seqZ 0 W) cells)
    (seqZ 0 H) [].

(** The sort key of lines 475-477.  Every candidate was read from
    [board_counts] at this index by the scan, so the read is in range. *)
Definition count_of (board_counts : list Z) (c : glm.vec2) : Z :=
  default 0 (board_counts !! Z.to_nat (cell_of W c)).

(** [std::stable_sort] by [count_of a < count_of b]: an insertion sort
    that puts an element in front of the first one that is not smaller. *)
Fixpoint insert_by (key : glm.vec2 -> Z) (a : glm.vec2) (l : list glm.vec2)
  : list glm.vec2 :=
  match l with
  | [] => [a]
  | b :: l' => if key b <? key a then b :: insert_by key a l' else a :: l
  end.

Definition stable_sort (key : glm.vec2 -> Z) (l : list glm.vec2)
  : list glm.vec2 :=
  foldr (insert_by key) [] l.

(** Line 483: the loop that extends [limit].  Each round adds one to
    [limit], which stays below the number of candidates. *)
Fixpoint extend_limit (budget : nat) (board_counts : list Z)
    (possible_cells : list glm.vec2) (limit : Z) : result Z :=
  match budget with
  | O => OutOfFuel
  | S budget' =>
      if u32 (limit + 1) <? Z.of_nat (length possible_cells) then
        a ← vec_get possible_cells limit;
        b ← vec_get possible_cells (u32 (limit + 1));
        ca ← vec_get board_counts (cell_of W a);
        cb ← vec_get board_counts (cell_of W b);
        if ca =? cb then
          extend_limit budget' board_counts possible_cells (u32 (limit + 1))
        else Ok limit
      else Ok limit
  end.

(** Lines 481-483. *)
Definition pick_limit (board_counts : list Z) (possible_cells : list glm.vec2)
  : result Z :=
  let limit := Z.max 1 (u32 (Z.of_nat (length possible_cells) / 4)) in
  extend_limit (S (length possible_cells)) board_counts possible_cells limit.

(** Lines 442-490: the [while (goals < 2)] loop.  A round either leaves
    the loop or adds one to [goals], so the test runs at most three
    times. *)
Fixpoint place_goals (budget : nat) (bm : list (option Mesh))
    (goals : Z) (prev_goal : glm.vec2) (gm : list (option Mesh)) (g : mt19937)
  : result (Z * glm.vec2 * list (option Mesh) * mt19937) :=
  match budget with
  | O => OutOfFuel
  | S budget' =>
      if goals <? 2 then
        '(board_counts, g) ← random_walks bm gm prev_goal g;
        possible_cells ← scan_possible_cells gm board_counts;
        match possible_cells with
        | [] => Ok (goals, prev_goal, gm, g)
        | _ :: _ =>
            let possible_cells :=
              stable_sort (count_of board_counts) possible_cells in
            limit ← pick_limit board_counts possible_cells;
            let '(r, g) := mt g in
            k ← umod r limit;
            gpos ← vec_get possible_cells k;
            o ← vec_get gm (cell_of W gpos);
            if decide (o = None) then
              gm ← vec_set gm (cell_of W gpos) (Some checkpoint_mesh);
              place_goals budget' bm (u32 (goals + 1)) gpos gm g
            else Fault
        end
      else Ok (goals, prev_goal, gm, g)
  end.

(** Lines 403-490: one pass of the generator, up to the test of
    [goals]. *)
Definition create_board_pass (g : mt19937)
  : result (Z * glm.vec2 * list (option Mesh) * list (option Mesh) * mt19937) :=
  bm ← clear_board;
  let gm := replicate (Z.to_nat (u32 (W * H))) None in
  '(bm, g) ← place_walls bm g;
  '(gm, g) ← place_goops bm gm g;
  '(goals, prev_goal, gm, g) ← place_goals 3 bm 0 player_pos gm g;
  Ok (goals, prev_goal, bm, gm, g).
End Generator.

Definition with_board (st : Game) (bm gm : list (option Mesh)) : Game :=
  mkGame (board_size st) bm gm (player st) (checkpoints st) (won st).

(** Lines 400-501.  [fuel] bounds the depth of the retry on line 494. *)
Fixpoint create_board (fuel : nat) (st : Game) (g : mt19937)
  : result (Game * mt19937) :=
  match fuel with
  | O => OutOfFuel
  | S fuel' =>
      let W := glm.x (board_size st) in
      let H := glm.y (board_size st) in
      '(goals, prev_goal, bm, gm, g) ← create_board_pass W H (player st) g;
      if goals =? 0 then create_board fuel' (with_board st bm gm) g
      else
        gm ← vec_set gm (cell_of W prev_goal) (Some goal_mesh);
        Ok (with_board st bm gm, g)
  end.

(** ** [Game::move_player] *)

(** Lines 507-512.  [player.x += dx] and the index are [uint32_t]
    arithmetic.  One round per cell of the board and one more for the last
    test. *)
Fixpoint slide_player (budget : nat) (W : Z) (bm gm : list (option Mesh))
    (p : glm.vec2) (dx dy : Z) : result glm.vec2 :=
  match budget with
  | O => OutOfFuel
  | S budget' =>
      let p' := glm.mk (u32 (glm.x p + dx)) (u32 (glm.y p + dy)) in
      m ← vec_get bm (cell_of W p');
      if decide (m ≠ Some wall_mesh) then
        o ← vec_get gm (cell_of W p');
        if decide (o = Some goop_mesh) then Ok p'
        else slide_player budget' W bm gm p' dx dy
      else Ok p
  end.

(** Lines 503-521. *)
Definition move_player (dx dy : Z) (st : Game) : result Game :=
  let W := glm.x (board_size st) in
  let H := glm.y (board_size st) in
  let p := player st in
  if negb ((1 <=? glm.x p) && (u32 (glm.x p + 1) <? W)) then Fault
  else if negb ((1 <=? glm.y p) && (u32 (glm.y p + 1) <? H)) then Fault
  else
    p ← slide_player (S (length (board_meshes st))) W
          (board_meshes st) (goal_meshes st) p dx dy;
    o ← vec_get (goal_meshes st) (cell_of W p);
    '(gm, cp) ←
      (if decide (o = Some checkpoint_mesh) then
         gm ← vec_set (goal_meshes st) (cell_of W p) (Some checkpoint_collected_mesh);
         Ok (gm, checkpoints st + 1)
       else Ok (goal_meshes st, checkpoints st));
    o ← vec_get gm (cell_of W p);
    Ok (mkGame (board_size st) (board_meshes st) gm p cp
               (bool_decide (o = Some goal_mesh))).

(** ** [Game::handle_event] *)

Inductive Scancode : Type :=
| SCANCODE_LEFT
| SCANCODE_RIGHT
| SCANCODE_UP
| SCANCODE_DOWN
| SCANCODE_BACKSPACE
| SCANCODE_SPACE
| SCANCODE_OTHER.

(** What [handle_event] reads of an [SDL_Event]: whether it is a
    [SDL_KEYDOWN], [key.repeat] and [key.keysym.scancode]. *)
Record Event : Type := mkEvent {
  keydown : bool;
  key_repeat : bool;
  scancode : Scancode
}.

(** Lines 225-258. *)
Definition handle_event (fuel : nat) (evt : Event) (st : Game) (g : mt19937)
  : result (bool * Game * mt19937) :=
  if keydown evt && key_repeat evt then Ok (false, st, g)
  else if keydown evt && negb (key_repeat evt) then
    match scancode evt with
    | SCANCODE_LEFT => st ← move_player (-1) 0 st; Ok (true, st, g)
    | SCANCODE_RIGHT => st ← move_player 1 0 st; Ok (true, st, g)
    | SCANCODE_UP => st ← move_player 0 1 st; Ok (true, st, g)
    | SCANCODE_DOWN => st ← move_player 0 (-1) st; Ok (true, st, g)
    | SCANCODE_BACKSPACE =>
        let st :=
          if 0 <? checkpoints st then
            mkGame (board_size st) (board_meshes st) (goal_meshes st)
                   (player st) (checkpoints st - 1) (won st)
          else st in
        '(st, g) ← create_board fuel st g;
        Ok (true, st, g)
    | SCANCODE_SPACE =>
        if won st then
          '(st, g) ← create_board fuel st g;
          Ok (true, st, g)
        else Ok (true, st, g)
    | SCANCODE_OTHER => Ok (false, st, g)
    end
  else Ok (false, st, g).

(** ** [Game::draw]

    The matrices and the state of the graphics pipeline are left out: what
    is kept of lines 337-366 is which meshes are handed to [draw_mesh], in
    which order and for which cell. *)

(** One call of [draw_mesh] (lines 318-335): the mesh, and the cell
    [(x, y)] of its transformation, the translation to the centre
    [(x + 0.5, y + 0.5, 0)] of the cell. *)
Record DrawCall : Type := mkDrawCall {
  drawn_mesh : Mesh;
  drawn_x : Z;
  drawn_y : Z
}.

(** Lines 339-356: the terrain of a cell, then what lies on it.
    [*board_meshes[..]] leaves defined behaviour on [nullptr]. *)
Definition draw_cell (st : Game) (y x : Z) (calls : list DrawCall)
  : result (list DrawCall) :=
  let W := glm.x (board_size st) in
  m ← vec_get (board_meshes st) (cell W x y);
  match m with
  | None => Fault
  | Some m =>
      let calls := calls ++ [mkDrawCall m x y] in
      o ← vec_get (goal_meshes st) (cell W x y);
      match o with
      | Some o => Ok (calls ++ [mkDrawCall o x y])
      | None => Ok calls
      end
  end.

(** Lines 337-366: the calls of [draw_mesh] that [draw] makes, in order;
    the token comes last. *)
Definition draw (st : Game) : result (list DrawCall) :=
  calls ← for_each (fun y calls =>
      for_each (draw_cell st y) (seqZ 0 (glm.x (board_size st))) calls)
    (seqZ 0 (glm.y (board_size st))) [];
  Ok (calls ++ [mkDrawCall player_mesh (glm.x (player st)) (glm.y (player st))]).

(** ** The mesh index of [Game::Game]

    Lines 149-183 of the constructor: the index entries read from the mesh
    file are checked and put into a map from names to meshes, and the seven
    meshes of the game are looked up in it. *)

(** A call either returns or throws a [std::runtime_error] with a
    message. *)
Inductive loaded (A : Type) : Type :=
| Loaded (a : A)
| Throws (what : string).

Arguments Loaded {A} a.
Arguments Throws {A} what.

#[global] Instance loaded_bind : MBind loaded := fun A B k m =>
  match m with
  | Loaded a => k a
  | Throws what => Throws what
  end.

Module MeshIndex.
(** Lines 128-133. *)
Record IndexEntry : Type := mkIndexEntry {
  name_begin : Z;
  name_end : Z;
  vertex_begin : Z;
  vertex_end : Z
}.

(** The value of a [Mesh], as lines 159-160 fill it and [glDrawArrays]
    takes it on line 334: a range of the vertex buffer.  The struct is
    declared in [Game.hpp]; the fields hold the numbers assigned to them. *)
Record Mesh : Type := mk { first : Z; count : Z }.

(** The seven meshes that lines 177-183 set. *)
Record Meshes : Type := mkMeshes {
  wall_mesh : Mesh;
  floor_mesh : Mesh;
  player_mesh : Mesh;
  goop_mesh : Mesh;
  checkpoint_mesh : Mesh;
  checkpoint_collected_mesh : Mesh;
  goal_mesh : Mesh
}.

(** Line 162:
    [std::string(names.begin() + e.name_begin, names.begin() + e.name_end)]. *)
Definition name_of (names : list Ascii.ascii) (e : IndexEntry) : string :=
  String.string_of_list_ascii
    (take (Z.to_nat (name_end e) - Z.to_nat (name_begin e))
          (drop (Z.to_nat (name_begin e)) names)).

(** Lines 152-166: one round of the loop over the index entries. *)
Definition add_entry {Vertex : Type} (vertices : list Vertex)
    (names : list Ascii.ascii) (e : IndexEntry) (index : gmap string Mesh)
  : loaded (gmap string Mesh) :=
  if (name_begin e >? name_end e) || (name_end e >? Z.of_nat (length names)) then
    Throws "invalid name indices in index."
  else if (vertex_begin e >? vertex_end e)
          || (vertex_end e >? Z.of_nat (length vertices)) then
    Throws "invalid vertex indices in index."
  else
    let mesh := mk (vertex_begin e) (u32 (vertex_end e - vertex_begin e)) in
    match index !! name_of names e with
    | Some _ => Throws "duplicate name in index."
    | None => Loaded (<[name_of names e := mesh]> index)
    end.

(** Lines 150-167. *)
Fixpoint add_entries {Vertex : Type} (vertices : list Vertex)
    (names : list Ascii.ascii) (index_entries : list IndexEntry)
    (index : gmap string Mesh) : loaded (gmap string Mesh) :=
  match index_entries with
  | [] => Loaded index
  | e :: es =>
      index ← add_entry vertices names e index;
      add_entries vertices names es index
  end.

(** Lines 170-176. *)
Definition lookup (index : gmap string Mesh) (name : string) : loaded Mesh :=
  match index !! name with
  | Some mesh => Loaded mesh
  | None =>
      Throws (String.append "Mesh named '"
                (String.append name "' does not appear in index."))
  end.

(** Lines 149-183. *)
Definition load {Vertex : Type} (vertices : list Vertex)
    (names : list Ascii.ascii) (index_entries : list IndexEntry)
  : loaded Meshes :=
  index ← add_entries vertices names index_entries ∅;
  wall ← lookup index "Wall";
  floor ← lookup index "Floor";
  player ← lookup index "Player";
  goop ← lookup index "Goop";
  checkpoint ← lookup index "Checkpoint";
  checkpoint_collected ← lookup index "CheckpointCollected";
  goal ← lookup index "Goal";
  Loaded (mkMeshes wall floor player goop checkpoint checkpoint_collected goal).
End MeshIndex.

(** * Vocabulary of the properties *)

(** The board has [W*H] cells and the cell count fits [uint32_t]. *)
Definition fits (W H : Z) : Prop := 0 <= W /\ 0 <= H /\ W * H < 2 ^ 32.

Definition in_board (W H x y : Z) : Prop := 0 <= x < W /\ 0 <= y < H.

(** The perimeter: [x] in [{0, W-1}] or [y] in [{0, H-1}]. *)
Definition on_border (W H x y : Z) : Prop :=
  in_board W H x y /\ (x = 0 \/ x = W - 1 \/ y = 0 \/ y = H - 1).

(** Strictly inside the border. *)
Definition inside (W H : Z) (p : glm.vec2) : Prop :=
  1 <= glm.x p < W - 1 /\ 1 <= glm.y p < H - 1.

(** Line 507's test [board_meshes[..] == &wall_mesh] and line 511's test
    [goal_meshes[..] == &goop_mesh] at a cell. *)
Definition is_wall (W : Z) (bm : list (option Mesh)) (x y : Z) : Prop :=
  bm !! Z.to_nat (cell W x y) = Some (Some wall_mesh).

Definition is_goop (W : Z) (gm : list (option Mesh)) (x y : Z) : Prop :=
  gm !! Z.to_nat (cell W x y) = Some (Some goop_mesh).

Definition border_walls (W H : Z) (bm : list (option Mesh)) : Prop :=
  forall x y, on_border W H x y -> is_wall W bm x y.

Definition perimeter_is_wall (st : Game) : Prop :=
  border_walls (glm.x (board_size st)) (glm.y (board_size st)) (board_meshes st).

(** The overlay of the border is empty: [goal_meshes] holds [nullptr]
    there. *)
Definition border_bare (W H : Z) (gm : list (option Mesh)) : Prop :=
  forall x y, on_border W H x y -> gm !! Z.to_nat (cell W x y) = Some None.

Definition perimeter_is_bare (st : Game) : Prop :=
  border_bare (glm.x (board_size st)) (glm.y (board_size st)) (goal_meshes st).

(** The number of cells of the board. *)
Definition board_cells (W H : Z) : nat := Z.to_nat (W * H).

Definition floor_at (W : Z) (bm : list (option Mesh)) (x y : Z) : Prop :=
  bm !! Z.to_nat (cell W x y) = Some (Some floor_mesh).

(** The overlay holds nothing but goop after lines 429-437. *)
Definition only_goop (gm : list (option Mesh)) : Prop :=
  forall i o, gm !! i = Some o -> o = None \/ o = Some goop_mesh.

(** The [i]-th cell from [p] in direction [d]. *)
Definition ahead (p d : glm.vec2) (i : Z) : glm.vec2 :=
  glm.mk (glm.x p + i * glm.x d) (glm.y p + i * glm.y d).

Definition is_direction (d : glm.vec2) : Prop :=
  d = glm.mk (-1) 0 \/ d = glm.mk 1 0 \/ d = glm.mk 0 (-1) \/ d = glm.mk 0 1.

Definition wall_at (W : Z) (bm : list (option Mesh)) (p : glm.vec2) : Prop :=
  is_wall W bm (glm.x p) (glm.y p).

Definition goop_at (W : Z) (gm : list (option Mesh)) (p : glm.vec2) : Prop :=
  is_goop W gm (glm.x p) (glm.y p).

(** How many cells lie between [p] and the border in direction [d], the
    border cell included. *)
Definition room (W H : Z) (p d : glm.vec2) : Z :=
  if glm.x d =? 1 then W - 1 - glm.x p
  else if glm.x d =? -1 then glm.x p
  else if glm.y d =? 1 then H - 1 - glm.y p
  else glm.y p.

(** The index of the cell [p], in exact arithmetic. *)
Definition exact_cell (W : Z) (p : glm.vec2) : Z := glm.y p * W + glm.x p.

(** The slide rule, in exact arithmetic: from [at_], enter the next cell
    in direction [d] as long as it is no wall, and stop on goop.  The loop
    of lines 507-512 computes it where [uint32_t] does not wrap, the loop
    of lines 453-456 where [float] does not round. *)
Fixpoint slide (W : Z) (budget : nat) (bm gm : list (option Mesh))
    (at_ d : glm.vec2) : result glm.vec2 :=
  match budget with
  | O => OutOfFuel
  | S budget' =>
      m ← vec_get bm (exact_cell W (glm.add at_ d));
      if decide (m ≠ Some wall_mesh) then
        let at_ := glm.add at_ d in
        o ← vec_get gm (exact_cell W at_);
        if decide (o = Some goop_mesh) then Ok at_
        else slide W budget' bm gm at_ d
      else Ok at_
  end.

(** Every counted cell lies strictly inside the border. *)
Definition counts_inside (W H : Z) (board_counts : list Z) : Prop :=
  forall i c, board_counts !! i = Some c -> c <> 0 ->
    exists q, inside W H q /\ i = Z.to_nat (cell_of W q).

(** The invariant of a simulated walk where [float] is exact. *)
Definition walk_inv (W H : Z) (s : glm.vec2 * list Z * mt19937) : Prop :=
  inside W H s.1.1 /\ length s.1.2 = board_cells W H /\ counts_inside W H s.1.2.

(** What lines 464-466 ask of a cell: it is not the player's cell, its
    overlay is [nullptr], and it was counted. *)
Definition candidate (W : Z) (player_pos : glm.vec2) (gm : list (option Mesh))
    (board_counts : list Z) (c : glm.vec2) : Prop :=
  c <> player_pos /\
  gm !! Z.to_nat (cell_of W c) = Some None /\
  exists n, board_counts !! Z.to_nat (cell_of W c) = Some n /\ 0 < n.

(** How many cells of an overlay point to the mesh [m]. *)
Definition count_mesh (m : Mesh) (gm : list (option Mesh)) : nat :=
  length (filter (fun o => o = Some m) gm).

(** The invariant of the placement loop: so many checkpoints, no goal, and
    the last one placed is at [prev_goal]. *)
Definition goals_inv (W : Z) (goals : Z) (prev_goal : glm.vec2)
    (gm : list (option Mesh)) : Prop :=
  Z.of_nat (count_mesh checkpoint_mesh gm) = goals /\
  count_mesh goal_mesh gm = 0%nat /\
  (goals <> 0 ->
   gm !! Z.to_nat (cell_of W prev_goal) = Some (Some checkpoint_mesh)).

(** The first round of walks of the pass that starts at the stream state
    [g] counts a cell that lines 464-466 accept. *)
Definition walks_find_candidate (W H : Z) (player_pos : glm.vec2) (g : mt19937)
  : Prop :=
  exists bm0 bm g1 gm g2 board_counts g3 c,
    clear_board W H = Ok bm0 /\
    place_walls W H player_pos bm0 g = Ok (bm, g1) /\
    place_goops W H bm (replicate (Z.to_nat (u32 (W * H))) None) g1 = Ok (gm, g2) /\
    random_walks W H bm gm player_pos g2 = Ok (board_counts, g3) /\
    in_board W H (glm.x c) (glm.y c) /\
    candidate W player_pos gm board_counts c.

(** Some pass of the retry chain that starts at the stream state [g]
    finds a cell for an objective in its first round of walks; the passes
    before it placed nothing. *)
Inductive places_objective (W H : Z) (player_pos : glm.vec2) : mt19937 -> Prop :=
| places_now g :
    walks_find_candidate W H player_pos g ->
    places_objective W H player_pos g
| places_later g prev_goal bm gm g' :
    create_board_pass W H player_pos g = Ok (0, prev_goal, bm, gm, g') ->
    places_objective W H player_pos g' ->
    places_objective W H player_pos g.

(** A state on which [move_player] may be called: the layers have one
    entry per cell and the border is wall. *)
Definition board_ok (st : Game) : Prop :=
  fits (glm.x (board_size st)) (glm.y (board_size st)) /\
  length (board_meshes st)
    = board_cells (glm.x (board_size st)) (glm.y (board_size st)) /\
  length (goal_meshes st)
    = board_cells (glm.x (board_size st)) (glm.y (board_size st)) /\
  perimeter_is_wall st.

Definition player_inside (st : Game) : Prop :=
  inside (glm.x (board_size st)) (glm.y (board_size st)) (player st).

(** A series of calls of [move_player]. *)
Definition run_moves (moves : list (Z * Z)) (st : Game) : result Game :=
  for_each (fun m st => move_player m.1 m.2 st) moves st.

(** A check of [border_walls] that computes. *)
Definition border_wallsb (W H : Z) (bm : list (option Mesh)) : bool :=
  forallb (fun y =>
      forallb (fun x =>
          if (x =? 0) || (x =? W - 1) || (y =? 0) || (y =? H - 1)
          then bool_decide (bm !! Z.to_nat (cell W x y) = Some (Some wall_mesh))
          else true)
        (seqZ 0 W))
    (seqZ 0 H).

(** The key press that [handle_event] acts on, if any, and the step of an
    arrow key. *)
Definition pressed (evt : Event) : option Scancode :=
  if keydown evt && negb (key_repeat evt) then Some (scancode evt) else None.

Definition step_of (k : Scancode) : option (Z * Z) :=
  match k with
  | SCANCODE_LEFT => Some (-1, 0)
  | SCANCODE_RIGHT => Some (1, 0)
  | SCANCODE_UP => Some (0, 1)
  | SCANCODE_DOWN => Some (0, -1)
  | _ => None
  end.

(** The cut after the first [limit] candidates splits a tie group: a
    candidate at or after position [limit] has the count of the last one
    before it. *)
Definition cutoff_splits_tie (W : Z) (board_counts : list Z)
    (possible_cells : list glm.vec2) (limit : Z) : Prop :=
  exists i c_last c,
    limit <= i /\
    possible_cells !! Z.to_nat (limit - 1) = Some c_last /\
    possible_cells !! Z.to_nat i = Some c /\
    count_of W board_counts c = count_of W board_counts c_last.

(** The candidates as the specification words them: the cells inside the
    border that were counted, but for the token's start cell and the cells
    that hold a checkpoint or a goal. *)
Definition spec_candidate (W H : Z) (player_pos : glm.vec2)
    (gm : list (option Mesh)) (board_counts : list Z) (c : glm.vec2) : Prop :=
  inside W H c /\
  (exists n, board_counts !! Z.to_nat (cell_of W c) = Some n /\ 0 < n) /\
  c <> player_pos /\
  gm !! Z.to_nat (cell_of W c) <> Some (Some checkpoint_mesh) /\
  gm !! Z.to_nat (cell_of W c) <> Some (Some goal_mesh).

(** The overlays [gm] and [gm'] hold goop on the same cells: a slide does
    not tell them apart. *)
Definition same_goop (gm gm' : list (option Mesh)) : Prop :=
  length gm' = length gm /\
  forall i, gm' !! i = Some (Some goop_mesh) <-> gm !! i = Some (Some goop_mesh).

(** What moves do to an overlay: nothing, but for checkpoints that become
    collected checkpoints. *)
Definition collected_from (gm gm' : list (option Mesh)) : Prop :=
  length gm' = length gm /\
  forall i, gm' !! i = gm !! i \/
    (gm !! i = Some (Some checkpoint_mesh) /\
     gm' !! i = Some (Some checkpoint_collected_mesh)).

(** A series of slides, one for each direction of [ds], from [p]: the
    cells the walker rests on, in order. *)
Fixpoint walk_path (W : Z) (bm gm : list (option Mesh)) (ds : list glm.vec2)
    (p : glm.vec2) : result (list glm.vec2) :=
  match ds with
  | [] => Ok []
  | d :: ds' =>
      q ← slide W (S (length bm)) bm gm p d;
      qs ← walk_path W bm gm ds' q;
      Ok (q :: qs)
  end.

(** The arguments of [move_player] for a direction. *)
Definition step_to (d : glm.vec2) : Z * Z := (glm.x d, glm.y d).

(** Every counted cell is the resting cell of a series of slides from
    [prev]; it lies inside the border and is not a wall. *)
Definition counts_reached (W H : Z) (bm gm : list (option Mesh))
    (prev : glm.vec2) (board_counts : list Z) : Prop :=
  forall i c, board_counts !! i = Some c -> c <> 0 ->
    exists ds qs q,
      Forall is_direction ds /\ walk_path W bm gm ds prev = Ok qs /\
      last qs = Some q /\ inside W H q /\ ~ wall_at W bm q /\
      i = Z.to_nat (cell_of W q).

(** The walker stands where a series of slides from [prev] has led it. *)
Definition walk_reach (W H : Z) (bm gm : list (option Mesh)) (prev : glm.vec2)
    (s : glm.vec2 * list Z * mt19937) : Prop :=
  (exists ds qs,
     Forall is_direction ds /\ walk_path W bm gm ds prev = Ok qs /\
     default prev (last qs) = s.1.1) /\
  ~ wall_at W bm s.1.1 /\
  counts_reached W H bm gm prev s.1.2.

(** The terrain holds walls and floor, nothing else. *)
Definition wall_or_floor (bm : list (option Mesh)) : Prop :=
  forall i m, bm !! i = Some m -> m = Some wall_mesh \/ m = Some floor_mesh.

(** Whatever the overlay holds lies on a floor cell. *)
Definition overlay_on_floor (bm gm : list (option Mesh)) : Prop :=
  forall i m, gm !! i = Some (Some m) -> bm !! i = Some (Some floor_mesh).

(** The invariant of the placement loop that makes a level solvable: a
    series of slides leads from the token's cell to [prev_goal] and rests on
    every checkpoint placed so far. *)
Definition tour_inv (W H : Z) (bm : list (option Mesh)) (player_pos : glm.vec2)
    (prev_goal : glm.vec2) (gm : list (option Mesh)) : Prop :=
  length gm = board_cells W H /\ inside W H prev_goal /\
  ~ wall_at W bm prev_goal /\ overlay_on_floor bm gm /\
  exists ds qs,
    Forall is_direction ds /\ walk_path W bm gm ds player_pos = Ok qs /\
    default player_pos (last qs) = prev_goal /\
    forall i, gm !! i = Some (Some checkpoint_mesh) ->
      exists q, q ∈ qs /\ i = Z.to_nat (cell_of W q).

(** What the overlay of a fresh board holds: nothing, goop, a checkpoint or
    the goal. *)
Definition fresh_overlay (gm : list (option Mesh)) : Prop :=
  forall i o, gm !! i = Some o ->
    o = None \/ o = Some goop_mesh \/ o = Some checkpoint_mesh \/ o = Some goal_mesh.

(** The stream [g'] is the stream [g] after [n] more draws. *)
Definition draws (g g' : mt19937) (n : Z) : Prop :=
  outputs g' = outputs g /\ Z.of_nat (drawn g') = Z.of_nat (drawn g) + n.

(** The passes of a call of [create_board] that starts at the stream
    state [g]: every pass but the last places nothing and is followed by
    the retry of line 494, the last one places an objective and leaves the
    stream at [g'].  [ns] lists, pass by pass, how many numbers were
    drawn. *)
Inductive pass_chain (W H : Z) (player_pos : glm.vec2)
  : mt19937 -> list Z -> mt19937 -> Prop :=
| chain_last g goals prev_goal bm gm g' :
    create_board_pass W H player_pos g = Ok (goals, prev_goal, bm, gm, g') ->
    goals <> 0 ->
    pass_chain W H player_pos g [Z.of_nat (drawn g') - Z.of_nat (drawn g)] g'
| chain_retry g prev_goal bm gm g1 ns g' :
    create_board_pass W H player_pos g = Ok (0, prev_goal, bm, gm, g1) ->
    pass_chain W H player_pos g1 ns g' ->
    pass_chain W H player_pos g
      ((Z.of_nat (drawn g1) - Z.of_nat (drawn g)) :: ns) g'.

(** The sum of the counts of a round of walks. *)
Definition counts_total (board_counts : list Z) : Z := foldr Z.add 0 board_counts.

(** How many cells of an overlay are not [nullptr]. *)
Definition count_objects (gm : list (option Mesh)) : nat :=
  length (filter (fun o => o <> None) gm).

(** The ranges of an index entry are ordered and lie within the name
    characters and the vertex data. *)
Definition entry_ok {Vertex : Type} (vertices : list Vertex)
    (names : list Ascii.ascii) (e : MeshIndex.IndexEntry) : Prop :=
  MeshIndex.name_begin e <= MeshIndex.name_end e <= Z.of_nat (length names) /\
  MeshIndex.vertex_begin e <= MeshIndex.vertex_end e <= Z.of_nat (length vertices).

(** The fields of an entry are [uint32_t] values. *)
Definition entry_u32 (e : MeshIndex.IndexEntry) : Prop :=
  0 <= MeshIndex.name_begin e < 2 ^ 32 /\ 0 <= MeshIndex.name_end e < 2 ^ 32 /\
  0 <= MeshIndex.vertex_begin e < 2 ^ 32 /\ 0 <= MeshIndex.vertex_end e < 2 ^ 32.

(** The mesh that lines 158-160 make of an entry. *)
Definition mesh_of (e : MeshIndex.IndexEntry) : MeshIndex.Mesh :=
  MeshIndex.mk (MeshIndex.vertex_begin e)
               (u32 (MeshIndex.vertex_end e - MeshIndex.vertex_begin e)).

(** Some entry of the index has the name [name] and yields [mesh]. *)
Definition named (names : list Ascii.ascii)
    (index_entries : list MeshIndex.IndexEntry) (name : string)
    (mesh : MeshIndex.Mesh) : Prop :=
  exists e, e ∈ index_entries /\ MeshIndex.name_of names e = name /\ mesh = mesh_of e.

(** The names that lines 177-183 look up, in that order. *)
Definition required_names : list string :=
  ["Wall"; "Floor"; "Player"; "Goop"; "Checkpoint"; "CheckpointCollected"; "Goal"]%string.

(** The message of line 173. *)
Definition not_in_index (name : string) : string :=
  String.append "Mesh named '" (String.append name "' does not appear in index.").

(** A mesh lies within the vertex data. *)
Definition in_buffer {Vertex : Type} (vertices : list Vertex)
    (mesh : MeshIndex.Mesh) : Prop :=
  0 <= MeshIndex.first mesh /\ 0 <= MeshIndex.count mesh /\
  MeshIndex.first mesh + MeshIndex.count mesh <= Z.of_nat (length vertices).

(** ** Concrete boards and streams *)

(** A stream that varies. *)
Definition lcg (n : nat) : Z := (Z.of_nat n * 1103515245 + 12345) / 65536.

(** The stream that starts with [prefix] and then repeats [cycle]. *)
Definition stream (prefix cycle : list Z) (n : nat) : Z :=
  if (n <? length prefix)%nat then nth n prefix 0
  else nth ((n - length prefix) mod length cycle) cycle 0.

(** What a call returns besides the stream, and how many numbers the
    stream has given by then. *)
Definition returned {A : Type} (r : result (A * mt19937)) : option (A * Z) :=
  match r with
  | Ok (a, g) => Some (a, Z.of_nat (drawn g))
  | _ => None
  end.

(** The 3x3 board has one cell inside its border. *)
Definition level_3x3 : Game :=
  mkGame (glm.mk 3 3) (replicate 9 None) [] (glm.mk 1 1) 0 false.

(** A 5x3 board: a corridor of three cells.  The stream draws two walls,
    both on the player's cell and so skipped, one goop at (2,1), and then
    always the direction (1,0). *)
Definition level_5x3 : Game :=
  mkGame (glm.mk 5 3) (replicate 15 None) [] (glm.mk 1 1) 0 false.

Definition stream_5x3 : nat -> Z := stream [0; 0; 0; 0; 0; 1; 1; 0] [1].

Definition open_5x3 : list (option Mesh) :=
  let w := Some wall_mesh in
  let f := Some floor_mesh in
  [w; w; w; w; w;
   w; f; f; f; w;
   w; w; w; w; w].

(** The overlay and the counts of the first placement round on the
    corridor, and the board that [create_board] returns. *)
Definition goal_meshes_5x3 : list (option Mesh) :=
  <[7%nat := Some goop_mesh]> (replicate 15 None).

Definition board_counts_5x3 : list Z :=
  [0; 0; 0; 0; 0;
   0; 0; 100; 1900; 0;
   0; 0; 0; 0; 0].

Definition board_5x3 : Game :=
  mkGame (glm.mk 5 3) open_5x3
         (<[8%nat := Some goal_mesh]> goal_meshes_5x3)
         (glm.mk 1 1) 0 false.

(** The same corridor, with the goop drawn at (1,1), the player's cell. *)
Definition stream_goop_on_player : nat -> Z :=
  stream [0; 0; 0; 0; 0; 1; 0; 0] [1].

Definition board_goop_on_player : Game :=
  mkGame (glm.mk 5 3) open_5x3
         (<[8%nat := Some goal_mesh]>
            (<[6%nat := Some goop_mesh]> (replicate 15 None)))
         (glm.mk 1 1) 0 false.

(** A 4x4 board.  The stream draws two walls, both skipped, no goop, and
    then the directions (1,0), (0,1), (-1,0), (0,-1) in turn: every walk
    goes round the four cells five times. *)
Definition level_4x4 : Game :=
  mkGame (glm.mk 4 4) (replicate 16 None) [] (glm.mk 1 1) 0 false.

Definition stream_4x4 : nat -> Z := stream [0; 0; 0; 0; 0; 0] [1; 3; 0; 2].

Definition open_4x4 : list (option Mesh) :=
  let w := Some wall_mesh in
  let f := Some floor_mesh in
  [w; w; w; w;
   w; f; f; w;
   w; f; f; w;
   w; w; w; w].

Definition board_counts_4x4 : list Z :=
  [0; 0; 0; 0;
   0; 500; 500; 0;
   0; 500; 500; 0;
   0; 0; 0; 0].

(** A 6x5 game before its first board: the constructor sizes
    [board_meshes] with [nullptr] and calls [create_board]. *)
Definition level_6x5 : Game :=
  mkGame (glm.mk 6 5) (replicate 30 None) [] (glm.mk 1 1) 0 false.

(** Its first board, drawn with [lcg]: 4014 numbers. *)
Definition board_meshes_6x5 : list (option Mesh) :=
  let w := Some wall_mesh in
  let f := Some floor_mesh in
  [w; w; w; w; w; w;
   w; f; f; f; w; w;
   w; f; f; w; f; w;
   w; f; f; f; f; w;
   w; w; w; w; w; w].

Definition goal_meshes_6x5 : list (option Mesh) :=
  <[9%nat := Some goal_mesh]>
    (<[16%nat := Some goop_mesh]>
       (<[21%nat := Some goop_mesh]>
          (<[22%nat := Some checkpoint_mesh]> (replicate 30 None)))).

Definition board_6x5 : Game :=
  mkGame (glm.mk 6 5) board_meshes_6x5 goal_meshes_6x5 (glm.mk 1 1) 0 false.

(** The same after a move to the right, which ends on the goal. *)
Definition won_6x5 : Game :=
  mkGame (glm.mk 6 5) board_meshes_6x5 goal_meshes_6x5 (glm.mk 3 1) 0 true.

(** The next board, drawn from there: 8028 numbers in all. *)
Definition next_6x5 : Game :=
  let w := Some wall_mesh in
  let f := Some floor_mesh in
  mkGame (glm.mk 6 5)
         [w; w; w; w; w; w;
          w; w; f; f; f; w;
          w; w; w; f; f; w;
          w; f; f; f; f; w;
          w; w; w; w; w; w]
         (<[10%nat := Some goal_mesh]>
            (<[19%nat := Some goop_mesh]>
               (<[21%nat := Some checkpoint_mesh]> (replicate 30 None))))
         (glm.mk 3 1) 0 true.

(** A 5x5 board, open inside, with goop at (2,2) and the token at (2,1). *)
Definition open_5x5 : list (option Mesh) :=
  let w := Some wall_mesh in
  let f := Some floor_mesh in
  [w; w; w; w; w;
   w; f; f; f; w;
   w; f; f; f; w;
   w; f; f; f; w;
   w; w; w; w; w].

Definition sticky_5x5 : Game :=
  mkGame (glm.mk 5 5) open_5x5
         (<[12%nat := Some goop_mesh]> (replicate 25 None))
         (glm.mk 2 1) 0 false.

(** The same board with a checkpoint at (2,3) in place of the goop, and
    the state after the token went there, came back and went there
    again. *)
Definition checkpoint_5x5 : Game :=
  mkGame (glm.mk 5 5) open_5x5
         (<[17%nat := Some checkpoint_mesh]> (replicate 25 None))
         (glm.mk 2 1) 0 false.

Definition revisited_5x5 : Game :=
  mkGame (glm.mk 5 5) open_5x5
         (<[17%nat := Some checkpoint_collected_mesh]> (replicate 25 None))
         (glm.mk 2 3) 1 false.

(** The state a call of [move_player] or [run_moves] returns. *)
Definition returned_state (r : result Game) : option Game :=
  match r with
  | Ok st => Some st
  | _ => None
  end.

(** The open 5x5 board with the token on the border. *)
Definition cornered_5x5 : Game :=
  mkGame (glm.mk 5 5) open_5x5 (replicate 25 None) (glm.mk 0 2) 0 false.

(** A board two cells wide. *)
Definition level_2x5 : Game :=
  mkGame (glm.mk 2 5) [] [] (glm.mk 1 1) 0 false.

(** A mesh file: three vertices for each of the seven meshes. *)
Definition blob_vertices : list unit := replicate 21 ().

Definition blob_names : list Ascii.ascii :=
  String.list_ascii_of_string
    "WallFloorPlayerGoopCheckpointCheckpointCollectedGoal".

Definition blob_index : list MeshIndex.IndexEntry :=
  [MeshIndex.mkIndexEntry 0 4 0 3;
   MeshIndex.mkIndexEntry 4 9 3 6;
   MeshIndex.mkIndexEntry 9 15 6 9;
   MeshIndex.mkIndexEntry 15 19 9 12;
   MeshIndex.mkIndexEntry 19 29 12 15;
   MeshIndex.mkIndexEntry 29 48 15 18;
   MeshIndex.mkIndexEntry 48 52 18 21].

Definition blob_meshes : MeshIndex.Meshes :=
  MeshIndex.mkMeshes (MeshIndex.mk 0 3) (MeshIndex.mk 3 3) (MeshIndex.mk 6 3)
    (MeshIndex.mk 9 3) (MeshIndex.mk 12 3) (MeshIndex.mk 15 3) (MeshIndex.mk 18 3).

(** An index that names "Wall" twice, and one without "Player". *)
Definition blob_index_twice : list MeshIndex.IndexEntry :=
  [MeshIndex.mkIndexEntry 0 4 0 3; MeshIndex.mkIndexEntry 0 4 3 6].

Definition blob_index_short : list MeshIndex.IndexEntry :=
  [MeshIndex.mkIndexEntry 0 4 0 3; MeshIndex.mkIndexEntry 4 9 3 6].

(** * Reasoning about outcomes, loops and vectors *)

Lemma bind_Ok {A B : Type} (m : result A) (k : A -> result B) (b : B) :
  m ≫= k = Ok b <-> exists a, m = Ok a /\ k a = Ok b.
Proof.
  destruct m as [a| |]; simpl; split.
  - intros Hk. exists a. auto.
  - intros (a' & Ha & Hk). congruence.
  - discriminate.
  - intros (a' & Ha & _). discriminate.
  - discriminate.
  - intros (a' & Ha & _). discriminate.
Qed.

Lemma bind_Ok_l {A B : Type} (a : A) (k : A -> result B) : Ok a ≫= k = k a.
Proof. reflexivity. Qed.

Lemma vec_get_Ok {A : Type} (v : list A) (i : Z) (a : A) :
  vec_get v i = Ok a <-> 0 <= i /\ v !! Z.to_nat i = Some a.
Proof.
  unfold vec_get. destruct (Z.leb_spec 0 i) as [Hi|Hi].
  - destruct (v !! Z.to_nat i) as [a'|]; split.
    + intros [= ->]. auto.
    + intros [_ [= ->]]. reflexivity.
    + discriminate.
    + intros [_ [=]].
  - split; [discriminate | lia].
Qed.

Lemma vec_set_Ok {A : Type} (v v' : list A) (i : Z) (a : A) :
  vec_set v i a = Ok v' <->
  0 <= i < Z.of_nat (length v) /\ v' = <[Z.to_nat i := a]> v.
Proof.
  unfold vec_set.
  destruct (Z.leb_spec 0 i) as [Hi|Hi], (Z.ltb_spec i (Z.of_nat (length v))) as [Hl|Hl];
    simpl; split; try discriminate; try (intros [? _]; lia).
  - intros [= <-]. auto.
  - intros [_ ->]. reflexivity.
Qed.

Lemma vec_get_in_range {A : Type} (v : list A) (i : Z) :
  0 <= i < Z.of_nat (length v) -> exists a, vec_get v i = Ok a.
Proof.
  intros Hi. destruct (lookup_lt_is_Some_2 v (Z.to_nat i)) as [a Ha]; [lia|].
  exists a. apply vec_get_Ok. split; [lia | exact Ha].
Qed.

Lemma vec_set_in_range {A : Type} (v : list A) (i : Z) (a : A) :
  0 <= i < Z.of_nat (length v) -> vec_set v i a = Ok (<[Z.to_nat i := a]> v).
Proof. intros Hi. apply vec_set_Ok. auto. Qed.

(** Splits a hypothesis [H : m ≫= k = Ok b] into the two calls. *)
Tactic Notation "bind_inv" hyp(H) "as" simple_intropattern(a) ident(Ha) :=
  apply bind_Ok in H; destruct H as (a & Ha & H).


Ltac bind_split H :=
  let a := fresh "a" in
  let H1 := fresh H in
  apply bind_Ok in H; destruct H as (a & H1 & H).

(** An invariant of the loop body is an invariant of the loop. *)
Lemma for_each_inv {A S : Type} (P : S -> Prop) (body : A -> S -> result S)
    (l : list A) :
  (forall a s s', a ∈ l -> P s -> body a s = Ok s' -> P s') ->
  forall s s', P s -> for_each body l s = Ok s' -> P s'.
Proof.
  induction l as [|a l IH]; intros Hbody s s' Hs Hrun; simpl in Hrun.
  - injection Hrun as <-. exact Hs.
  - bind_split Hrun. apply IH with (s := a0).
    + intros b t t' Hb. apply Hbody. right. exact Hb.
    + apply (Hbody a s a0); [left | exact Hs | exact Hrun0].
    + exact Hrun.
Qed.

Lemma times_inv {S : Type} (P : S -> Prop) (body : S -> result S) (n : nat) :
  (forall s s', P s -> body s = Ok s' -> P s') ->
  forall s s', P s -> times n body s = Ok s' -> P s'.
Proof.
  intros Hbody. induction n as [|n IH]; intros s s' Hs Hrun; simpl in Hrun.
  - injection Hrun as <-. exact Hs.
  - bind_split Hrun. apply (IH a); [|exact Hrun]. apply (Hbody s a Hs Hrun0).
Qed.

(** A body that returns under the invariant makes the loop return. *)
Lemma for_each_total {A S : Type} (P : S -> Prop) (body : A -> S -> result S)
    (l : list A) :
  (forall a s, a ∈ l -> P s -> exists s', body a s = Ok s' /\ P s') ->
  forall s, P s -> exists s', for_each body l s = Ok s' /\ P s'.
Proof.
  induction l as [|a l IH]; intros Hbody s Hs; simpl.
  - exists s. auto.
  - destruct (Hbody a s) as (s1 & -> & Hs1); [left | exact Hs |]. simpl.
    apply IH; [|exact Hs1].
    intros b t Hb. apply Hbody. right. exact Hb.
Qed.

Lemma times_total {S : Type} (P : S -> Prop) (body : S -> result S) (n : nat) :
  (forall s, P s -> exists s', body s = Ok s' /\ P s') ->
  forall s, P s -> exists s', times n body s = Ok s' /\ P s'.
Proof.
  intros Hbody. induction n as [|n IH]; intros s Hs; simpl.
  - exists s. auto.
  - destruct (Hbody s Hs) as (s1 & -> & Hs1). simpl. apply IH, Hs1.
Qed.

(** The loop invariant may mention the elements already visited. *)
Lemma for_each_prefix_inv {A S : Type} (P : list A -> S -> Prop)
    (body : A -> S -> result S) (l : list A) :
  (forall done a s s',
      a ∈ l -> P done s -> body a s = Ok s' -> P (done ++ [a]) s') ->
  forall s s', P [] s -> for_each body l s = Ok s' -> P l s'.
Proof.
  intros Hbody.
  assert (Hgen : forall todo done s s',
             (forall a, a ∈ todo -> a ∈ l) ->
             P done s -> for_each body todo s = Ok s' -> P (done ++ todo) s').
  { induction todo as [|a todo IH]; intros done s s' Hsub Hs Hrun; simpl in Hrun.
    - injection Hrun as <-. rewrite app_nil_r. exact Hs.
    - bind_split Hrun. rewrite (cons_middle a done todo), app_assoc.
      apply IH with (s := a0); [|
        |exact Hrun].
      + intros b Hb. apply Hsub. right. exact Hb.
      + apply (Hbody done a s a0); [apply Hsub; left | exact Hs | exact Hrun0]. }
  intros s s' Hs Hrun. apply (Hgen l [] s s'); auto.
Qed.

Lemma u32_small (z : Z) : 0 <= z < 2 ^ 32 -> u32 z = z.
Proof. intros Hz. unfold u32. apply Z.mod_small, Hz. Qed.

Lemma cell_in_board (W H x y : Z) :
  fits W H -> in_board W H x y ->
  cell W x y = y * W + x /\ 0 <= y * W + x < W * H.
Proof.
  intros (HW & HH & Hfit) [Hx Hy].
  assert (Hr : 0 <= y * W + x < W * H) by nia.
  split; [|exact Hr]. unfold cell. apply u32_small. lia.
Qed.

Lemma cell_inj (W H x y x' y' : Z) :
  fits W H -> in_board W H x y -> in_board W H x' y' ->
  cell W x y = cell W x' y' -> x = x' /\ y = y'.
Proof.
  intros Hfit Hin Hin' Heq.
  destruct (cell_in_board W H x y Hfit Hin) as [Hc _].
  destruct (cell_in_board W H x' y' Hfit Hin') as [Hc' _].
  rewrite Hc, Hc' in Heq.
  destruct Hin as [Hx Hy], Hin' as [Hx' Hy'].
  assert (Hy_eq : y = y').
  { destruct (Z.lt_trichotomy y y') as [Hlt|[Heq'|Hgt]]; [|exact Heq'|].
    - assert (Hs : (y + 1) * W <= y' * W) by nia. lia.
    - assert (Hs : (y' + 1) * W <= y * W) by nia. lia. }
  subst y'. split; lia.
Qed.

Lemma inside_in_board (W H : Z) (p : glm.vec2) :
  inside W H p -> in_board W H (glm.x p) (glm.y p).
Proof. unfold inside, in_board. lia. Qed.

Lemma inside_not_border (W H : Z) (p : glm.vec2) :
  inside W H p -> ~ on_border W H (glm.x p) (glm.y p).
Proof. unfold inside, on_border. lia. Qed.

Lemma in_board_cases (W H x y : Z) :
  in_board W H x y -> on_border W H x y \/ inside W H (glm.mk x y).
Proof. unfold on_border, inside, in_board. cbn [glm.x glm.y]. lia. Qed.

Lemma elem_of_seqZ_1 (n i : Z) : i ∈ seqZ 1 (n - 2) <-> 1 <= i < n - 1.
Proof. rewrite elem_of_seqZ. lia. Qed.

Lemma elem_of_seqZ_0 (n i : Z) : i ∈ seqZ 0 n <-> 0 <= i < n.
Proof. rewrite elem_of_seqZ. lia. Qed.

(** * The generator, step by step *)

Section GeneratorFacts.
Variable W H : Z.
Variable player_pos : glm.vec2.
Hypothesis Hfits : fits W H.


Lemma cells_u32 : Z.to_nat (u32 (W * H)) = board_cells W H.
Proof.
  destruct Hfits as (HW & HH & Hlt). unfold board_cells.
  rewrite u32_small; [reflexivity | nia].
Qed.

Lemma cell_lt (bm : list (option Mesh)) (x y : Z) :
  length bm = board_cells W H -> in_board W H x y ->
  0 <= cell W x y < Z.of_nat (length bm).
Proof.
  intros Hlen Hin. destruct (cell_in_board W H x y Hfits Hin) as [-> Hr].
  rewrite Hlen. unfold board_cells. lia.
Qed.

(** Writing a wall anywhere keeps the border made of walls. *)
Lemma border_walls_insert_wall (bm : list (option Mesh)) (i : nat) :
  border_walls W H bm -> border_walls W H (<[i := Some wall_mesh]> bm).
Proof.
  intros Hb x y Hxy. specialize (Hb x y Hxy). unfold is_wall in *.
  destruct (decide (i = Z.to_nat (cell W x y))) as [->|Hne].
  - apply list_lookup_insert_eq. apply lookup_lt_is_Some. eauto.
  - rewrite list_lookup_insert_ne by exact Hne. exact Hb.
Qed.

(** Writing inside the border leaves the border as it is. *)
Lemma lookup_insert_inside {A : Type} (l : list A) (x y x' y' : Z) (a : A) :
  inside W H (glm.mk x y) -> on_border W H x' y' ->
  <[Z.to_nat (cell W x y) := a]> l !! Z.to_nat (cell W x' y')
  = l !! Z.to_nat (cell W x' y').
Proof.
  intros Hin Hxy. apply list_lookup_insert_ne. intros Heq.
  destruct (cell_in_board W H x y Hfits (inside_in_board _ _ _ Hin)) as [Hc Hr].
  destruct (cell_in_board W H x' y' Hfits (proj1 Hxy)) as [Hc' Hr'].
  assert (Hcell : cell W x y = cell W x' y') by (rewrite Hc, Hc' in *; lia).
  destruct (cell_inj W H x y x' y' Hfits (inside_in_board _ _ _ Hin) (proj1 Hxy) Hcell)
    as [-> ->].
  apply (inside_not_border W H _ Hin). exact Hxy.
Qed.

Lemma border_walls_insert_inside (bm : list (option Mesh)) (x y : Z) (m : option Mesh) :
  inside W H (glm.mk x y) ->
  border_walls W H bm -> border_walls W H (<[Z.to_nat (cell W x y) := m]> bm).
Proof.
  intros Hin Hb x' y' Hxy. unfold is_wall.
  rewrite lookup_insert_inside by assumption. apply Hb, Hxy.
Qed.

Lemma border_bare_insert_inside (gm : list (option Mesh)) (p : glm.vec2)
    (m : option Mesh) :
  inside W H p ->
  border_bare W H gm -> border_bare W H (<[Z.to_nat (cell_of W p) := m]> gm).
Proof.
  intros Hin Hb x' y' Hxy. destruct p as [x y]. unfold cell_of. simpl.
  rewrite lookup_insert_inside by assumption. apply Hb, Hxy.
Qed.

Lemma border_bare_replicate :
  border_bare W H (replicate (board_cells W H) None).
Proof.
  intros x y Hxy. apply lookup_replicate_2.
  destruct (cell_in_board W H x y Hfits (proj1 Hxy)) as [-> Hr].
  unfold board_cells. lia.
Qed.

Lemma floor_at_insert_floor (bm : list (option Mesh)) (i : nat) (x y : Z) :
  floor_at W bm x y -> floor_at W (<[i := Some floor_mesh]> bm) x y.
Proof.
  unfold floor_at. intros Hf.
  destruct (decide (i = Z.to_nat (cell W x y))) as [->|Hne].
  - apply list_lookup_insert_eq. apply lookup_lt_is_Some. eauto.
  - rewrite list_lookup_insert_ne by exact Hne. exact Hf.
Qed.

(** Lines 404-409 leave a board of [W*H] cells whose border is wall and
    whose interior is floor. *)
Lemma clear_board_spec (bm : list (option Mesh)) :
  clear_board W H = Ok bm ->
  length bm = board_cells W H /\ border_walls W H bm /\
  forall p, inside W H p -> floor_at W bm (glm.x p) (glm.y p).
Proof.
  unfold clear_board. rewrite cells_u32. intros Hrun.
  pose (P := fun (xs : list Z) (b : list (option Mesh)) =>
    length b = board_cells W H /\ border_walls W H b /\
    forall x y, x ∈ xs -> 1 <= y < H - 1 -> floor_at W b x y).
  assert (HP : P (seqZ 1 (W - 2)) bm).
  { revert Hrun. apply (for_each_prefix_inv P).
    - intros xs x b b' Hx (Hlen & Hbord & Hfl) Hcol.
      apply elem_of_seqZ_1 in Hx.
      pose (Q := fun (ys : list Z) (c : list (option Mesh)) =>
        length c = board_cells W H /\ border_walls W H c /\
        (forall x' y, x' ∈ xs -> 1 <= y < H - 1 -> floor_at W c x' y) /\
        forall y, y ∈ ys -> floor_at W c x y).
      assert (HQ : Q (seqZ 1 (H - 2)) b').
      { revert Hcol. apply (for_each_prefix_inv Q).
        - intros ys y c c' Hy (Hl & Hb & Hf1 & Hf2) Hset.
          apply elem_of_seqZ_1 in Hy.
          apply vec_set_Ok in Hset. destruct Hset as [Hi ->].
          split; [rewrite length_insert; exact Hl|].
          split; [apply border_walls_insert_inside;
                  [split; simpl; lia | exact Hb]|].
          split.
          + intros x' y' Hx' Hy'. apply floor_at_insert_floor, Hf1; assumption.
          + intros y' Hy'. apply elem_of_app in Hy'. destruct Hy' as [Hy'|Hy'].
            * apply floor_at_insert_floor, Hf2, Hy'.
            * apply list_elem_of_singleton in Hy'. subst y'. unfold floor_at.
              apply list_lookup_insert_eq. lia.
        - repeat split; try assumption. intros y Hy. inversion Hy. }
      destruct HQ as (Hl & Hb & Hf1 & Hf2).
      repeat split; try assumption.
      intros x' y Hx' Hy. apply elem_of_app in Hx'. destruct Hx' as [Hx'|Hx'].
      + apply Hf1; assumption.
      + apply list_elem_of_singleton in Hx'. subst x'.
        apply Hf2, elem_of_seqZ_1, Hy.
    - split; [apply length_replicate|]. split.
      + intros x y Hxy. unfold is_wall. apply lookup_replicate_2.
        destruct (cell_in_board W H x y Hfits (proj1 Hxy)) as [-> Hr].
        unfold board_cells. lia.
      + intros x y Hx. inversion Hx. }
  destruct HP as (Hl & Hb & Hf). repeat split; try assumption.
  intros p [Hx Hy]. apply Hf; [apply elem_of_seqZ_1, Hx | exact Hy].
Qed.

(** The base terrain is built without a fault. *)
Lemma clear_board_total : exists bm, clear_board W H = Ok bm.
Proof.
  unfold clear_board. rewrite cells_u32.
  pose (P := fun b : list (option Mesh) => length b = board_cells W H).
  destruct (for_each_total P
    (fun x bm => for_each (fun y bm => vec_set bm (cell W x y) (Some floor_mesh))
                          (seqZ 1 (H - 2)) bm)
    (seqZ 1 (W - 2))) with (s := replicate (board_cells W H) (Some wall_mesh))
    as (bm & Hbm & _).
  - intros x b Hx Hb. apply elem_of_seqZ_1 in Hx.
    apply (for_each_total P); [|exact Hb].
    intros y c Hy Hc. apply elem_of_seqZ_1 in Hy.
    rewrite vec_set_in_range.
    + eexists. split; [reflexivity|]. unfold P. rewrite length_insert. exact Hc.
    + apply cell_lt; [exact Hc | unfold in_board; lia].
  - apply length_replicate.
  - exists bm. exact Hbm.
Qed.

(** ** Random positions, walls and goop *)

Lemma random_board_position_inside (g : mt19937) :
  3 <= W -> 3 <= H ->
  exists pos g', random_board_position W H g = Ok (pos, g') /\ inside W H pos.
Proof.
  intros HW HH. destruct Hfits as (_ & _ & Hlt).
  assert (HW32 : W < 2 ^ 32) by nia.
  assert (HH32 : H < 2 ^ 32) by nia.
  unfold random_board_position, mt, umod. simpl.
  rewrite !u32_small with (z := W - 2) by lia.
  rewrite !u32_small with (z := H - 2) by lia.
  destruct (Z.eqb_spec (W - 2) 0) as [?|_]; [lia|].
  destruct (Z.eqb_spec (H - 2) 0) as [?|_]; [lia|]. simpl.
  eexists _, _. split; [reflexivity|].
  set (a := u32 (outputs g (drawn g)) mod (W - 2)).
  set (b := u32 (outputs g (S (drawn g))) mod (H - 2)).
  assert (Ha : 0 <= a < W - 2) by (apply Z.mod_pos_bound; lia).
  assert (Hb : 0 <= b < H - 2) by (apply Z.mod_pos_bound; lia).
  unfold inside. simpl. rewrite !u32_small by lia. lia.
Qed.

(** Lines 419-427 only ever write [&wall_mesh]. *)
Lemma place_walls_border (bm bm' : list (option Mesh)) (g g' : mt19937) :
  place_walls W H player_pos bm g = Ok (bm', g') ->
  length bm' = length bm /\ (border_walls W H bm -> border_walls W H bm').
Proof.
  unfold place_walls, mt. simpl.
  set (n := Z.to_nat _). clearbody n. intros Hrun.
  pose (P := fun s : list (option Mesh) * mt19937 =>
    length s.1 = length bm /\ (border_walls W H bm -> border_walls W H s.1)).
  change (P (bm', g')). revert Hrun. apply (times_inv P).
  - intros [b h] [b' h'] [Hl Hb] Hstep. unfold place_wall in Hstep.
    bind_split Hstep. destruct a as [pos h1].
    destruct (decide (pos = player_pos)).
    + injection Hstep as <- <-. split; assumption.
    + bind_split Hstep. injection Hstep as <- <-.
      apply vec_set_Ok in Hstep1. destruct Hstep1 as [_ ->]. split; simpl.
      * rewrite length_insert. exact Hl.
      * intros Hbm. apply border_walls_insert_wall, Hb, Hbm.
  - split; [reflexivity | auto].
Qed.

(** They skip the player's cell. *)
Lemma place_walls_player (bm bm' : list (option Mesh)) (g g' : mt19937) :
  inside W H player_pos -> length bm = board_cells W H ->
  place_walls W H player_pos bm g = Ok (bm', g') ->
  floor_at W bm (glm.x player_pos) (glm.y player_pos) ->
  floor_at W bm' (glm.x player_pos) (glm.y player_pos).
Proof.
  intros Hin Hlen. unfold place_walls, mt. simpl.
  set (n := Z.to_nat _). clearbody n. intros Hrun Hfl.
  pose (P := fun s : list (option Mesh) * mt19937 =>
    floor_at W s.1 (glm.x player_pos) (glm.y player_pos)).
  change (P (bm', g')). revert Hrun. apply (times_inv P); [|exact Hfl].
  intros [b h] [b' h'] Hb Hstep. unfold P in *. simpl in *.
  unfold place_wall in Hstep.
  destruct (random_board_position_inside h) as (pos & h1 & Hpos & Hpin);
    [unfold inside in Hin; lia | unfold inside in Hin; lia|].
  rewrite Hpos in Hstep. simpl in Hstep.
  destruct (decide (pos = player_pos)) as [Heq|Hne].
  - injection Hstep as <- <-. exact Hb.
  - bind_split Hstep. injection Hstep as <- <-.
    apply vec_set_Ok in Hstep0. destruct Hstep0 as [_ ->].
    unfold floor_at. rewrite list_lookup_insert_ne; [exact Hb|].
    intros Heq. apply Hne.
    assert (Hc : cell_of W pos = cell W (glm.x player_pos) (glm.y player_pos)).
    { destruct (cell_in_board W H _ _ Hfits (inside_in_board _ _ _ Hpin)) as [Hc Hr].
      destruct (cell_in_board W H _ _ Hfits (inside_in_board _ _ _ Hin)) as [Hc' Hr'].
      unfold cell_of in *. rewrite Hc, Hc' in *. lia. }
    destruct (cell_inj W H _ _ _ _ Hfits (inside_in_board _ _ _ Hpin)
                (inside_in_board _ _ _ Hin) Hc) as [Hx Hy].
    destruct pos, player_pos. simpl in *. congruence.
Qed.

Lemma place_walls_total (bm : list (option Mesh)) (g : mt19937) :
  3 <= W -> 3 <= H -> length bm = board_cells W H ->
  exists bm' g', place_walls W H player_pos bm g = Ok (bm', g').
Proof.
  intros HW HH Hlen. unfold place_walls, mt. simpl.
  set (n := Z.to_nat _). clearbody n.
  pose (P := fun s : list (option Mesh) * mt19937 => length s.1 = board_cells W H).
  destruct (times_total P (place_wall W H player_pos) n) with (s := (bm, mkMt (outputs g) (S (drawn g))))
    as ([bm' g'] & Hrun & _).
  - intros [b h] Hb. unfold P in Hb. simpl in Hb. unfold place_wall.
    destruct (random_board_position_inside h HW HH) as (pos & h1 & -> & Hpin).
    simpl. destruct (decide (pos = player_pos)).
    + eexists. split; [reflexivity | exact Hb].
    + rewrite vec_set_in_range
        by (apply cell_lt; [exact Hb | apply inside_in_board, Hpin]).
      simpl. eexists. split; [reflexivity|]. unfold P. simpl.
      rewrite length_insert. exact Hb.
  - exact Hlen.
  - eauto.
Qed.

Lemma place_goops_spec (bm gm gm' : list (option Mesh)) (g g' : mt19937) :
  place_goops W H bm gm g = Ok (gm', g') ->
  length gm' = length gm /\ (only_goop gm -> only_goop gm').
Proof.
  unfold place_goops, mt. simpl.
  set (n := Z.to_nat _). clearbody n. intros Hrun.
  pose (P := fun s : list (option Mesh) * mt19937 =>
    length s.1 = length gm /\ (only_goop gm -> only_goop s.1)).
  change (P (gm', g')). revert Hrun. apply (times_inv P).
  - intros [b h] [b' h'] [Hl Hb] Hstep. unfold place_goop in Hstep.
    bind_split Hstep. destruct a as [pos h1]. bind_split Hstep.
    destruct (decide (a ≠ Some wall_mesh)).
    + bind_split Hstep. injection Hstep as <- <-.
      apply vec_set_Ok in Hstep2. destruct Hstep2 as [_ ->]. split; simpl.
      * rewrite length_insert. exact Hl.
      * intros Hgm i o Hio. simpl in *.
        destruct (decide (Z.to_nat (cell_of W pos) = i)) as [<-|Hne].
        -- apply list_lookup_insert_Some in Hio.
           destruct Hio as [(_ & <- & _)|[Hne _]]; [right; reflexivity|congruence].
        -- rewrite list_lookup_insert_ne in Hio by exact Hne.
           apply (Hb Hgm i o Hio).
    + injection Hstep as <- <-. split; assumption.
  - split; [reflexivity | auto].
Qed.

Lemma place_goops_total (bm gm : list (option Mesh)) (g : mt19937) :
  3 <= W -> 3 <= H -> length bm = board_cells W H -> length gm = board_cells W H ->
  exists gm' g', place_goops W H bm gm g = Ok (gm', g').
Proof.
  intros HW HH Hlb Hlg. unfold place_goops, mt. simpl.
  set (n := Z.to_nat _). clearbody n.
  pose (P := fun s : list (option Mesh) * mt19937 => length s.1 = board_cells W H).
  destruct (times_total P (place_goop W H bm) n) with (s := (gm, mkMt (outputs g) (S (drawn g))))
    as ([gm' g'] & Hrun & _).
  - intros [b h] Hb. unfold P in Hb. simpl in Hb. unfold place_goop.
    destruct (random_board_position_inside h HW HH) as (pos & h1 & -> & Hpin).
    simpl.
    destruct (vec_get_in_range bm (cell_of W pos)) as [m ->];
      [apply cell_lt; [exact Hlb | apply inside_in_board, Hpin]|].
    simpl. destruct (decide (m ≠ Some wall_mesh)).
    + rewrite vec_set_in_range
        by (apply cell_lt; [exact Hb | apply inside_in_board, Hpin]).
      simpl. eexists. split; [reflexivity|]. unfold P. simpl.
      rewrite length_insert. exact Hb.
    + eexists. split; [reflexivity | exact Hb].
  - exact Hlg.
  - eauto.
Qed.

(** Goop is dropped inside the border only. *)
Lemma place_goops_bare (bm gm gm' : list (option Mesh)) (g g' : mt19937) :
  3 <= W -> 3 <= H ->
  place_goops W H bm gm g = Ok (gm', g') ->
  border_bare W H gm -> border_bare W H gm'.
Proof.
  intros HW HH. unfold place_goops, mt. simpl.
  set (n := Z.to_nat _). clearbody n. intros Hrun Hbare.
  pose (P := fun s : list (option Mesh) * mt19937 => border_bare W H s.1).
  change (P (gm', g')). revert Hrun. apply (times_inv P); [|exact Hbare].
  intros [b h] [b' h'] Hb Hstep. unfold P in *. simpl in *.
  unfold place_goop in Hstep.
  destruct (random_board_position_inside h HW HH) as (pos & h1 & Hpos & Hpin).
  rewrite Hpos, bind_Ok_l in Hstep.
  bind_inv Hstep as m Hm.
  destruct (decide (m ≠ Some wall_mesh)).
  - bind_inv Hstep as gm1 Hset. injection Hstep as <- <-.
    apply vec_set_Ok in Hset. destruct Hset as [_ ->].
    apply border_bare_insert_inside; assumption.
  - injection Hstep as <- <-. exact Hb.
Qed.

(** ** The slide rule *)

Lemma ahead_0 (p d : glm.vec2) : ahead p d 0 = p.
Proof. destruct p as [px py]. unfold ahead. simpl. f_equal; lia. Qed.

Lemma ahead_1 (p d : glm.vec2) : ahead p d 1 = glm.add p d.
Proof. unfold ahead, glm.add. f_equal; lia. Qed.

Lemma ahead_add (p d : glm.vec2) (i : Z) :
  ahead (glm.add p d) d i = ahead p d (i + 1).
Proof. unfold ahead, glm.add. simpl. f_equal; lia. Qed.

Lemma step_geometry (p d : glm.vec2) :
  is_direction d -> inside W H p ->
  in_board W H (glm.x (glm.add p d)) (glm.y (glm.add p d)) /\
  room W H (glm.add p d) d = room W H p d - 1 /\
  1 <= room W H p d /\
  (inside W H (glm.add p d) -> 1 <= room W H (glm.add p d) d).
Proof.
  intros Hd [Hx Hy]. unfold in_board, inside, room, glm.add.
  destruct Hd as [-> | [-> | [-> | ->]]]; simpl; lia.
Qed.

Lemma exact_cell_in_board (p : glm.vec2) :
  in_board W H (glm.x p) (glm.y p) ->
  exact_cell W p = cell_of W p /\ 0 <= exact_cell W p < W * H.
Proof.
  intros Hin. destruct (cell_in_board W H _ _ Hfits Hin) as [Hc Hr].
  unfold exact_cell, cell_of. rewrite Hc. auto.
Qed.

Section Slide.
Variable bm gm : list (option Mesh).
Hypothesis Hlen_bm : length bm = board_cells W H.
Hypothesis Hlen_gm : length gm = board_cells W H.
Hypothesis Hborder : border_walls W H bm.

Lemma not_wall_inside (q : glm.vec2) (m : option Mesh) :
  in_board W H (glm.x q) (glm.y q) ->
  bm !! Z.to_nat (cell_of W q) = Some m -> m <> Some wall_mesh ->
  inside W H q.
Proof.
  intros Hin Hm Hne.
  destruct (in_board_cases W H _ _ Hin) as [Hb|Hi].
  - apply Hborder in Hb. unfold is_wall in Hb. unfold cell_of in Hm. congruence.
  - destruct q. exact Hi.
Qed.

(** The slide returns the cell [k] steps ahead: the cells it entered
    are not walls, the cells it passed are not goop, and it stopped in
    front of a wall or on goop. *)
Lemma slide_spec (n : nat) (p d : glm.vec2) :
  is_direction d -> inside W H p -> room W H p d <= Z.of_nat n ->
  exists k, 0 <= k /\
    slide W n bm gm p d = Ok (ahead p d k) /\
    inside W H (ahead p d k) /\
    (forall i, 1 <= i <= k -> ~ wall_at W bm (ahead p d i)) /\
    (forall i, 1 <= i < k -> ~ goop_at W gm (ahead p d i)) /\
    (wall_at W bm (ahead p d (k + 1)) \/ (1 <= k /\ goop_at W gm (ahead p d k))).
Proof.
  intros Hd. revert p. induction n as [|n IH]; intros p Hin Hroom.
  { destruct (step_geometry p d Hd Hin) as (_ & _ & Hr & _). lia. }
  destruct (step_geometry p d Hd Hin) as (Hq & Hrq & Hr & Hrq').
  destruct (exact_cell_in_board _ Hq) as [Hfc Hrange].
  simpl. rewrite Hfc.
  destruct (vec_get_in_range bm (cell_of W (glm.add p d))) as [m Hm].
  { rewrite <- Hfc, Hlen_bm. unfold board_cells. lia. }
  rewrite Hm. simpl. apply vec_get_Ok in Hm. destruct Hm as [_ Hm].
  destruct (decide (m ≠ Some wall_mesh)) as [Hne|Heq].
  - pose proof (not_wall_inside _ _ Hq Hm Hne) as Hqin.
    destruct (vec_get_in_range gm (cell_of W (glm.add p d))) as [o Ho].
    { rewrite <- Hfc, Hlen_gm. unfold board_cells. lia. }
    rewrite Ho. simpl. apply vec_get_Ok in Ho. destruct Ho as [_ Ho].
    assert (Hnw : ~ wall_at W bm (glm.add p d)).
    { unfold wall_at, is_wall. unfold cell_of in Hm. congruence. }
    destruct (decide (o = Some goop_mesh)) as [->|Hng].
    + exists 1. rewrite ahead_1. split; [lia|]. split; [reflexivity|].
      split; [exact Hqin|]. split.
      { intros i Hi. replace i with 1 by lia. rewrite ahead_1. exact Hnw. }
      split; [intros i Hi; lia|].
      right. split; [lia|]. exact Ho.
    + destruct (IH (glm.add p d) Hqin) as (k & Hk & Hrun & Hkin & Hw & Hg & Hstop);
        [lia|].
      exists (k + 1).
      rewrite <- (ahead_add p d k), <- (ahead_add p d (k + 1)). split; [lia|].
      split; [exact Hrun|]. split; [exact Hkin|]. split.
      { intros i Hi. destruct (decide (i = 1)) as [->|Hi1].
        - rewrite ahead_1. exact Hnw.
        - replace i with ((i - 1) + 1) by lia. rewrite <- ahead_add.
          apply Hw. lia. }
      split.
      { intros i Hi. destruct (decide (i = 1)) as [->|Hi1].
        - rewrite ahead_1. unfold goop_at, is_goop. unfold cell_of in Ho.
          congruence.
        - replace i with ((i - 1) + 1) by lia. rewrite <- ahead_add.
          apply Hg. lia. }
      destruct Hstop as [Hs|[Hk1 Hs]]; [left; exact Hs | right].
      split; [lia | exact Hs].
  - exists 0. rewrite ahead_0. split; [lia|]. split; [reflexivity|].
    split; [exact Hin|]. split; [intros i Hi; lia|].
    split; [intros i Hi; lia|].
    left. simpl. rewrite ahead_1. unfold wall_at, is_wall.
    apply dec_stable in Heq. unfold cell_of in Hm. congruence.
Qed.

Lemma room_le_cells (p d : glm.vec2) :
  is_direction d -> inside W H p -> room W H p d <= Z.of_nat (S (length bm)).
Proof.
  clear Hlen_gm Hborder.
  intros Hd [Hx Hy]. rewrite Hlen_bm. unfold board_cells, room.
  destruct Hfits as (HW & HH & _).
  assert (W <= W * H /\ H <= W * H) by nia.
  destruct Hd as [-> | [-> | [-> | ->]]]; simpl; lia.
Qed.

(** On such a board the player's slide is the slide rule. *)
Lemma slide_player_slide (n : nat) (p d : glm.vec2) :
  is_direction d -> inside W H p ->
  slide_player n W bm gm p (glm.x d) (glm.y d) = slide W n bm gm p d.
Proof.
  intros Hd. revert p. induction n as [|n IH]; intros p Hin; [reflexivity|].
  destruct (step_geometry p d Hd Hin) as (Hq & _).
  destruct (exact_cell_in_board _ Hq) as [Hfc Hrange].
  assert (Hp' : glm.mk (u32 (glm.x p + glm.x d)) (u32 (glm.y p + glm.y d))
                = glm.add p d).
  { destruct Hq as [Hqx Hqy]. destruct Hfits as (HW & HH & Hlt).
    simpl in Hqx, Hqy. unfold glm.add.
    rewrite !u32_small by nia. reflexivity. }
  simpl. rewrite Hp', Hfc.
  destruct (vec_get bm (cell_of W (glm.add p d))) as [m| |] eqn:Hm;
    simpl; try reflexivity.
  apply vec_get_Ok in Hm. destruct Hm as [_ Hm].
  destruct (decide (m ≠ Some wall_mesh)) as [Hne|Heq]; [|reflexivity].
  destruct (vec_get gm (cell_of W (glm.add p d))) as [o| |]; simpl;
    try reflexivity.
  destruct (decide (o = Some goop_mesh)); [reflexivity|].
  apply IH. apply (not_wall_inside _ _ Hq Hm Hne).
Qed.
End Slide.

(** ** Where [float] is exact *)

(** Beyond [2^24] the index of a cell can be that of its neighbour, and a
    step can lead nowhere. *)
Example fcell_rounds_to_neighbour :
  fcell 4099 (glm.mk 4097 4094) = exact_cell 4099 (glm.mk 4098 4094).
Proof. reflexivity. Qed.

Example fadd_rounds_back :
  glm.fadd (glm.mk (2 ^ 24) 1) (glm.mk 1 0) = glm.mk (2 ^ 24) 1.
Proof. reflexivity. Qed.

(** Where [at += d] rounds back to [at], and the cell that the index of
    [at] points to is neither wall nor goop, the loop of line 453 has not
    ended after any number of rounds. *)
Lemma walk_slide_stuck (n : nat) (bm gm : list (option Mesh)) (p d : glm.vec2)
    (m o : option Mesh) :
  glm.fadd p d = p ->
  vec_get bm (fcell W p) = Ok m -> m <> Some wall_mesh ->
  vec_get gm (fcell W p) = Ok o -> o <> Some goop_mesh ->
  walk_slide W n bm gm p d = OutOfFuel.
Proof.
  intros Hback Hm Hnw Ho Hng. induction n as [|n IH]; [reflexivity|].
  cbn [walk_slide]. rewrite Hback, Hm, bind_Ok_l.
  destruct (decide (m ≠ Some wall_mesh)); [|contradiction].
  rewrite Ho, bind_Ok_l.
  destruct (decide (o = Some goop_mesh)); [contradiction | exact IH].
Qed.

Lemma f32_small (z : Z) : Z.abs z <= 2 ^ 24 -> f32 z = z.
Proof.
  intros Hz. unfold f32.
  destruct (Z.ltb_spec (Z.abs z) (2 ^ 24)) as [_|Hge]; [reflexivity|].
  assert (Hcases : z = 2 ^ 24 \/ z = - 2 ^ 24) by lia.
  destruct Hcases as [-> | ->]; reflexivity.
Qed.

Section FloatExact.
Hypothesis Hsmall : W * H <= 2 ^ 24.

Lemma to_vec2_in_board (p : glm.vec2) :
  in_board W H (glm.x p) (glm.y p) -> glm.to_vec2 p = p.
Proof.
  intros [Hx Hy]. destruct p as [px py]. simpl in Hx, Hy.
  unfold glm.to_vec2. simpl. rewrite !f32_small by nia. reflexivity.
Qed.

Lemma fadd_inside (p d : glm.vec2) :
  is_direction d -> inside W H p -> glm.fadd p d = glm.add p d.
Proof.
  intros Hd [Hx Hy]. unfold glm.fadd, glm.add.
  rewrite !f32_small; [reflexivity| |];
    destruct Hd as [-> | [-> | [-> | ->]]]; simpl; nia.
Qed.

Lemma fcell_in_board (p : glm.vec2) :
  in_board W H (glm.x p) (glm.y p) -> fcell W p = exact_cell W p.
Proof.
  intros [Hx Hy]. unfold fcell, exact_cell.
  rewrite (f32_small W) by nia.
  rewrite (f32_small (glm.y p * W)) by nia.
  apply f32_small. nia.
Qed.

(** On such a board the slide of a walk is the slide rule. *)
Lemma walk_slide_slide (bm gm : list (option Mesh)) (n : nat) (p d : glm.vec2) :
  length bm = board_cells W H -> border_walls W H bm ->
  is_direction d -> inside W H p ->
  walk_slide W n bm gm p d = slide W n bm gm p d.
Proof.
  intros Hlen_bm Hborder Hd. revert p.
  induction n as [|n IH]; intros p Hin; [reflexivity|].
  destruct (step_geometry p d Hd Hin) as (Hq & _).
  destruct (exact_cell_in_board _ Hq) as [Hfc Hrange].
  simpl. rewrite (fadd_inside p d Hd Hin), (fcell_in_board _ Hq), Hfc.
  destruct (vec_get bm (cell_of W (glm.add p d))) as [m| |] eqn:Hm;
    simpl; try reflexivity.
  apply vec_get_Ok in Hm. destruct Hm as [_ Hm].
  destruct (decide (m ≠ Some wall_mesh)) as [Hne|Heq]; [|reflexivity].
  destruct (vec_get gm (cell_of W (glm.add p d))) as [o| |]; simpl;
    try reflexivity.
  destruct (decide (o = Some goop_mesh)); [reflexivity|].
  apply IH. apply (not_wall_inside bm Hborder _ _ Hq Hm Hne).
Qed.
End FloatExact.

(** ** The random walks *)

Lemma directions_get (i : Z) :
  0 <= i < 4 -> exists d, vec_get directions i = Ok d /\ is_direction d.
Proof.
  intros Hi.
  assert (Hcases : i = 0 \/ i = 1 \/ i = 2 \/ i = 3) by lia.
  unfold is_direction.
  destruct Hcases as [-> | [-> | [-> | ->]]]; eexists; (split; [reflexivity|]); auto.
Qed.

Section Walks.
Variable bm gm : list (option Mesh).
Hypothesis Hlen_bm : length bm = board_cells W H.
Hypothesis Hlen_gm : length gm = board_cells W H.
Hypothesis Hborder : border_walls W H bm.
Hypothesis Hsmall : W * H <= 2 ^ 24.

Lemma walk_step_total (s : glm.vec2 * list Z * mt19937) :
  walk_inv W H s -> exists s', walk_step W bm gm s = Ok s' /\ walk_inv W H s'.
Proof.
  destruct s as [[p counts] g]. intros (Hin & Hlen & Hci).
  simpl in Hin, Hlen, Hci.
  unfold walk_step, mt. cbv beta match zeta.
  destruct (directions_get (u32 (outputs g (drawn g)) mod 4)) as (d & -> & Hd).
  { apply Z.mod_pos_bound. lia. }
  rewrite bind_Ok_l.
  rewrite (walk_slide_slide Hsmall bm gm _ p d Hlen_bm Hborder Hd Hin).
  destruct (slide_spec bm gm Hlen_bm Hlen_gm Hborder (S (length bm)) p d Hd Hin)
    as (k & _ & -> & Hkin & _).
  { apply room_le_cells; assumption. }
  rewrite bind_Ok_l.
  rewrite (fcell_in_board Hsmall _ (inside_in_board _ _ _ Hkin)).
  destruct (exact_cell_in_board _ (inside_in_board _ _ _ Hkin)) as [Hfc Hr].
  destruct (vec_get_in_range counts (exact_cell W (ahead p d k))) as [c ->].
  { rewrite Hlen. unfold board_cells. lia. }
  rewrite bind_Ok_l, vec_set_in_range by (rewrite Hlen; unfold board_cells; lia).
  rewrite bind_Ok_l. eexists. split; [reflexivity|].
  split; [exact Hkin|]. split; simpl.
  - rewrite length_insert. exact Hlen.
  - intros i c' Hi Hc'.
    destruct (decide (Z.to_nat (exact_cell W (ahead p d k)) = i)) as [<-|Hne].
    + exists (ahead p d k). rewrite Hfc. auto.
    + rewrite list_lookup_insert_ne in Hi by exact Hne. apply (Hci i c' Hi Hc').
Qed.

(** On a board of at most [2^24] cells lines 444-459 return, and count
    only cells inside the border. *)
Lemma random_walks_total (prev_goal : glm.vec2) (g : mt19937) :
  inside W H prev_goal ->
  exists board_counts g',
    random_walks W H bm gm prev_goal g = Ok (board_counts, g') /\
    length board_counts = board_cells W H /\ counts_inside W H board_counts.
Proof.
  intros Hin. unfold random_walks. rewrite cells_u32.
  rewrite (to_vec2_in_board Hsmall _ (inside_in_board _ _ _ Hin)).
  pose (P := fun s : list Z * mt19937 =>
    length s.1 = board_cells W H /\ counts_inside W H s.1).
  destruct (times_total P
    (fun '(board_counts, g) =>
       '(_, board_counts, g) ← times 20 (walk_step W bm gm)
                                 (prev_goal, board_counts, g);
       Ok (board_counts, g)) 100) with (s := (replicate (board_cells W H) 0, g))
    as ([counts g'] & Hrun & Hl & Hc).
  - intros [counts h] [Hl Hc]. simpl in Hl, Hc.
    destruct (times_total (walk_inv W H) (walk_step W bm gm) 20 walk_step_total
                (prev_goal, counts, h)) as ([[p' counts'] h'] & -> & _ & Hl' & Hc').
    { split; [exact Hin | split; assumption]. }
    simpl. eexists. split; [reflexivity|]. split; assumption.
  - split; simpl; [apply length_replicate|].
    intros i c Hi Hc. apply lookup_replicate in Hi. destruct Hi as [-> _].
    contradiction.
  - exists counts, g'. auto.
Qed.
End Walks.

(** ** The candidate W player_pos cells *)

Lemma possible_cell_spec (gm : list (option Mesh)) (board_counts : list Z)
    (y x : Z) (cs cs' : list glm.vec2) :
  possible_cell W player_pos gm board_counts y x cs = Ok cs' ->
  (cs' = cs /\ ~ candidate W player_pos gm board_counts (glm.mk x y)) \/
  (cs' = cs ++ [glm.mk x y] /\ candidate W player_pos gm board_counts (glm.mk x y)).
Proof.
  unfold possible_cell, candidate, cell_of. simpl. intros Hrun.
  destruct ((x =? glm.x player_pos) && (y =? glm.y player_pos)) eqn:Hpl.
  - injection Hrun as <-. left. split; [reflexivity|].
    apply andb_true_iff in Hpl. destruct Hpl as [Hx Hy].
    apply Z.eqb_eq in Hx, Hy. subst x y. intros [Hne _]. apply Hne.
    destruct player_pos. reflexivity.
  - assert (Hne : glm.mk x y <> player_pos).
    { intros <-. simpl in Hpl. rewrite !Z.eqb_refl in Hpl. discriminate. }
    bind_split Hrun. apply vec_get_Ok in Hrun0. destruct Hrun0 as [_ Hgm].
    destruct (decide (a ≠ None)) as [Ho|Ho].
    + injection Hrun as <-. left. split; [reflexivity|].
      intros (_ & Hgm' & _). congruence.
    + apply dec_stable in Ho. subst a.
      bind_split Hrun. apply vec_get_Ok in Hrun0. destruct Hrun0 as [_ Hc].
      destruct (Z.ltb_spec 0 a) as [Hpos|Hpos]; injection Hrun as <-.
      * right. split; [reflexivity|]. eauto 6.
      * left. split; [reflexivity|].
        intros (_ & _ & n & Hn & Hn'). rewrite Hc in Hn. injection Hn as <-. lia.
Qed.

(** Lines 461-470 collect exactly the candidates among the cells of the
    board. *)
Lemma scan_possible_cells_spec (gm : list (option Mesh)) (board_counts : list Z)
    (cs : list glm.vec2) :
  scan_possible_cells W H player_pos gm board_counts = Ok cs ->
  forall c, c ∈ cs <->
    in_board W H (glm.x c) (glm.y c) /\ candidate W player_pos gm board_counts c.
Proof.
  unfold scan_possible_cells. intros Hrun.
  pose (P := fun (ys : list Z) (l : list glm.vec2) =>
    forall c, c ∈ l <->
      glm.y c ∈ ys /\ 0 <= glm.x c < W /\ candidate W player_pos gm board_counts c).
  assert (HP : P (seqZ 0 H) cs).
  { revert Hrun. apply (for_each_prefix_inv P).
    - intros ys y l l' _ Hl Hrow.
      pose (Q := fun (xs : list Z) (l1 : list glm.vec2) =>
        forall c, c ∈ l1 <->
          (glm.y c ∈ ys /\ 0 <= glm.x c < W /\ candidate W player_pos gm board_counts c) \/
          (glm.y c = y /\ glm.x c ∈ xs /\ candidate W player_pos gm board_counts c)).
      assert (HQ : Q (seqZ 0 W) l').
      { revert Hrow. apply (for_each_prefix_inv Q).
        - intros xs x l1 l2 _ Hl1 Hcell c.
          apply possible_cell_spec in Hcell.
          rewrite elem_of_app, list_elem_of_singleton.
          destruct Hcell as [[-> Hnc]|[-> Hc]].
          + rewrite (Hl1 c). split.
            * intros [?|(? & ? & ?)]; [left|right]; auto.
            * intros [?|(Hy & [Hx|Hx] & Hcand)]; [left|right|]; auto.
              exfalso. apply Hnc. destruct c. simpl in *. subst. exact Hcand.
          + rewrite elem_of_app, list_elem_of_singleton, (Hl1 c). split.
            * intros [[?|(? & ? & ?)]| ->]; [left|right|right]; auto.
            * intros [?|(Hy & [Hx|Hx] & Hcand)]; [left; left|left; right|right]; auto.
              destruct c. simpl in *. subst. reflexivity.
        - intros c. rewrite (Hl c). split; [auto|].
          intros [?|(_ & Hx & _)]; [assumption|inversion Hx]. }
      intros c. rewrite (HQ c), elem_of_app, list_elem_of_singleton,
        elem_of_seqZ_0. split.
      + intros [(? & ? & ?)|(? & ? & ?)]; auto.
      + intros ([?|?] & ? & ?); [left|right]; auto.
    - intros c. split; [intros Hc; inversion Hc | intros (Hy & _); inversion Hy]. }
  intros c. rewrite (HP c), elem_of_seqZ_0. unfold in_board. tauto.
Qed.

(** No more candidates than cells. *)
Lemma scan_possible_cells_length (gm : list (option Mesh))
    (board_counts : list Z) (cs : list glm.vec2) :
  scan_possible_cells W H player_pos gm board_counts = Ok cs ->
  Z.of_nat (length cs) <= W * H.
Proof.
  destruct Hfits as (HW & HH & _).
  unfold scan_possible_cells. intros Hrun.
  pose (P := fun (ys : list Z) (l : list glm.vec2) =>
    Z.of_nat (length l) <= Z.of_nat (length ys) * W).
  assert (HP : P (seqZ 0 H) cs).
  { revert Hrun. apply (for_each_prefix_inv P).
    - intros ys y l l' _ Hl Hrow.
      pose (Q := fun (xs : list Z) (l1 : list glm.vec2) =>
        Z.of_nat (length l1) <= Z.of_nat (length ys) * W + Z.of_nat (length xs)).
      assert (HQ : Q (seqZ 0 W) l').
      { revert Hrow. apply (for_each_prefix_inv Q).
        - intros xs x l1 l2 _ Hl1 Hcell. unfold Q in *.
          apply possible_cell_spec in Hcell.
          rewrite length_app. simpl.
          destruct Hcell as [[-> _]|[-> _]]; [|rewrite length_app; simpl]; lia.
        - unfold Q, P in *. simpl. lia. }
      unfold Q, P in *. rewrite length_seqZ in HQ.
      rewrite length_app. simpl. lia.
    - unfold P. simpl. lia. }
  unfold P in HP. rewrite length_seqZ in HP. lia.
Qed.

Lemma scan_possible_cells_total (gm : list (option Mesh)) (board_counts : list Z) :
  length gm = board_cells W H -> length board_counts = board_cells W H ->
  exists cs, scan_possible_cells W H player_pos gm board_counts = Ok cs.
Proof.
  intros Hlg Hlc. unfold scan_possible_cells.
  destruct (for_each_total (fun _ : list glm.vec2 => True)
    (fun y l => for_each (possible_cell W player_pos gm board_counts y) (seqZ 0 W) l)
    (seqZ 0 H)) with (s := @nil glm.vec2) as (cs & Hcs & _); [|exact I|eauto].
  intros y l Hy _. apply elem_of_seqZ_0 in Hy.
  apply (for_each_total (fun _ => True)); [|exact I].
  intros x l1 Hx _. apply elem_of_seqZ_0 in Hx.
  assert (Hin : in_board W H x y) by (unfold in_board; lia).
  unfold possible_cell.
  destruct ((x =? glm.x player_pos) && (y =? glm.y player_pos)); [eauto|].
  destruct (vec_get_in_range gm (cell W x y)) as [o ->];
    [apply cell_lt; assumption|].
  rewrite bind_Ok_l. destruct (decide (o ≠ None)); [eauto|].
  destruct (vec_get_in_range board_counts (cell W x y)) as [c ->].
  { destruct (cell_in_board W H x y Hfits Hin) as [-> Hr].
    rewrite Hlc. unfold board_cells. lia. }
  rewrite bind_Ok_l. destruct (0 <? c); eauto.
Qed.

(** A cell of the board that was counted lies inside the border. *)
Lemma counted_inside (board_counts : list Z) (c : glm.vec2) (n : Z) :
  counts_inside W H board_counts ->
  in_board W H (glm.x c) (glm.y c) ->
  board_counts !! Z.to_nat (cell_of W c) = Some n -> 0 < n ->
  inside W H c.
Proof.
  intros Hci Hin Hn Hpos.
  destruct (Hci _ _ Hn) as (q & Hq & Hqcell); [lia|].
  destruct (cell_in_board W H _ _ Hfits Hin) as [_ Hr].
  destruct (cell_in_board W H _ _ Hfits (inside_in_board _ _ _ Hq)) as [_ Hr'].
  assert (Hcq : cell W (glm.x q) (glm.y q) = cell W (glm.x c) (glm.y c)).
  { destruct (cell_in_board W H _ _ Hfits Hin) as [Hc _].
    destruct (cell_in_board W H _ _ Hfits (inside_in_board _ _ _ Hq)) as [Hc' _].
    unfold cell_of in Hqcell. rewrite Hc, Hc' in *. lia. }
  destruct (cell_inj W H _ _ _ _ Hfits (inside_in_board _ _ _ Hq) Hin Hcq) as [Hx Hy].
  destruct q, c. simpl in *. subst. exact Hq.
Qed.

(** ** Sorting the candidates and cutting the list *)

Lemma insert_by_perm (key : glm.vec2 -> Z) (a : glm.vec2) (l : list glm.vec2) :
  insert_by key a l ≡ₚ a :: l.
Proof.
  induction l as [|b l IH]; simpl; [reflexivity|].
  destruct (key b <? key a); [|reflexivity].
  rewrite IH. apply Permutation_swap.
Qed.

Lemma stable_sort_perm (key : glm.vec2 -> Z) (l : list glm.vec2) :
  stable_sort key l ≡ₚ l.
Proof.
  induction l as [|a l IH]; simpl; [reflexivity|].
  rewrite insert_by_perm, IH. reflexivity.
Qed.

(** The sort is a sort: keys ascend. *)
Lemma insert_by_sorted (key : glm.vec2 -> Z) (a : glm.vec2) (l : list glm.vec2) :
  StronglySorted (fun c1 c2 => key c1 <= key c2) l ->
  StronglySorted (fun c1 c2 => key c1 <= key c2) (insert_by key a l).
Proof.
  induction 1 as [|b l Hs IH Hall]; simpl.
  - constructor; [constructor | constructor].
  - destruct (Z.ltb_spec (key b) (key a)) as [Hlt|Hge].
    + constructor; [exact IH|].
      rewrite insert_by_perm. constructor; [lia | exact Hall].
    + constructor; [constructor; assumption|].
      constructor; [exact Hge|].
      eapply Forall_impl; [exact Hall|]. simpl. intros c Hc. lia.
Qed.

Lemma stable_sort_sorted (key : glm.vec2 -> Z) (l : list glm.vec2) :
  StronglySorted (fun c1 c2 => key c1 <= key c2) (stable_sort key l).
Proof.
  induction l as [|a l IH]; simpl; [constructor|].
  apply insert_by_sorted, IH.
Qed.

(** The sort is stable: candidates with the same count keep their
    order. *)
Lemma insert_by_stable (key : glm.vec2 -> Z) (k : Z) (a : glm.vec2)
    (l : list glm.vec2) :
  filter (fun c => key c = k) (insert_by key a l)
  = filter (fun c => key c = k) (a :: l).
Proof.
  induction l as [|b l IH]; simpl; [reflexivity|].
  destruct (Z.ltb_spec (key b) (key a)) as [Hlt|Hge]; [|reflexivity].
  rewrite filter_cons, IH, !filter_cons.
  destruct (decide (key b = k)), (decide (key a = k)); try reflexivity. lia.
Qed.

Lemma stable_sort_stable (key : glm.vec2 -> Z) (k : Z) (l : list glm.vec2) :
  filter (fun c => key c = k) (stable_sort key l) = filter (fun c => key c = k) l.
Proof.
  induction l as [|a l IH]; simpl; [reflexivity|].
  rewrite insert_by_stable, !filter_cons, IH. reflexivity.
Qed.

Section Limit.
Variable board_counts : list Z.
Variable cs : list glm.vec2.
Hypothesis Hlen_counts : length board_counts = board_cells W H.
Hypothesis Hcs_in : forall c, c ∈ cs -> in_board W H (glm.x c) (glm.y c).
Hypothesis Hcs_len : Z.of_nat (length cs) < 2 ^ 32.

Lemma count_get (c : glm.vec2) :
  c ∈ cs -> exists n, vec_get board_counts (cell_of W c) = Ok n.
Proof.
  intros Hc. apply vec_get_in_range.
  destruct (cell_in_board W H _ _ Hfits (Hcs_in c Hc)) as [Hcell Hr].
  unfold cell_of. rewrite Hcell, Hlen_counts. unfold board_cells. lia.
Qed.

(** The loop of line 483 returns a limit within the list. *)
Lemma extend_limit_total (budget : nat) (limit : Z) :
  1 <= limit <= Z.of_nat (length cs) -> limit + 1 < 2 ^ 32 ->
  Z.of_nat (length cs) < limit + Z.of_nat budget ->
  exists limit', extend_limit W budget board_counts cs limit = Ok limit' /\
    limit <= limit' <= Z.of_nat (length cs).
Proof.
  revert limit. induction budget as [|budget IH]; intros limit Hl H32 Hb; [lia|].
  simpl. rewrite u32_small by lia.
  destruct (Z.ltb_spec (limit + 1) (Z.of_nat (length cs))) as [Hlt|Hge].
  - destruct (vec_get_in_range cs limit) as [a Ha]; [lia|].
    destruct (vec_get_in_range cs (limit + 1)) as [b Hb']; [lia|].
    rewrite Ha, Hb', !bind_Ok_l.
    apply vec_get_Ok in Ha, Hb'. destruct Ha as [_ Ha], Hb' as [_ Hb'].
    apply list_elem_of_lookup_2 in Ha, Hb'.
    destruct (count_get a Ha) as [ca ->], (count_get b Hb') as [cb ->].
    rewrite !bind_Ok_l. destruct (ca =? cb).
    + destruct (IH (limit + 1)) as (limit' & -> & Hl'); [lia..|].
      exists limit'. split; [reflexivity | lia].
    + exists limit. split; [reflexivity | lia].
  - exists limit. split; [reflexivity | lia].
Qed.

Lemma pick_limit_total :
  cs <> [] ->
  exists limit, pick_limit W board_counts cs = Ok limit /\
    1 <= limit <= Z.of_nat (length cs).
Proof.
  intros Hne. unfold pick_limit.
  assert (Hn : 1 <= Z.of_nat (length cs)) by (destruct cs; [congruence | simpl; lia]).
  assert (Hq : 0 <= Z.of_nat (length cs) / 4 < Z.of_nat (length cs)).
  { split; [apply Z.div_pos; lia|]. apply Z.div_lt; lia. }
  pose proof Hcs_len as Hn32. change (2 ^ 32) with 4294967296 in Hn32.
  rewrite u32_small by lia.
  destruct (extend_limit_total (S (length cs))
              (Z.max 1 (Z.of_nat (length cs) / 4))) as (limit & -> & Hl);
    [lia | change (2 ^ 32) with 4294967296; lia | lia |].
  exists limit. split; [reflexivity | lia].
Qed.
End Limit.

(** ** Placing the checkpoints *)

Lemma count_mesh_insert (m : Mesh) (gm : list (option Mesh)) (i : nat)
    (old new : option Mesh) :
  gm !! i = Some old ->
  (count_mesh m (<[i := new]> gm) + (if decide (old = Some m) then 1 else 0)
   = count_mesh m gm + (if decide (new = Some m) then 1 else 0))%nat.
Proof.
  intros Hi. pose proof (lookup_lt_Some _ _ _ Hi) as Hlt.
  rewrite insert_take_drop by exact Hlt.
  rewrite <- (take_drop_middle gm i old Hi) at 3.
  unfold count_mesh. rewrite !filter_app, !filter_cons, !length_app.
  destruct (decide (old = Some m)), (decide (new = Some m)); simpl; lia.
Qed.

Lemma only_goop_count (m : Mesh) (gm : list (option Mesh)) :
  only_goop gm -> m <> goop_mesh -> count_mesh m gm = 0%nat.
Proof.
  intros Hg Hm. unfold count_mesh.
  induction gm as [|o gm IH]; [reflexivity|].
  rewrite filter_cons.
  assert (Ho : o = None \/ o = Some goop_mesh) by (apply (Hg 0%nat); reflexivity).
  destruct (decide (o = Some m)) as [->|_].
  - destruct Ho as [Ho|Ho]; congruence.
  - apply IH. intros i o' Hi. apply (Hg (S i)). exact Hi.
Qed.

Lemma place_goals_counts (bm : list (option Mesh)) (budget : nat) :
  forall goals prev_goal gm g goals' prev_goal' gm' g',
    place_goals W H player_pos budget bm goals prev_goal gm g
      = Ok (goals', prev_goal', gm', g') ->
    0 <= goals -> goals_inv W goals prev_goal gm ->
    goals_inv W goals' prev_goal' gm' /\
    goals <= goals' <= Z.max goals 2 /\ length gm' = length gm.
Proof.
  induction budget as [|budget IH];
    intros goals prev gm g goals' prev' gm' g' Hrun Hpos Hinv; [discriminate|].
  cbn [place_goals] in Hrun.
  destruct (Z.ltb_spec goals 2) as [Hlt|Hge].
  - bind_inv Hrun as [counts g1] Hwalks.
    bind_inv Hrun as cs Hscan.
    destruct cs as [|c cs]; [injection Hrun as <- <- <- <-; split; [exact Hinv | lia]|].
    bind_inv Hrun as limit Hlimit. unfold mt in Hrun. cbv beta match zeta in Hrun.
    bind_inv Hrun as k Hk.
    bind_inv Hrun as gpos Hgpos.
    bind_inv Hrun as o Hold.
    destruct (decide (o = None)) as [->|]; [|discriminate].
    bind_inv Hrun as gm1 Hset.
    apply vec_get_Ok in Hold. destruct Hold as [_ Hold].
    apply vec_set_Ok in Hset. destruct Hset as [Hrange ->].
    rewrite u32_small in Hrun by (change (2 ^ 32) with 4294967296; lia).
    apply IH in Hrun; [| lia |].
    + destruct Hrun as (Hinv' & Hle & Hlen). split; [exact Hinv'|].
      rewrite length_insert in Hlen. split; [lia | exact Hlen].
    + destruct Hinv as (Hcp & Hgoal & _).
      pose proof (count_mesh_insert checkpoint_mesh gm _ None
                    (Some checkpoint_mesh) Hold) as Hc1.
      pose proof (count_mesh_insert goal_mesh gm _ None
                    (Some checkpoint_mesh) Hold) as Hc2.
      destruct (decide (None = Some checkpoint_mesh)); [discriminate|].
      destruct (decide (Some checkpoint_mesh = Some checkpoint_mesh)); [|congruence].
      destruct (decide (None = Some goal_mesh)); [discriminate|].
      destruct (decide (Some checkpoint_mesh = Some goal_mesh)); [discriminate|].
      split; [lia|]. split; [lia|].
      intros _. apply list_lookup_insert_eq. lia.
  - injection Hrun as <- <- <- <-. split; [exact Hinv | lia].
Qed.

(** On a board of at most [2^24] cells the placement loop returns; what
    it placed last lies inside the border and away from the player. *)
Lemma place_goals_total (bm : list (option Mesh)) (budget : nat) :
  W * H <= 2 ^ 24 ->
  length bm = board_cells W H -> border_walls W H bm ->
  forall goals prev_goal gm g,
    length gm = board_cells W H -> border_bare W H gm -> inside W H prev_goal ->
    0 <= goals <= 2 -> 3 <= goals + Z.of_nat budget ->
    exists goals' prev_goal' gm' g',
      place_goals W H player_pos budget bm goals prev_goal gm g
        = Ok (goals', prev_goal', gm', g') /\
      inside W H prev_goal' /\ length gm' = board_cells W H /\
      border_bare W H gm' /\
      ((goals' = goals /\ prev_goal' = prev_goal) \/
       (goals < goals' /\ prev_goal' <> player_pos)).
Proof.
  intros Hsmall Hlen_bm Hborder.
  induction budget as [|budget IH];
    intros goals prev gm g Hlen_gm Hbare Hin Hgoals Hbudget; [lia|].
  cbn [place_goals].
  assert (Hstay : forall g0 : mt19937, exists goals' prev_goal' gm' g',
    Ok (goals, prev, gm, g0) = Ok (goals', prev_goal', gm', g') /\
    inside W H prev_goal' /\ length gm' = board_cells W H /\
    border_bare W H gm' /\
    ((goals' = goals /\ prev_goal' = prev) \/
     (goals < goals' /\ prev_goal' <> player_pos))).
  { intros g0. exists goals, prev, gm, g0. split; [reflexivity|]. split; [exact Hin|].
    split; [exact Hlen_gm|]. split; [exact Hbare|]. left. split; reflexivity. }
  destruct (Z.ltb_spec goals 2) as [Hlt|Hge]; [|apply Hstay].
  destruct (random_walks_total bm gm Hlen_bm Hlen_gm Hborder Hsmall prev g Hin)
    as (counts & g1 & -> & Hlen_c & Hci).
  rewrite bind_Ok_l.
  destruct (scan_possible_cells_total gm counts Hlen_gm Hlen_c) as [cs Hscan].
  rewrite Hscan, bind_Ok_l.
  pose proof (scan_possible_cells_spec gm counts cs Hscan) as Hspec.
  pose proof (scan_possible_cells_length gm counts cs Hscan) as Hcslen.
  destruct cs as [|c cs]; [apply Hstay|]. clear Hstay.
  set (sorted := stable_sort (count_of W counts) (c :: cs)) in *.
  assert (Hperm : sorted ≡ₚ c :: cs) by apply stable_sort_perm.
  assert (Hsorted : forall c', c' ∈ sorted ->
            in_board W H (glm.x c') (glm.y c') /\ candidate W player_pos gm counts c').
  { intros c' Hc'. apply Hspec. rewrite <- Hperm. exact Hc'. }
  assert (Hslen : length sorted = length (c :: cs)) by (rewrite Hperm; reflexivity).
  destruct Hfits as (HW & HH & H32).
  destruct (pick_limit_total counts sorted Hlen_c) as (limit & -> & Hlimit).
  { intros c' Hc'. apply Hsorted, Hc'. }
  { rewrite Hslen. lia. }
  { intros Hnil. rewrite Hnil in Hslen. discriminate. }
  rewrite bind_Ok_l. unfold mt. cbv beta match zeta.
  set (r := u32 (outputs g1 (drawn g1))).
  unfold umod. destruct (Z.eqb_spec limit 0) as [?|_]; [lia|].
  rewrite bind_Ok_l.
  assert (Hk : 0 <= r mod limit < limit) by (apply Z.mod_pos_bound; lia).
  destruct (vec_get_in_range sorted (r mod limit)) as [gpos Hgpos]; [lia|].
  rewrite Hgpos, bind_Ok_l.
  apply vec_get_Ok in Hgpos. destruct Hgpos as [_ Hgpos].
  apply list_elem_of_lookup_2 in Hgpos.
  destruct (Hsorted gpos Hgpos) as (Hgin & Hgne & Hgnull & n & Hn & Hnpos).
  pose proof (cell_lt gm _ _ Hlen_gm Hgin) as Hgrange.
  assert (Hget : vec_get gm (cell_of W gpos) = Ok None).
  { apply vec_get_Ok. split; [unfold cell_of; lia | exact Hgnull]. }
  rewrite Hget, bind_Ok_l.
  destruct (decide (None = None)) as [_|?]; [|congruence].
  rewrite vec_set_in_range by exact Hgrange. rewrite bind_Ok_l.
  assert (Hginside : inside W H gpos).
  { destruct (Hci _ _ Hn) as (q & Hq & Hqcell); [lia|].
    assert (Hcq : cell W (glm.x q) (glm.y q) = cell W (glm.x gpos) (glm.y gpos)).
    { pose proof (cell_lt gm _ _ Hlen_gm (inside_in_board _ _ _ Hq)).
      unfold cell_of in *. lia. }
    destruct (cell_inj W H _ _ _ _ (conj HW (conj HH H32))
                (inside_in_board _ _ _ Hq) Hgin Hcq) as [Hx Hy].
    destruct q, gpos. simpl in *. subst. exact Hq. }
  rewrite u32_small by (change (2 ^ 32) with 4294967296; lia).
  destruct (IH (goals + 1) gpos (<[Z.to_nat (cell_of W gpos) := Some checkpoint_mesh]> gm)
              (mkMt (outputs g1) (S (drawn g1))))
    as (goals' & prev' & gm' & g' & -> & Hin' & Hlen' & Hbare' & Hcases);
    [rewrite length_insert; exact Hlen_gm
    | apply border_bare_insert_inside; assumption
    | exact Hginside | lia | lia |].
  exists goals', prev', gm', g'. split; [reflexivity|]. split; [exact Hin'|].
  split; [exact Hlen'|]. split; [exact Hbare'|].
  right. destruct Hcases as [[-> ->]|[Hlt' Hne']]; split; try assumption; lia.
Qed.

(** ** One pass of the generator *)

Lemma create_board_pass_border (g g' : mt19937) (goals : Z)
    (prev_goal : glm.vec2) (bm gm : list (option Mesh)) :
  create_board_pass W H player_pos g = Ok (goals, prev_goal, bm, gm, g') ->
  length bm = board_cells W H /\ border_walls W H bm.
Proof.
  unfold create_board_pass. intros Hrun.
  bind_inv Hrun as bm0 Hclear.
  bind_inv Hrun as [bm1 g1] Hwalls.
  bind_inv Hrun as [gm1 g2] Hgoops.
  bind_inv Hrun as [[[goals1 prev1] gm2] g3] Hgoals.
  injection Hrun as <- <- <- <- <-.
  apply clear_board_spec in Hclear. destruct Hclear as (Hlen & Hb & _).
  apply place_walls_border in Hwalls. destruct Hwalls as [Hlen1 Hb1].
  split; [congruence | auto].
Qed.

Lemma create_board_pass_player (g g' : mt19937) (goals : Z)
    (prev_goal : glm.vec2) (bm gm : list (option Mesh)) :
  inside W H player_pos ->
  create_board_pass W H player_pos g = Ok (goals, prev_goal, bm, gm, g') ->
  floor_at W bm (glm.x player_pos) (glm.y player_pos).
Proof.
  unfold create_board_pass. intros Hin Hrun.
  bind_inv Hrun as bm0 Hclear.
  bind_inv Hrun as [bm1 g1] Hwalls.
  bind_inv Hrun as [gm1 g2] Hgoops.
  bind_inv Hrun as [[[goals1 prev1] gm2] g3] Hgoals.
  injection Hrun as <- <- <- <- <-.
  apply clear_board_spec in Hclear. destruct Hclear as (Hlen & _ & Hfl).
  apply (place_walls_player bm0 bm1 g g1 Hin Hlen Hwalls), Hfl, Hin.
Qed.

(** On a board of at most [2^24] cells a pass returns.  If it placed
    anything, the last cell placed lies inside the border and is not the
    player's. *)
Lemma create_board_pass_total (g : mt19937) :
  W * H <= 2 ^ 24 -> inside W H player_pos ->
  exists goals prev_goal bm gm g',
    create_board_pass W H player_pos g = Ok (goals, prev_goal, bm, gm, g') /\
    inside W H prev_goal /\ length gm = board_cells W H /\
    border_bare W H gm /\
    (goals <> 0 -> prev_goal <> player_pos).
Proof.
  intros Hsmall Hin. unfold create_board_pass.
  assert (HW : 3 <= W) by (unfold inside in Hin; lia).
  assert (HH : 3 <= H) by (unfold inside in Hin; lia).
  destruct clear_board_total as [bm0 Hclear]. rewrite Hclear, bind_Ok_l.
  apply clear_board_spec in Hclear. destruct Hclear as (Hlen & Hb & _).
  destruct (place_walls_total bm0 g HW HH Hlen) as (bm1 & g1 & Hwalls).
  rewrite Hwalls, bind_Ok_l.
  apply place_walls_border in Hwalls. destruct Hwalls as [Hlen1 Hb1].
  rewrite Hlen in Hlen1. specialize (Hb1 Hb).
  destruct (place_goops_total bm1 (replicate (Z.to_nat (u32 (W * H))) None) g1
              HW HH Hlen1) as (gm1 & g2 & Hgoops).
  { rewrite length_replicate. apply cells_u32. }
  rewrite Hgoops, bind_Ok_l.
  assert (Hbare1 : border_bare W H gm1).
  { apply (place_goops_bare _ _ _ _ _ HW HH Hgoops).
    rewrite cells_u32. apply border_bare_replicate. }
  apply place_goops_spec in Hgoops. destruct Hgoops as [Hlg _].
  rewrite length_replicate, cells_u32 in Hlg.
  destruct (place_goals_total bm1 3 Hsmall Hlen1 Hb1 0 player_pos gm1 g2 Hlg Hbare1 Hin)
    as (goals & prev & gm2 & g3 & -> & Hpin & Hlg2 & Hbare2 & Hcases); [lia | lia |].
  rewrite bind_Ok_l. exists goals, prev, bm1, gm2, g3. split; [reflexivity|].
  split; [exact Hpin|]. split; [exact Hlg2|]. split; [exact Hbare2|]. intros Hne.
  destruct Hcases as [[-> _]|[_ Hpne]]; [congruence | exact Hpne].
Qed.
End GeneratorFacts.

(** On a board 16777219 cells wide, a walker at [(2^24, 1)] that is sent
    to the right does not move, and tests the cell on its right, which
    [float] makes its own: where that cell is floor without goop, the
    loop of line 453 has not ended after any number of rounds. *)
Example walk_slide_never_ends (n : nat) (bm gm : list (option Mesh)) :
  vec_get bm (exact_cell 16777219 (glm.mk (2 ^ 24 + 1) 1)) = Ok (Some floor_mesh) ->
  vec_get gm (exact_cell 16777219 (glm.mk (2 ^ 24 + 1) 1)) = Ok None ->
  walk_slide 16777219 n bm gm (glm.mk (2 ^ 24) 1) (glm.mk 1 0) = OutOfFuel.
Proof.
  intros Hm Ho.
  apply (walk_slide_stuck 16777219 n bm gm _ _ (Some floor_mesh) None);
    [reflexivity | exact Hm | discriminate | exact Ho | discriminate].
Qed.

(** The overlay after a pass: as many checkpoints as [goals], no goal yet,
    and the last checkpoint placed is at [prev_goal]. *)
Lemma create_board_pass_goals (W H : Z) (player_pos : glm.vec2) (g g' : mt19937)
    (goals : Z) (prev_goal : glm.vec2) (bm gm : list (option Mesh)) :
  create_board_pass W H player_pos g = Ok (goals, prev_goal, bm, gm, g') ->
  0 <= goals <= 2 /\ goals_inv W goals prev_goal gm /\
  length gm = Z.to_nat (u32 (W * H)).
Proof.
  unfold create_board_pass. intros Hrun.
  bind_inv Hrun as bm0 Hclear.
  bind_inv Hrun as [bm1 g1] Hwalls.
  bind_inv Hrun as [gm1 g2] Hgoops.
  bind_inv Hrun as [[[goals1 prev1] gm2] g3] Hgoals.
  injection Hrun as <- <- <- <- <-.
  apply place_goops_spec in Hgoops. destruct Hgoops as [Hlen1 Hog].
  assert (Hgm1 : only_goop gm1).
  { apply Hog. intros i o Hi. apply lookup_replicate in Hi. tauto. }
  apply place_goals_counts in Hgoals; [|lia|].
  - destruct Hgoals as (Hinv & Hle & Hlen2). split; [lia|]. split; [exact Hinv|].
    rewrite Hlen2, Hlen1. apply length_replicate.
  - split; [|split].
    + rewrite only_goop_count by (exact Hgm1 || discriminate). reflexivity.
    + apply only_goop_count; [exact Hgm1 | discriminate].
    + intros Hne. congruence.
Qed.

(** * [create_board] as a whole *)

(** A call that returns ends with a pass that placed something, and
    re-tags the last cell placed. *)
Lemma create_board_last_pass (fuel : nat) :
  forall st g st' g',
    create_board fuel st g = Ok (st', g') ->
    exists g0 goals prev_goal bm gm gm',
      create_board_pass (glm.x (board_size st)) (glm.y (board_size st))
        (player st) g0 = Ok (goals, prev_goal, bm, gm, g') /\
      goals <> 0 /\
      vec_set gm (cell_of (glm.x (board_size st)) prev_goal) (Some goal_mesh)
        = Ok gm' /\
      st' = with_board st bm gm'.
Proof.
  induction fuel as [|fuel IH]; intros st g st' g' Hrun; [discriminate|].
  cbn [create_board] in Hrun.
  bind_inv Hrun as [[[[goals prev] bm] gm] g1] Hpass.
  destruct (Z.eqb_spec goals 0) as [->|Hne].
  - apply IH in Hrun. simpl in Hrun.
    destruct Hrun as (g0 & goals' & prev' & bm' & gm' & gm'' & Hp & Hg & Hs & ->).
    exists g0, goals', prev', bm', gm', gm''. auto.
  - bind_inv Hrun as gm' Hset. injection Hrun as <- <-.
    exists g, goals, prev, bm, gm, gm'. auto.
Qed.

Lemma border_wallsb_correct (W H : Z) (bm : list (option Mesh)) :
  border_wallsb W H bm = true -> border_walls W H bm.
Proof.
  unfold border_wallsb. intros Hb x y [[Hx Hy] Hxy].
  rewrite forallb_forall in Hb.
  specialize (Hb y). rewrite <- list_elem_of_In, elem_of_seqZ_0 in Hb.
  specialize (Hb Hy). rewrite forallb_forall in Hb.
  specialize (Hb x). rewrite <- list_elem_of_In, elem_of_seqZ_0 in Hb.
  specialize (Hb Hx).
  destruct ((x =? 0) || (x =? W - 1) || (y =? 0) || (y =? H - 1)) eqn:Hon.
  - apply bool_decide_eq_true in Hb. exact Hb.
  - rewrite !orb_false_iff, !Z.eqb_neq in Hon. lia.
Qed.

(** * The player's move *)

Lemma move_player_board (dx dy : Z) (st st' : Game) :
  move_player dx dy st = Ok st' ->
  board_size st' = board_size st /\ board_meshes st' = board_meshes st /\
  length (goal_meshes st') = length (goal_meshes st).
Proof.
  unfold move_player. intros Hrun.
  destruct (negb _); [discriminate|]. destruct (negb _); [discriminate|].
  bind_inv Hrun as p Hslide.
  bind_inv Hrun as o Ho.
  bind_inv Hrun as [gm cp] Hcollect.
  bind_inv Hrun as o' Ho'.
  injection Hrun as <-. simpl. split; [reflexivity|]. split; [reflexivity|].
  destruct (decide (o = Some checkpoint_mesh)).
  - bind_inv Hcollect as gm1 Hset. injection Hcollect as <- <-.
    apply vec_set_Ok in Hset. destruct Hset as [_ ->]. apply length_insert.
  - injection Hcollect as <- <-. reflexivity.
Qed.

Lemma move_player_counter (dx dy : Z) (st st' : Game) :
  move_player dx dy st = Ok st' ->
  let i := Z.to_nat (cell_of (glm.x (board_size st)) (player st')) in
  (goal_meshes st !! i = Some (Some checkpoint_mesh) /\
   checkpoints st' = checkpoints st + 1 /\
   goal_meshes st' = <[i := Some checkpoint_collected_mesh]> (goal_meshes st)) \/
  (goal_meshes st !! i <> Some (Some checkpoint_mesh) /\
   checkpoints st' = checkpoints st /\
   goal_meshes st' = goal_meshes st).
Proof.
  unfold move_player. intros Hrun.
  destruct (negb _); [discriminate|]. destruct (negb _); [discriminate|].
  bind_inv Hrun as p Hslide.
  bind_inv Hrun as o Ho.
  bind_inv Hrun as [gm cp] Hcollect.
  bind_inv Hrun as o' Ho'.
  injection Hrun as <-. cbn.
  apply vec_get_Ok in Ho. destruct Ho as [_ Ho].
  destruct (decide (o = Some checkpoint_mesh)) as [->|Hne].
  - bind_inv Hcollect as gm1 Hset. injection Hcollect as <- <-.
    apply vec_set_Ok in Hset. destruct Hset as [_ ->]. left. auto.
  - injection Hcollect as <- <-. right. split; [congruence | auto].
Qed.

Lemma move_player_counter_sum (dx dy : Z) (st st' : Game) :
  move_player dx dy st = Ok st' ->
  checkpoints st' + Z.of_nat (count_mesh checkpoint_mesh (goal_meshes st'))
  = checkpoints st + Z.of_nat (count_mesh checkpoint_mesh (goal_meshes st)) /\
  forall i, goal_meshes st !! i = Some (Some checkpoint_collected_mesh) ->
            goal_meshes st' !! i = Some (Some checkpoint_collected_mesh).
Proof.
  intros Hrun. apply move_player_counter in Hrun. cbv zeta in Hrun.
  destruct Hrun as [(Hold & -> & ->)|(_ & -> & ->)]; [|auto].
  split.
  - pose proof (count_mesh_insert checkpoint_mesh _ _ _
                  (Some checkpoint_collected_mesh) Hold) as Hc.
    destruct (decide (Some checkpoint_mesh = Some checkpoint_mesh)); [|congruence].
    destruct (decide (Some checkpoint_collected_mesh = Some checkpoint_mesh));
      [discriminate|]. lia.
  - intros i Hi.
    destruct (decide (Z.to_nat (cell_of (glm.x (board_size st)) (player st')) = i))
      as [<-|Hne].
    + congruence.
    + rewrite list_lookup_insert_ne by exact Hne. exact Hi.
Qed.

Lemma move_player_bare (dx dy : Z) (st st' : Game) :
  move_player dx dy st = Ok st' ->
  forall i, goal_meshes st !! i = Some None -> goal_meshes st' !! i = Some None.
Proof.
  intros Hrun i Hi. apply move_player_counter in Hrun. cbv zeta in Hrun.
  destruct Hrun as [(Hold & _ & ->)|(_ & _ & ->)]; [|exact Hi].
  rewrite list_lookup_insert_ne; [exact Hi|]. intros <-. congruence.
Qed.

(** C1.  On a board whose border is wall, with the token strictly inside,
    [move_player] in one of the four directions returns.  The token ends
    [k] cells ahead: every cell it entered is not a wall, no cell it passed
    before the last is sticky, so a sticky cell it entered is the one it
    rests on, and it stopped because the next cell is a wall or because the
    cell it stands on is sticky.  If the adjacent cell is a wall it does
    not move. *)
Theorem move_player_slides (st : Game) (dx dy : Z) :
  board_ok st -> player_inside st -> is_direction (glm.mk dx dy) ->
  let W := glm.x (board_size st) in
  let p := player st in
  let d := glm.mk dx dy in
  exists st' k,
    move_player dx dy st = Ok st' /\ 0 <= k /\
    player st' = ahead p d k /\ player_inside st' /\
    (forall i, 1 <= i <= k -> ~ wall_at W (board_meshes st) (ahead p d i)) /\
    (forall i, 1 <= i < k -> ~ goop_at W (goal_meshes st) (ahead p d i)) /\
    (forall i, 1 <= i <= k -> goop_at W (goal_meshes st) (ahead p d i) -> i = k) /\
    (wall_at W (board_meshes st) (ahead p d (k + 1)) \/
     (1 <= k /\ goop_at W (goal_meshes st) (ahead p d k))) /\
    (wall_at W (board_meshes st) (ahead p d 1) -> player st' = p).
Proof.
  intros (Hfits & Hlb & Hlg & Hborder) Hin Hd W p d.
  unfold player_inside in *. fold W in Hfits, Hlb, Hlg, Hin. fold p in Hin.
  unfold perimeter_is_wall in Hborder. fold W in Hborder.
  set (H := glm.y (board_size st)) in *.
  pose proof Hfits as (HW & HH & H32).
  destruct Hin as [Hx Hy].
  assert (HW32 : W < 2 ^ 32) by nia.
  assert (HH32 : H < 2 ^ 32) by nia.
  unfold move_player. fold W H p.
  rewrite !u32_small by lia.
  destruct (Z.leb_spec 1 (glm.x p)) as [_|?]; [|lia].
  destruct (Z.ltb_spec (glm.x p + 1) W) as [_|?]; [|lia].
  destruct (Z.leb_spec 1 (glm.y p)) as [_|?]; [|lia].
  destruct (Z.ltb_spec (glm.y p + 1) H) as [_|?]; [|lia].
  cbn [andb negb].
  pose proof (slide_player_slide W H Hfits _ _ Hlb Hlg Hborder
                (S (length (board_meshes st))) p d Hd (conj Hx Hy)) as Heq.
  cbn [glm.x glm.y d] in Heq. rewrite Heq. clear Heq.
  destruct (slide_spec W H Hfits _ _ Hlb Hlg Hborder
              (S (length (board_meshes st))) p d Hd (conj Hx Hy))
    as (k & Hk & -> & Hkin & Hw & Hg & Hstop).
  { apply room_le_cells; [exact Hfits | exact Hlb | exact Hd | exact (conj Hx Hy)]. }
  rewrite bind_Ok_l.
  destruct (cell_in_board W H _ _ Hfits (inside_in_board _ _ _ Hkin)) as [Hcell Hr].
  assert (Hrange : 0 <= cell_of W (ahead p d k) < Z.of_nat (length (goal_meshes st))).
  { unfold cell_of. rewrite Hcell, Hlg. unfold board_cells. lia. }
  destruct (vec_get_in_range _ _ Hrange) as [o ->]. rewrite bind_Ok_l.
  assert (Hpost : exists gm (cp : counter) o',
    (if decide (o = Some checkpoint_mesh)
     then gm ← vec_set (goal_meshes st) (cell_of W (ahead p d k))
                 (Some checkpoint_collected_mesh);
          Ok (gm, checkpoints st + 1)
     else Ok (goal_meshes st, checkpoints st)) = Ok (gm, cp) /\
    vec_get gm (cell_of W (ahead p d k)) = Ok o').
  { destruct (decide (o = Some checkpoint_mesh)).
    - rewrite vec_set_in_range by exact Hrange. rewrite bind_Ok_l.
      destruct (vec_get_in_range
                  (<[Z.to_nat (cell_of W (ahead p d k)) := Some checkpoint_collected_mesh]>
                     (goal_meshes st)) (cell_of W (ahead p d k))) as [o' Ho'].
      { rewrite length_insert. exact Hrange. }
      eauto.
    - destruct (vec_get_in_range _ _ Hrange) as [o' Ho']. eauto. }
  destruct Hpost as (gm & cp & o' & -> & Ho'). rewrite bind_Ok_l, Ho', bind_Ok_l.
  eexists _, k. split; [reflexivity|]. split; [exact Hk|].
  split; [reflexivity|]. split; [exact Hkin|].
  split; [exact Hw|]. split; [exact Hg|].
  split.
  { intros i Hi Hgoop. destruct (decide (i = k)) as [Heq|Hne]; [exact Heq|].
    exfalso. apply (Hg i); [lia | exact Hgoop]. }
  split; [exact Hstop|].
  intros Hwall. simpl.
  destruct (decide (k = 0)) as [->|Hne]; [apply ahead_0|].
  exfalso. apply (Hw 1); [lia | exact Hwall].
Qed.

Lemma move_player_slides_witness :
  exists st' k,
    move_player 0 1 sticky_5x5 = Ok st' /\ 0 <= k /\
    player st' = ahead (glm.mk 2 1) (glm.mk 0 1) k /\
    (1 <= k /\ goop_at 5 (goal_meshes sticky_5x5) (ahead (glm.mk 2 1) (glm.mk 0 1) k)
     \/ wall_at 5 (board_meshes sticky_5x5) (ahead (glm.mk 2 1) (glm.mk 0 1) (k + 1))).
Proof.
  destruct (move_player_slides sticky_5x5 0 1)
    as (st' & k & Hrun & Hk & Hp & _ & _ & _ & _ & Hstop & _).
  - split; [vm_compute; intuition discriminate|].
    split; [reflexivity|]. split; [reflexivity|].
    apply border_wallsb_correct. vm_compute. reflexivity.
  - vm_compute. intuition discriminate.
  - right. right. right. reflexivity.
  - exists st', k. tauto.
Defined.

(** The scenario of the sticky cell: from (2,1) towards the goop at (2,2)
    the token stops on (2,2), although (2,3) is open. *)
Example move_player_stops_on_goop :
  move_player 0 1 sticky_5x5
  = Ok (mkGame (glm.mk 5 5) open_5x5 (goal_meshes sticky_5x5) (glm.mk 2 2) 0 false).
Proof. vm_compute. reflexivity. Qed.

(** * Some runs of the generator *)

Lemma returned_Ok {A : Type} (r : result (A * mt19937)) (a : A) (n : Z) :
  returned r = Some (a, n) -> exists g, r = Ok (a, g) /\ Z.of_nat (drawn g) = n.
Proof.
  destruct r as [[a' g]| |]; simpl; [|discriminate..].
  intros [= -> <-]. eauto.
Qed.

Example level_6x5_generated :
  returned (create_board 3 level_6x5 (mkMt lcg 0)) = Some (board_6x5, 4014).
Proof. vm_compute. reflexivity. Qed.

Example board_6x5_won : move_player 1 0 board_6x5 = Ok won_6x5.
Proof. vm_compute. reflexivity. Qed.

Example won_6x5_regenerated :
  returned (create_board 3 won_6x5 (mkMt lcg 4014)) = Some (next_6x5, 8028).
Proof. vm_compute. reflexivity. Qed.

Example level_5x3_generated :
  returned (create_board 1 level_5x3 (mkMt stream_5x3 0))
  = Some (board_5x3, 4009).
Proof. vm_compute. reflexivity. Qed.

Example level_5x3_goop_on_player :
  returned (create_board 1 level_5x3 (mkMt stream_goop_on_player 0))
  = Some (board_goop_on_player, 4009).
Proof. vm_compute. reflexivity. Qed.

Lemma fits_6x5 : fits 6 5.
Proof. vm_compute. intuition discriminate. Qed.

Lemma fits_5x3 : fits 5 3.
Proof. vm_compute. intuition discriminate. Qed.

(** * The border *)

Lemma run_moves_board (moves : list (Z * Z)) (st st' : Game) :
  run_moves moves st = Ok st' ->
  board_size st' = board_size st /\ board_meshes st' = board_meshes st.
Proof.
  unfold run_moves.
  apply (for_each_inv (fun s => board_size s = board_size st /\
                                board_meshes s = board_meshes st)).
  - intros m s s' _ [Hs Hb] Hmove. apply move_player_board in Hmove.
    destruct Hmove as (Hs' & Hb' & _). split; congruence.
  - auto.
Qed.

Lemma create_board_board_ok (fuel : nat) (st st' : Game) (g g' : mt19937) :
  fits (glm.x (board_size st)) (glm.y (board_size st)) ->
  create_board fuel st g = Ok (st', g') ->
  board_ok st'.
Proof.
  intros Hfits Hrun.
  apply create_board_last_pass in Hrun.
  destruct Hrun as (g0 & goals & prev & bm & gm & gm' & Hpass & Hne & Hset & ->).
  pose proof (create_board_pass_border _ _ _ Hfits _ _ _ _ _ _ Hpass) as [Hlen Hb].
  pose proof (create_board_pass_goals _ _ _ _ _ _ _ _ _ Hpass) as (_ & _ & Hlg).
  rewrite (cells_u32 _ _ Hfits) in Hlg.
  apply vec_set_Ok in Hset. destruct Hset as [_ ->].
  split; [exact Hfits|]. split; [exact Hlen|].
  split; [simpl; rewrite length_insert; exact Hlg | exact Hb].
Qed.

Lemma run_moves_bare (moves : list (Z * Z)) (st st' : Game) :
  run_moves moves st = Ok st' ->
  forall i, goal_meshes st !! i = Some None -> goal_meshes st' !! i = Some None.
Proof.
  unfold run_moves.
  apply (for_each_inv (fun s =>
    forall i, goal_meshes st !! i = Some None -> goal_meshes s !! i = Some None)).
  - intros m s s' _ Hs Hmove i Hi. apply (move_player_bare _ _ _ _ Hmove), Hs, Hi.
  - auto.
Qed.

Lemma create_board_bare (fuel : nat) (st st' : Game) (g g' : mt19937) :
  fits (glm.x (board_size st)) (glm.y (board_size st)) ->
  glm.x (board_size st) * glm.y (board_size st) <= 2 ^ 24 ->
  player_inside st ->
  create_board fuel st g = Ok (st', g') ->
  perimeter_is_bare st'.
Proof.
  intros Hfits Hsmall Hin Hrun.
  apply create_board_last_pass in Hrun.
  destruct Hrun as (g0 & goals & prev & bm & gm & gm' & Hpass & Hne & Hset & ->).
  destruct (create_board_pass_total _ _ _ Hfits g0 Hsmall Hin)
    as (goals1 & prev1 & bm1 & gm1 & g1 & Hpass1 & Hpin & _ & Hbare & _).
  rewrite Hpass in Hpass1. injection Hpass1 as <- <- <- <- <-.
  apply vec_set_Ok in Hset. destruct Hset as [_ ->].
  unfold perimeter_is_bare. cbn [with_board board_size goal_meshes].
  apply border_bare_insert_inside; assumption.
Qed.

(** C2.  After every call of [create_board] that returns, every cell of
    the perimeter is wall, and it stays so through any series of moves of
    the player.  With the token inside the border of a board of at most
    [2^24] cells, the overlay of the perimeter is empty as well, and stays
    so: no goop, checkpoint or goal is ever put on a perimeter cell.  The
    bound is that of the [float] index of line 457: beyond it a walk can
    count a perimeter cell (see [fcell_rounds_to_neighbour]), which line
    466 then offers to the placement. *)
Theorem create_board_border_invariant (fuel : nat) (st st' : Game)
    (g g' : mt19937) :
  fits (glm.x (board_size st)) (glm.y (board_size st)) ->
  create_board fuel st g = Ok (st', g') ->
  perimeter_is_wall st' /\
  (player_inside st ->
   glm.x (board_size st) * glm.y (board_size st) <= 2 ^ 24 ->
   perimeter_is_bare st') /\
  forall moves st'',
    run_moves moves st' = Ok st'' ->
    perimeter_is_wall st'' /\
    (player_inside st ->
     glm.x (board_size st) * glm.y (board_size st) <= 2 ^ 24 ->
     perimeter_is_bare st'').
Proof.
  intros Hfits Hrun.
  destruct (create_board_board_ok fuel st st' g g' Hfits Hrun) as (_ & _ & _ & Hb).
  split; [exact Hb|].
  split.
  { intros Hin Hsmall.
    apply (create_board_bare fuel st st' g g' Hfits Hsmall Hin Hrun). }
  intros moves st'' Hmoves.
  pose proof (run_moves_board _ _ _ Hmoves) as [Hs Hbm].
  unfold perimeter_is_wall, perimeter_is_bare in *.
  rewrite Hs, Hbm. split; [exact Hb|].
  intros Hin Hsmall x y Hxy. apply (run_moves_bare _ _ _ Hmoves).
  apply (create_board_bare fuel st st' g g' Hfits Hsmall Hin Hrun), Hxy.
Qed.

Lemma create_board_border_invariant_witness :
  perimeter_is_wall board_6x5 /\ perimeter_is_bare board_6x5 /\
  forall moves st'',
    run_moves moves board_6x5 = Ok st'' ->
    perimeter_is_wall st'' /\ perimeter_is_bare st''.
Proof.
  destruct (returned_Ok _ _ _ level_6x5_generated) as (g' & Hrun & _).
  pose proof (create_board_border_invariant 3 level_6x5 board_6x5 (mkMt lcg 0) g'
                fits_6x5 Hrun) as (Hw & Hb & Hmoves).
  assert (Hin : player_inside level_6x5) by (vm_compute; intuition discriminate).
  assert (Hsmall : glm.x (board_size level_6x5) * glm.y (board_size level_6x5)
                   <= 2 ^ 24) by (vm_compute; discriminate).
  split; [exact Hw|]. split; [exact (Hb Hin Hsmall)|].
  intros moves st'' Hrun'. destruct (Hmoves moves st'' Hrun') as [Hw' Hb'].
  split; [exact Hw' | exact (Hb' Hin Hsmall)].
Defined.

(** * The objectives of a generated board *)



(** C5 as stated fails: on the corridor the only candidate
    becomes the goal, and the board that [create_board] returns has a goal
    and no checkpoint. *)
Lemma create_board_without_checkpoint :
  returned (create_board 1 level_5x3 (mkMt stream_5x3 0))
    = Some (board_5x3, 4009) /\
  count_mesh goal_mesh (goal_meshes board_5x3) = 1%nat /\
  ~ (1 <= count_mesh checkpoint_mesh (goal_meshes board_5x3))%nat.
Proof.
  split; [exact level_5x3_generated|].
  split; [reflexivity | vm_compute; lia].
Qed.

(** C5, amended.  A board returned by [create_board] holds one checkpoint
    less than the last pass placed, and the pass placed one or two: the
    board has no checkpoint cell or one. *)
Theorem create_board_checkpoints (fuel : nat) (st st' : Game) (g g' : mt19937) :
  create_board fuel st g = Ok (st', g') ->
  exists g0 goals prev_goal bm gm,
    create_board_pass (glm.x (board_size st)) (glm.y (board_size st))
      (player st) g0 = Ok (goals, prev_goal, bm, gm, g') /\
    1 <= goals <= 2 /\
    Z.of_nat (count_mesh checkpoint_mesh (goal_meshes st')) = goals - 1.
Proof.
  intros Hrun. apply create_board_last_pass in Hrun.
  destruct Hrun as (g0 & goals & prev & bm & gm & gm' & Hpass & Hne & Hset & ->).
  pose proof (create_board_pass_goals _ _ _ _ _ _ _ _ _ Hpass)
    as (Hgoals & (Hcount & _ & Hlast) & _).
  specialize (Hlast Hne).
  apply vec_set_Ok in Hset. destruct Hset as [_ ->].
  exists g0, goals, prev, bm, gm. split; [exact Hpass|]. split; [lia|]. simpl.
  pose proof (count_mesh_insert checkpoint_mesh gm _ _ (Some goal_mesh) Hlast) as Hc.
  destruct (decide (Some checkpoint_mesh = Some checkpoint_mesh)); [|congruence].
  destruct (decide (Some goal_mesh = Some checkpoint_mesh)); [discriminate|]. lia.
Qed.

Lemma create_board_checkpoints_witness :
  exists goals,
    1 <= goals <= 2 /\
    Z.of_nat (count_mesh checkpoint_mesh (goal_meshes board_6x5)) = goals - 1.
Proof.
  destruct (returned_Ok _ _ _ level_6x5_generated) as (g' & Hrun & _).
  destruct (create_board_checkpoints 3 level_6x5 board_6x5 (mkMt lcg 0) g' Hrun)
    as (_ & goals & _ & _ & _ & _ & Hgoals & Hcount).
  exists goals. auto.
Defined.

(** * Termination of the generator *)

(** The layers a call starts from do not matter: it rebuilds them. *)
Lemma create_board_layers (fuel : nat) :
  forall st bm0 gm0 g,
    create_board fuel (with_board st bm0 gm0) g = create_board fuel st g.
Proof.
  induction fuel as [|fuel IH]; intros st bm0 gm0 g; [reflexivity|].
  cbn [create_board with_board board_size player].
  destruct (create_board_pass _ _ _ g) as [[[[[goals prev] bm] gm] g1]| |];
    [|reflexivity..].
  rewrite !bind_Ok_l. destruct (goals =? 0); reflexivity.
Qed.

Lemma create_board_pass_3x3 (g : mt19937) :
  exists prev_goal bm gm g',
    create_board_pass 3 3 (glm.mk 1 1) g = Ok (0, prev_goal, bm, gm, g').
Proof.
  assert (Hfits : fits 3 3) by (vm_compute; intuition discriminate).
  destruct (create_board_pass_total 3 3 (glm.mk 1 1) Hfits g)
    as (goals & prev & bm & gm & g' & Hpass & Hin & _ & _ & Hne).
  { vm_compute. discriminate. }
  { vm_compute. intuition discriminate. }
  destruct (decide (goals = 0)) as [->|Hgoals]; [eauto|].
  exfalso. apply (Hne Hgoals).
  destruct prev as [px py]. destruct Hin as [Hx Hy]. simpl in Hx, Hy.
  f_equal; lia.
Qed.

(** On the 3x3 board every pass fails, whatever the stream: the call
    retries for ever. *)
Lemma create_board_3x3_never_returns (fuel : nat) :
  forall st g,
    board_size st = glm.mk 3 3 -> player st = glm.mk 1 1 ->
    create_board fuel st g = OutOfFuel.
Proof.
  induction fuel as [|fuel IH]; intros st g Hsize Hplayer; [reflexivity|].
  cbn [create_board]. rewrite Hsize, Hplayer. cbn [glm.x glm.y].
  destruct (create_board_pass_3x3 g) as (prev & bm & gm & g' & ->).
  rewrite bind_Ok_l. cbn [Z.eqb]. apply IH; assumption.
Qed.

(** C4 as stated fails: there is a state, with a board of the
    least size the data model allows and the token inside, from which
    [create_board] returns for no stream and no amount of fuel. *)
Lemma create_board_may_not_terminate :
  ~ (forall st g, fits (glm.x (board_size st)) (glm.y (board_size st)) ->
                  player_inside st ->
                  exists fuel r, create_board fuel st g = Ok r).
Proof.
  intros Hall.
  destruct (Hall level_3x3 (mkMt lcg 0)) as (fuel & r & Hrun).
  - vm_compute. intuition discriminate.
  - vm_compute. intuition discriminate.
  - rewrite create_board_3x3_never_returns in Hrun by reflexivity. discriminate.
Qed.

Lemma place_goals_grows (W H : Z) (player_pos : glm.vec2)
    (bm : list (option Mesh)) (budget : nat) :
  forall goals prev_goal gm g goals' prev_goal' gm' g',
    place_goals W H player_pos budget bm goals prev_goal gm g
      = Ok (goals', prev_goal', gm', g') ->
    0 <= goals -> goals <= goals'.
Proof.
  induction budget as [|budget IH];
    intros goals prev gm g goals' prev' gm' g' Hrun Hpos; [discriminate|].
  cbn [place_goals] in Hrun.
  destruct (Z.ltb_spec goals 2) as [Hlt|Hge].
  - bind_inv Hrun as [counts g1] Hwalks.
    bind_inv Hrun as cs Hscan.
    destruct cs as [|c cs]; [injection Hrun as <- <- <- <-; lia|].
    bind_inv Hrun as limit Hlimit. unfold mt in Hrun. cbv beta match zeta in Hrun.
    bind_inv Hrun as k Hk.
    bind_inv Hrun as gpos Hgpos.
    bind_inv Hrun as o Hold.
    destruct (decide (o = None)) as [->|]; [|discriminate].
    bind_inv Hrun as gm1 Hset.
    rewrite u32_small in Hrun by (change (2 ^ 32) with 4294967296; lia).
    apply IH in Hrun; lia.
  - injection Hrun as <- <- <- <-. lia.
Qed.

(** The placement loop places an objective exactly when its first round
    of walks counts a candidate. *)
Lemma place_goals_finds (W H : Z) (player_pos : glm.vec2)
    (bm : list (option Mesh)) (budget : nat) (prev_goal : glm.vec2)
    (gm : list (option Mesh)) (g g1 g' : mt19937) (board_counts : list Z)
    (goals' : Z) (prev_goal' : glm.vec2) (gm' : list (option Mesh)) :
  place_goals W H player_pos (S budget) bm 0 prev_goal gm g
    = Ok (goals', prev_goal', gm', g') ->
  random_walks W H bm gm prev_goal g = Ok (board_counts, g1) ->
  goals' <> 0 <->
  exists c, in_board W H (glm.x c) (glm.y c) /\
            candidate W player_pos gm board_counts c.
Proof.
  intros Hgoals Hwalks.
  cbn [place_goals] in Hgoals. cbn [Z.ltb Z.compare] in Hgoals.
  rewrite Hwalks, bind_Ok_l in Hgoals.
  bind_inv Hgoals as cs Hscan.
  pose proof (scan_possible_cells_spec _ _ _ _ _ _ Hscan) as Hcs.
  destruct cs as [|c cs].
  - injection Hgoals as <- <- <- <-. split; [contradiction|].
    intros (c & Hin & Hcand). exfalso.
    apply (not_elem_of_nil c), Hcs. split; assumption.
  - split.
    + intros _. exists c. apply Hcs. left.
    + intros _.
      bind_inv Hgoals as limit Hlimit. unfold mt in Hgoals.
      cbv beta match zeta in Hgoals.
      bind_inv Hgoals as k Hk.
      bind_inv Hgoals as gpos Hgpos.
      bind_inv Hgoals as o Hold.
      destruct (decide (o = None)) as [->|]; [|discriminate].
      bind_inv Hgoals as gm3 Hset.
      apply place_goals_grows in Hgoals; [|vm_compute; discriminate].
      change (u32 (0 + 1)) with 1 in Hgoals. lia.
Qed.

(** A pass places an objective exactly when its first round of walks
    counts a candidate. *)
Lemma create_board_pass_finds (W H : Z) (player_pos : glm.vec2) (g g' : mt19937)
    (goals : Z) (prev_goal : glm.vec2) (bm gm : list (option Mesh)) :
  create_board_pass W H player_pos g = Ok (goals, prev_goal, bm, gm, g') ->
  goals <> 0 <-> walks_find_candidate W H player_pos g.
Proof.
  unfold create_board_pass. intros Hrun.
  bind_inv Hrun as bm0 Hclear.
  bind_inv Hrun as [bm1 g1] Hwalls.
  bind_inv Hrun as [gm1 g2] Hgoops.
  bind_inv Hrun as [[[goals1 prev1] gm2] g3] Hgoals.
  injection Hrun as <- <- <- <- <-.
  assert (Hwalks : exists counts g4,
    random_walks W H bm1 gm1 player_pos g2 = Ok (counts, g4)).
  { cbn [place_goals] in Hgoals. cbn [Z.ltb Z.compare] in Hgoals.
    destruct (random_walks W H bm1 gm1 player_pos g2) as [[counts g4]| |];
      [eauto | discriminate..]. }
  destruct Hwalks as (counts & g4 & Hwalks).
  rewrite (place_goals_finds _ _ _ _ _ _ _ _ _ _ _ _ _ _ Hgoals Hwalks).
  split.
  - intros (c & Hin & Hcand).
    exists bm0, bm1, g1, gm1, g2, counts, g4, c. auto 10.
  - intros (bm0' & bm' & g1' & gm' & g2' & counts' & g3' & c & Hc & Hw & Hg
            & Hrw & Hin & Hcand).
    rewrite Hclear in Hc. injection Hc as <-.
    rewrite Hwalls in Hw. injection Hw as <- <-.
    rewrite Hgoops in Hg. injection Hg as <- <-.
    rewrite Hwalks in Hrw. injection Hrw as <- <-.
    exists c. split; assumption.
Qed.

(** With the token inside the border of a board of at most [2^24] cells,
    no call leaves defined behaviour. *)
Lemma create_board_no_fault (fuel : nat) :
  forall st g,
    fits (glm.x (board_size st)) (glm.y (board_size st)) ->
    glm.x (board_size st) * glm.y (board_size st) <= 2 ^ 24 ->
    player_inside st ->
    create_board fuel st g <> Fault.
Proof.
  induction fuel as [|fuel IH]; intros st g Hfits Hsmall Hin; [discriminate|].
  cbn [create_board].
  destruct (create_board_pass_total _ _ _ Hfits g Hsmall Hin)
    as (goals & prev & bm & gm & g1 & Hpass & Hpin & Hlen & _).
  rewrite Hpass, bind_Ok_l.
  destruct (Z.eqb_spec goals 0) as [->|Hne].
  - rewrite create_board_layers. apply IH; assumption.
  - rewrite vec_set_in_range; [discriminate|].
    destruct (cell_in_board _ _ _ _ Hfits (inside_in_board _ _ _ Hpin)) as [Hc Hr].
    unfold cell_of. rewrite Hc, Hlen. unfold board_cells. lia.
Qed.

(** C4, amended.  With the token inside the border of a board of at most
    [2^24] cells, every pass of the generator returns, and it places an
    objective exactly when its first round of walks counts a cell that
    lines 464-466 accept; no call of [create_board] leaves defined
    behaviour; and [create_board] returns if and only if some pass of its
    retry chain places an objective: its walks find such a cell, those of
    the passes before it found none.  The bound is that of the [float]
    arithmetic of lines 453-457: beyond it a step of a walk can lead
    nowhere, and then the loop of line 453 does not end (see
    [walk_slide_never_ends]). *)
Theorem create_board_returns_iff_placed (st : Game) (g : mt19937) :
  fits (glm.x (board_size st)) (glm.y (board_size st)) ->
  glm.x (board_size st) * glm.y (board_size st) <= 2 ^ 24 ->
  player_inside st ->
  (forall g0, exists goals prev_goal bm gm g1,
      create_board_pass (glm.x (board_size st)) (glm.y (board_size st))
        (player st) g0 = Ok (goals, prev_goal, bm, gm, g1) /\
      0 <= goals <= 2 /\
      (goals <> 0 <->
       walks_find_candidate (glm.x (board_size st)) (glm.y (board_size st))
         (player st) g0)) /\
  (forall fuel, create_board fuel st g <> Fault) /\
  ((exists fuel st' g', create_board fuel st g = Ok (st', g')) <->
   places_objective (glm.x (board_size st)) (glm.y (board_size st)) (player st) g).
Proof.
  intros Hfits Hsmall Hin. split.
  { intros g0.
    destruct (create_board_pass_total _ _ _ Hfits g0 Hsmall Hin)
      as (goals & prev & bm & gm & g' & Hpass & _).
    exists goals, prev, bm, gm, g'. split; [exact Hpass|].
    split; [apply (create_board_pass_goals _ _ _ _ _ _ _ _ _ Hpass)|].
    apply (create_board_pass_finds _ _ _ _ _ _ _ _ _ Hpass). }
  split; [intros fuel; apply create_board_no_fault; assumption|].
  split.
  - intros (fuel & st' & g' & Hrun). revert g Hrun.
    induction fuel as [|fuel IH]; intros g Hrun; [discriminate|].
    cbn [create_board] in Hrun.
    bind_inv Hrun as [[[[goals prev] bm] gm] g1] Hpass.
    destruct (Z.eqb_spec goals 0) as [->|Hne].
    + rewrite create_board_layers in Hrun.
      apply (places_later _ _ _ _ _ _ _ _ Hpass), IH, Hrun.
    + apply places_now, (create_board_pass_finds _ _ _ _ _ _ _ _ _ Hpass), Hne.
  - induction 1 as [g0 Hfind
                   |g0 prev bm gm g' Hpass _ (fuel & st' & g'' & Hrun)].
    + destruct (create_board_pass_total _ _ _ Hfits g0 Hsmall Hin)
        as (goals & prev & bm & gm & g' & Hpass & Hpin & Hlen & _).
      apply (create_board_pass_finds _ _ _ _ _ _ _ _ _ Hpass) in Hfind as Hne.
      exists 1%nat. cbn [create_board]. rewrite Hpass, bind_Ok_l.
      destruct (Z.eqb_spec goals 0) as [?|_]; [contradiction|].
      rewrite vec_set_in_range.
      * rewrite bind_Ok_l. eauto.
      * destruct (cell_in_board _ _ _ _ Hfits (inside_in_board _ _ _ Hpin)) as [Hc Hr].
        unfold cell_of. rewrite Hc, Hlen. unfold board_cells. lia.
    + exists (S fuel), st', g''. cbn [create_board]. rewrite Hpass, bind_Ok_l.
      cbn [Z.eqb]. rewrite create_board_layers. exact Hrun.
Qed.

Lemma create_board_returns_iff_placed_witness :
  (forall g0, exists goals prev_goal bm gm g1,
      create_board_pass 6 5 (glm.mk 1 1) g0 = Ok (goals, prev_goal, bm, gm, g1) /\
      0 <= goals <= 2 /\
      (goals <> 0 <-> walks_find_candidate 6 5 (glm.mk 1 1) g0)) /\
  (forall fuel, create_board fuel level_6x5 (mkMt lcg 0) <> Fault) /\
  ((exists fuel st' g', create_board fuel level_6x5 (mkMt lcg 0) = Ok (st', g')) <->
   places_objective 6 5 (glm.mk 1 1) (mkMt lcg 0)).
Proof.
  apply (create_board_returns_iff_placed level_6x5 (mkMt lcg 0)).
  - exact fits_6x5.
  - vm_compute. discriminate.
  - vm_compute. intuition discriminate.
Defined.

(** * What a regeneration keeps *)

(** C8 as stated fails: the token is not placed anew.  After a move the
    next board is built around the token where the move left it, not
    where the level started. *)
Lemma create_board_keeps_token :
  move_player 1 0 board_6x5 = Ok won_6x5 /\
  returned (create_board 3 won_6x5 (mkMt lcg 4014)) = Some (next_6x5, 8028) /\
  player next_6x5 = player won_6x5 /\
  player won_6x5 <> player board_6x5.
Proof.
  split; [exact board_6x5_won|]. split; [exact won_6x5_regenerated|].
  vm_compute. split; [reflexivity | discriminate].
Qed.

(** C8, amended.  A call of [create_board] that returns leaves the board
    size, the token position and the checkpoint counter as they were, and
    builds the two layers of the board from nothing, around the token:
    the layers it started from have no part in the result. *)
Theorem create_board_frame (fuel : nat) (st st' : Game) (g g' : mt19937) :
  create_board fuel st g = Ok (st', g') ->
  board_size st' = board_size st /\
  player st' = player st /\
  checkpoints st' = checkpoints st /\
  forall bm0 gm0, create_board fuel (with_board st bm0 gm0) g = Ok (st', g').
Proof.
  intros Hrun. pose proof Hrun as Hlast.
  apply create_board_last_pass in Hlast.
  destruct Hlast as (g0 & goals & prev & bm & gm & gm' & _ & _ & _ & ->).
  repeat (split; [reflexivity|]).
  intros bm0 gm0. rewrite create_board_layers. exact Hrun.
Qed.

Lemma create_board_frame_witness :
  board_size next_6x5 = board_size won_6x5 /\
  player next_6x5 = player won_6x5 /\
  checkpoints next_6x5 = checkpoints won_6x5.
Proof.
  destruct (returned_Ok _ _ _ won_6x5_regenerated) as (g' & Hrun & _).
  destruct (create_board_frame 3 won_6x5 next_6x5 (mkMt lcg 4014) g' Hrun)
    as (Hs & Hp & Hc & _).
  auto.
Defined.

(** * The token's cell *)

(** C10.  With the token inside the border, a call of [create_board] that
    returns leaves the token on a floor cell, never on a wall; and there
    are calls that leave goop on the token's cell. *)
Theorem create_board_token_cell :
  (forall fuel st st' g g',
      fits (glm.x (board_size st)) (glm.y (board_size st)) ->
      player_inside st ->
      create_board fuel st g = Ok (st', g') ->
      floor_at (glm.x (board_size st')) (board_meshes st')
               (glm.x (player st')) (glm.y (player st')) /\
      ~ is_wall (glm.x (board_size st')) (board_meshes st')
                (glm.x (player st')) (glm.y (player st'))) /\
  (exists fuel st st' g g',
      fits (glm.x (board_size st)) (glm.y (board_size st)) /\
      player_inside st /\
      create_board fuel st g = Ok (st', g') /\
      is_goop (glm.x (board_size st')) (goal_meshes st')
              (glm.x (player st')) (glm.y (player st'))).
Proof.
  split.
  - intros fuel st st' g g' Hfits Hin Hrun.
    apply create_board_last_pass in Hrun.
    destruct Hrun as (g0 & goals & prev & bm & gm & gm' & Hpass & _ & _ & ->).
    pose proof (create_board_pass_player _ _ _ Hfits _ _ _ _ _ _ Hin Hpass) as Hfl.
    cbn [with_board board_size board_meshes player].
    split; [exact Hfl|]. unfold is_wall, floor_at in *. congruence.
  - destruct (returned_Ok _ _ _ level_5x3_goop_on_player) as (g' & Hrun & _).
    exists 1%nat, level_5x3, board_goop_on_player, (mkMt stream_goop_on_player 0), g'.
    split; [exact fits_5x3|].
    split; [vm_compute; intuition discriminate|].
    split; [exact Hrun|]. reflexivity.
Qed.

Lemma create_board_token_cell_witness :
  floor_at 6 (board_meshes board_6x5) 1 1 /\
  ~ is_wall 6 (board_meshes board_6x5) 1 1.
Proof.
  destruct (returned_Ok _ _ _ level_6x5_generated) as (g' & Hrun & _).
  destruct create_board_token_cell as [Hfloor _].
  apply (Hfloor 3%nat level_6x5 board_6x5 (mkMt lcg 0) g').
  - exact fits_6x5.
  - vm_compute. intuition discriminate.
  - exact Hrun.
Defined.

(** * The checkpoint counter *)

(** C9.  A move adds one to the counter exactly when the token comes to
    rest on a checkpoint cell, which becomes a collected one; otherwise it
    leaves counter and overlay alone.  Over any series of moves the counter
    plus the number of checkpoint cells left is constant and a collected
    cell stays collected, so no cell is counted twice.  A give-up takes
    one off, not below zero; no other event changes the counter; and the
    counter never turns negative. *)
Theorem checkpoint_counter :
  (forall dx dy st st',
      move_player dx dy st = Ok st' ->
      let i := Z.to_nat (cell_of (glm.x (board_size st)) (player st')) in
      (goal_meshes st !! i = Some (Some checkpoint_mesh) /\
       checkpoints st' = checkpoints st + 1 /\
       goal_meshes st' = <[i := Some checkpoint_collected_mesh]> (goal_meshes st)) \/
      (goal_meshes st !! i <> Some (Some checkpoint_mesh) /\
       checkpoints st' = checkpoints st /\
       goal_meshes st' = goal_meshes st)) /\
  (forall moves st st',
      run_moves moves st = Ok st' ->
      checkpoints st' + Z.of_nat (count_mesh checkpoint_mesh (goal_meshes st'))
      = checkpoints st + Z.of_nat (count_mesh checkpoint_mesh (goal_meshes st)) /\
      forall i, goal_meshes st !! i = Some (Some checkpoint_collected_mesh) ->
                goal_meshes st' !! i = Some (Some checkpoint_collected_mesh)) /\
  (forall fuel evt st g handled st' g',
      handle_event fuel evt st g = Ok (handled, st', g') ->
      (0 <= checkpoints st -> 0 <= checkpoints st') /\
      match pressed evt with
      | Some k =>
          match step_of k with
          | Some (dx, dy) => move_player dx dy st = Ok st'
          | None =>
              match k with
              | SCANCODE_BACKSPACE =>
                  checkpoints st'
                  = (if 0 <? checkpoints st then checkpoints st - 1
                     else checkpoints st) /\
                  (0 <= checkpoints st ->
                   checkpoints st' = Z.max 0 (checkpoints st - 1))
              | _ => checkpoints st' = checkpoints st
              end
          end
      | None => st' = st
      end).
Proof.
  split; [exact move_player_counter|]. split.
  - intros moves st st'. unfold run_moves.
    apply (for_each_inv (fun s =>
      checkpoints s + Z.of_nat (count_mesh checkpoint_mesh (goal_meshes s))
      = checkpoints st + Z.of_nat (count_mesh checkpoint_mesh (goal_meshes st)) /\
      forall i, goal_meshes st !! i = Some (Some checkpoint_collected_mesh) ->
                goal_meshes s !! i = Some (Some checkpoint_collected_mesh))).
    + intros m s s' _ [Hsum Hcol] Hmove.
      apply move_player_counter_sum in Hmove. destruct Hmove as [Hsum' Hcol'].
      split; [lia | auto].
    + auto.
  - intros fuel evt st g handled st' g' Hrun.
    unfold handle_event in Hrun. unfold pressed.
    destruct (keydown evt), (key_repeat evt); cbn [andb negb] in *;
      try (injection Hrun as <- <- <-; split; [auto | reflexivity]).
    destruct (scancode evt); cbn [step_of].
    1-4: bind_inv Hrun as st1 Hmove; injection Hrun as <- <- <-;
         (split; [|exact Hmove]);
         apply move_player_counter in Hmove; cbv zeta in Hmove;
         destruct Hmove as [(_ & -> & _)|(_ & -> & _)]; lia.
    + bind_inv Hrun as [st1 g1] Hgen. injection Hrun as <- <- <-.
      apply create_board_last_pass in Hgen.
      destruct Hgen as (g0 & goals & prev & bm & gm & gm' & _ & _ & _ & ->).
      cbn [with_board checkpoints].
      destruct (Z.ltb_spec 0 (checkpoints st)); cbn [checkpoints]; lia.
    + destruct (won st).
      * bind_inv Hrun as [st1 g1] Hgen. injection Hrun as <- <- <-.
        apply create_board_last_pass in Hgen.
        destruct Hgen as (g0 & goals & prev & bm & gm & gm' & _ & _ & _ & ->).
        cbn [with_board checkpoints]. auto.
      * injection Hrun as <- <- <-. auto.
    + injection Hrun as <- <- <-. auto.
Qed.

Lemma checkpoint_counter_witness :
  run_moves [(0, 1); (0, -1); (0, 1)] checkpoint_5x5 = Ok revisited_5x5 /\
  checkpoints revisited_5x5
    + Z.of_nat (count_mesh checkpoint_mesh (goal_meshes revisited_5x5))
  = checkpoints checkpoint_5x5
    + Z.of_nat (count_mesh checkpoint_mesh (goal_meshes checkpoint_5x5)).
Proof.
  assert (Hrun : run_moves [(0, 1); (0, -1); (0, 1)] checkpoint_5x5 = Ok revisited_5x5)
    by (vm_compute; reflexivity).
  split; [exact Hrun|].
  destruct checkpoint_counter as (_ & Hmoves & _).
  destruct (Hmoves _ _ _ Hrun) as [Hsum _]. exact Hsum.
Defined.

(** Going to the checkpoint, back, and to it again counts it once. *)
Example checkpoint_counted_once :
  checkpoints <$> returned_state (run_moves [(0, 1)] checkpoint_5x5) = Some 1 /\
  checkpoints <$> returned_state (run_moves [(0, 1); (0, -1); (0, 1)] checkpoint_5x5)
  = Some 1.
Proof. vm_compute. auto. Qed.

(** * The cut of the candidate list *)

(** C6.  The first placement round on the 4x4 board: three candidates,
    each counted 500 times.  Line 481 sets [limit] to 1, line 483 compares
    the candidates at [limit] and [limit + 1], not those at [limit - 1] and
    [limit], and stops at 2: the third candidate is cut off from the two
    it ties with. *)
Theorem pick_limit_splits_tie_group :
  clear_board 4 4 = Ok open_4x4 /\
  returned (place_walls 4 4 (glm.mk 1 1) open_4x4 (mkMt stream_4x4 0))
    = Some (open_4x4, 5) /\
  returned (place_goops 4 4 open_4x4 (replicate 16 None) (mkMt stream_4x4 5))
    = Some (replicate 16 None, 6) /\
  returned (random_walks 4 4 open_4x4 (replicate 16 None) (glm.mk 1 1)
              (mkMt stream_4x4 6))
    = Some (board_counts_4x4, 2006) /\
  scan_possible_cells 4 4 (glm.mk 1 1) (replicate 16 None) board_counts_4x4
    = Ok [glm.mk 2 1; glm.mk 1 2; glm.mk 2 2] /\
  stable_sort (count_of 4 board_counts_4x4) [glm.mk 2 1; glm.mk 1 2; glm.mk 2 2]
    = [glm.mk 2 1; glm.mk 1 2; glm.mk 2 2] /\
  pick_limit 4 board_counts_4x4 [glm.mk 2 1; glm.mk 1 2; glm.mk 2 2] = Ok 2 /\
  cutoff_splits_tie 4 board_counts_4x4 [glm.mk 2 1; glm.mk 1 2; glm.mk 2 2] 2.
Proof.
  repeat (split; [vm_compute; reflexivity|]).
  exists 2, (glm.mk 1 2), (glm.mk 2 2).
  split; [lia|]. split; [reflexivity|]. split; reflexivity.
Qed.

(** * The candidate cells *)

Example open_5x3_border : border_walls 5 3 open_5x3.
Proof. apply border_wallsb_correct. vm_compute. reflexivity. Qed.

Example corridor_walks :
  returned (random_walks 5 3 open_5x3 goal_meshes_5x3 (glm.mk 1 1)
              (mkMt stream_5x3 8))
  = Some (board_counts_5x3, 2008).
Proof. vm_compute. reflexivity. Qed.

(** C7 as stated fails.  In the first placement round on the
    corridor the cell (2,1) is inside the border, was counted a hundred
    times, is not the token's cell and holds neither checkpoint nor goal,
    only goop; it is not among the candidates. *)
Lemma scan_skips_visited_goop :
  clear_board 5 3 = Ok open_5x3 /\
  returned (place_walls 5 3 (glm.mk 1 1) open_5x3 (mkMt stream_5x3 0))
    = Some (open_5x3, 5) /\
  returned (place_goops 5 3 open_5x3 (replicate 15 None) (mkMt stream_5x3 5))
    = Some (goal_meshes_5x3, 8) /\
  returned (random_walks 5 3 open_5x3 goal_meshes_5x3 (glm.mk 1 1)
              (mkMt stream_5x3 8))
    = Some (board_counts_5x3, 2008) /\
  scan_possible_cells 5 3 (glm.mk 1 1) goal_meshes_5x3 board_counts_5x3
    = Ok [glm.mk 3 1] /\
  spec_candidate 5 3 (glm.mk 1 1) goal_meshes_5x3 board_counts_5x3 (glm.mk 2 1) /\
  goal_meshes_5x3 !! Z.to_nat (cell_of 5 (glm.mk 2 1)) = Some (Some goop_mesh) /\
  ~ (forall c, c ∈ [glm.mk 3 1] <->
               spec_candidate 5 3 (glm.mk 1 1) goal_meshes_5x3 board_counts_5x3 c).
Proof.
  assert (Hspec : spec_candidate 5 3 (glm.mk 1 1) goal_meshes_5x3
                    board_counts_5x3 (glm.mk 2 1)).
  { split; [vm_compute; intuition discriminate|].
    split; [exists 100; split; [reflexivity | lia]|].
    split; [discriminate|]. split; vm_compute; discriminate. }
  split; [vm_compute; reflexivity|].
  split; [vm_compute; reflexivity|].
  split; [vm_compute; reflexivity|].
  split; [exact corridor_walks|].
  split; [vm_compute; reflexivity|].
  split; [exact Hspec|]. split; [reflexivity|].
  intros Hall. apply Hall in Hspec.
  apply list_elem_of_singleton in Hspec. discriminate.
Qed.

(** C7, amended.  In a placement round on a board of at most [2^24]
    cells with wall border, the walks starting inside it, the candidates
    are exactly the cells inside the border that were counted, are not the
    token's cell and have an empty overlay: a cell that holds a
    checkpoint, a goal or goop is none.  The bound is that of the [float]
    index of line 457, which beyond it can count a cell of the border. *)
Theorem placement_candidates (W H : Z) (player_pos prev_goal : glm.vec2)
    (bm gm : list (option Mesh)) (g g' : mt19937) (board_counts : list Z)
    (cs : list glm.vec2) :
  fits W H -> W * H <= 2 ^ 24 ->
  length bm = board_cells W H -> length gm = board_cells W H ->
  border_walls W H bm -> inside W H prev_goal ->
  random_walks W H bm gm prev_goal g = Ok (board_counts, g') ->
  scan_possible_cells W H player_pos gm board_counts = Ok cs ->
  forall c, c ∈ cs <->
    inside W H c /\
    (exists n, board_counts !! Z.to_nat (cell_of W c) = Some n /\ 0 < n) /\
    c <> player_pos /\
    gm !! Z.to_nat (cell_of W c) = Some None.
Proof.
  intros Hfits Hsmall Hlb Hlg Hborder Hin Hwalks Hscan c.
  destruct (random_walks_total W H Hfits bm gm Hlb Hlg Hborder Hsmall prev_goal g Hin)
    as (counts1 & g1 & Hwalks1 & _ & Hci).
  rewrite Hwalks in Hwalks1. injection Hwalks1 as <- <-.
  rewrite (scan_possible_cells_spec W H player_pos gm board_counts cs Hscan c).
  unfold candidate. split.
  - intros (Hboard & Hne & Hnull & n & Hn & Hpos).
    split; [apply (counted_inside W H Hfits board_counts c n); assumption|].
    eauto.
  - intros (Hinside & Hn & Hne & Hnull).
    split; [apply inside_in_board, Hinside | auto].
Qed.

Lemma placement_candidates_witness :
  glm.mk 2 1 ∈ [glm.mk 3 1] <->
    inside 5 3 (glm.mk 2 1) /\
    (exists n, board_counts_5x3 !! Z.to_nat (cell_of 5 (glm.mk 2 1)) = Some n /\ 0 < n) /\
    glm.mk 2 1 <> glm.mk 1 1 /\
    goal_meshes_5x3 !! Z.to_nat (cell_of 5 (glm.mk 2 1)) = Some None.
Proof.
  destruct (returned_Ok _ _ _ corridor_walks) as (g' & Hwalks & _).
  apply (placement_candidates 5 3 (glm.mk 1 1) (glm.mk 1 1) open_5x3
           goal_meshes_5x3 (mkMt stream_5x3 8) g' board_counts_5x3 [glm.mk 3 1]).
  - exact fits_5x3.
  - vm_compute. discriminate.
  - reflexivity.
  - reflexivity.
  - exact open_5x3_border.
  - vm_compute. intuition discriminate.
  - exact Hwalks.
  - vm_compute. reflexivity.
Defined.

(** * More about the player's move *)

(** A move on a well-formed board, spelled out: the slide of the token is
    the slide rule, it ends inside the border, and the state it leaves
    is the old one but for the token, the overlay of its cell, the counter
    and the win flag. *)
Lemma move_player_returns (st : Game) (d : glm.vec2) :
  board_ok st -> player_inside st -> is_direction d ->
  exists k q o,
    0 <= k /\ q = ahead (player st) d k /\
    (forall i, 1 <= i <= k ->
       ~ wall_at (glm.x (board_size st)) (board_meshes st) (ahead (player st) d i)) /\
    (wall_at (glm.x (board_size st)) (board_meshes st) (ahead (player st) d (k + 1)) \/
     (1 <= k /\ goop_at (glm.x (board_size st)) (goal_meshes st) q)) /\
    slide (glm.x (board_size st)) (S (length (board_meshes st)))
      (board_meshes st) (goal_meshes st) (player st) d = Ok q /\
    inside (glm.x (board_size st)) (glm.y (board_size st)) q /\
    goal_meshes st !! Z.to_nat (cell_of (glm.x (board_size st)) q) = Some o /\
    move_player (glm.x d) (glm.y d) st
    = Ok (mkGame (board_size st) (board_meshes st)
            (if decide (o = Some checkpoint_mesh)
             then <[Z.to_nat (cell_of (glm.x (board_size st)) q)
                    := Some checkpoint_collected_mesh]> (goal_meshes st)
             else goal_meshes st)
            q
            (if decide (o = Some checkpoint_mesh)
             then checkpoints st + 1 else checkpoints st)
            (bool_decide (o = Some goal_mesh))).
Proof.
  intros (Hfits & Hlb & Hlg & Hborder) Hin Hd.
  unfold player_inside in Hin. unfold perimeter_is_wall in Hborder.
  set (W := glm.x (board_size st)) in *.
  set (H := glm.y (board_size st)) in *.
  set (p := player st) in *.
  pose proof Hfits as (HW & HH & H32).
  destruct Hin as [Hx Hy].
  assert (HW32 : W < 2 ^ 32) by nia.
  assert (HH32 : H < 2 ^ 32) by nia.
  unfold move_player. fold W H p.
  rewrite !u32_small by lia.
  destruct (Z.leb_spec 1 (glm.x p)) as [_|?]; [|lia].
  destruct (Z.ltb_spec (glm.x p + 1) W) as [_|?]; [|lia].
  destruct (Z.leb_spec 1 (glm.y p)) as [_|?]; [|lia].
  destruct (Z.ltb_spec (glm.y p + 1) H) as [_|?]; [|lia].
  cbn [andb negb].
  rewrite (slide_player_slide W H Hfits _ _ Hlb Hlg Hborder
             (S (length (board_meshes st))) p d Hd (conj Hx Hy)).
  destruct (slide_spec W H Hfits _ _ Hlb Hlg Hborder
              (S (length (board_meshes st))) p d Hd (conj Hx Hy))
    as (k & Hk & Hslide & Hkin & Hw & _ & Hstop).
  { apply room_le_cells; [exact Hfits | exact Hlb | exact Hd | exact (conj Hx Hy)]. }
  rewrite Hslide, bind_Ok_l.
  set (q := ahead p d k) in *.
  destruct (cell_in_board W H _ _ Hfits (inside_in_board _ _ _ Hkin)) as [Hcell Hr].
  assert (Hrange : 0 <= cell_of W q < Z.of_nat (length (goal_meshes st))).
  { unfold cell_of. rewrite Hcell, Hlg. unfold board_cells. lia. }
  destruct (vec_get_in_range _ _ Hrange) as [o Ho]. rewrite Ho, bind_Ok_l.
  apply vec_get_Ok in Ho. destruct Ho as [_ Ho].
  exists k, q, o. split; [exact Hk|]. split; [reflexivity|]. split; [exact Hw|].
  split; [exact Hstop|].
  split; [reflexivity|]. split; [exact Hkin|]. split; [exact Ho|].
  destruct (decide (o = Some checkpoint_mesh)) as [->|Hne].
  - rewrite vec_set_in_range by exact Hrange. rewrite !bind_Ok_l.
    assert (Hget : vec_get (<[Z.to_nat (cell_of W q) := Some checkpoint_collected_mesh]>
                              (goal_meshes st)) (cell_of W q)
                   = Ok (Some checkpoint_collected_mesh)).
    { apply vec_get_Ok. split; [lia|]. apply list_lookup_insert_eq. lia. }
    rewrite Hget, bind_Ok_l. reflexivity.
  - rewrite bind_Ok_l.
    assert (Hget : vec_get (goal_meshes st) (cell_of W q) = Ok o).
    { apply vec_get_Ok. split; [lia | exact Ho]. }
    rewrite Hget, bind_Ok_l. reflexivity.
Qed.

(** A move keeps the board well formed and the token inside the border. *)
Lemma move_player_keeps (st st' : Game) (d : glm.vec2) :
  board_ok st -> player_inside st -> is_direction d ->
  move_player (glm.x d) (glm.y d) st = Ok st' ->
  board_ok st' /\ player_inside st'.
Proof.
  intros Hok Hin Hd Hrun.
  destruct (move_player_returns st d Hok Hin Hd)
    as (k & q & o & _ & _ & _ & _ & _ & Hqin & Ho & Hmove).
  rewrite Hmove in Hrun. injection Hrun as <-.
  destruct Hok as (Hfits & Hlb & Hlg & Hborder).
  split; [|exact Hqin].
  split; [exact Hfits|]. split; [exact Hlb|]. split; [|exact Hborder].
  cbn [goal_meshes board_size]. destruct (decide (o = Some checkpoint_mesh)).
  - rewrite length_insert. exact Hlg.
  - exact Hlg.
Qed.

(** After a move the token is not on a wall. *)
Lemma move_player_not_wall (st st' : Game) (d : glm.vec2) :
  board_ok st -> player_inside st -> is_direction d ->
  ~ wall_at (glm.x (board_size st)) (board_meshes st) (player st) ->
  move_player (glm.x d) (glm.y d) st = Ok st' ->
  ~ wall_at (glm.x (board_size st')) (board_meshes st') (player st').
Proof.
  intros Hok Hin Hd Hnw Hrun.
  destruct (move_player_returns st d Hok Hin Hd)
    as (k & q & o & Hk & Hq & Hw & _ & _ & _ & _ & Hmove).
  rewrite Hmove in Hrun. injection Hrun as <-.
  cbn [board_size board_meshes player]. subst q.
  destruct (decide (k = 0)) as [->|Hne]; [rewrite ahead_0; exact Hnw|].
  apply Hw. lia.
Qed.

(** X1.  After a move that returns, the win flag is set exactly when the
    token rests on the goal: its cell holds [&goal_mesh] in the overlay
    after the move and, as a move neither puts nor takes a goal, in the
    overlay before it. *)
Theorem move_player_won (dx dy : Z) (st st' : Game) :
  move_player dx dy st = Ok st' ->
  (won st' = true <->
   goal_meshes st' !! Z.to_nat (cell_of (glm.x (board_size st')) (player st'))
   = Some (Some goal_mesh)) /\
  (won st' = true <->
   goal_meshes st !! Z.to_nat (cell_of (glm.x (board_size st)) (player st'))
   = Some (Some goal_mesh)).
Proof.
  unfold move_player. intros Hrun.
  destruct (negb _); [discriminate|]. destruct (negb _); [discriminate|].
  bind_inv Hrun as p Hslide.
  bind_inv Hrun as o Ho.
  bind_inv Hrun as [gm cp] Hcollect.
  bind_inv Hrun as o' Ho'.
  injection Hrun as <-. cbn.
  apply vec_get_Ok in Ho, Ho'. destruct Ho as [_ Ho], Ho' as [_ Ho'].
  rewrite bool_decide_eq_true, Ho', Ho.
  destruct (decide (o = Some checkpoint_mesh)) as [->|Hne].
  - bind_inv Hcollect as gm1 Hset. injection Hcollect as <- <-.
    apply vec_set_Ok in Hset. destruct Hset as [Hr ->].
    rewrite list_lookup_insert_eq in Ho' by lia. injection Ho' as <-.
    split; split; intros Heq; congruence.
  - injection Hcollect as <- <-. rewrite Ho in Ho'. injection Ho' as <-.
    split; split; intros Heq; congruence.
Qed.

Lemma move_player_won_witness :
  (won won_6x5 = true <->
   goal_meshes won_6x5 !! Z.to_nat (cell_of (glm.x (board_size won_6x5)) (player won_6x5))
   = Some (Some goal_mesh)) /\
  (won won_6x5 = true <->
   goal_meshes board_6x5 !! Z.to_nat (cell_of (glm.x (board_size board_6x5)) (player won_6x5))
   = Some (Some goal_mesh)).
Proof.
  apply (move_player_won 1 0 board_6x5 won_6x5). vm_compute. reflexivity.
Defined.

(** X2.  The asserts of lines 505-506.  With token coordinates below
    [2^32 - 1], so that [player.x + 1] does not wrap around, a call of
    [move_player] whose token is not strictly inside the border stops at an
    assert, whatever the step. *)
Theorem move_player_asserts (dx dy : Z) (st : Game) :
  0 <= glm.x (player st) -> glm.x (player st) + 1 < 2 ^ 32 ->
  0 <= glm.y (player st) -> glm.y (player st) + 1 < 2 ^ 32 ->
  ~ player_inside st -> move_player dx dy st = Fault.
Proof.
  intros Hx0 Hx1 Hy0 Hy1 Hout. unfold move_player. rewrite !u32_small by lia.
  unfold player_inside, inside in Hout.
  destruct (Z.leb_spec 1 (glm.x (player st))),
           (Z.ltb_spec (glm.x (player st) + 1) (glm.x (board_size st)));
    cbn [andb negb]; try reflexivity.
  destruct (Z.leb_spec 1 (glm.y (player st))),
           (Z.ltb_spec (glm.y (player st) + 1) (glm.y (board_size st)));
    cbn [andb negb]; try reflexivity.
  lia.
Qed.

Lemma move_player_asserts_witness : move_player 1 0 cornered_5x5 = Fault.
Proof.
  apply (move_player_asserts 1 0 cornered_5x5); simpl; try lia.
  unfold player_inside, inside. simpl. lia.
Defined.

(** A token in front of a wall, on a cell that holds no checkpoint, with the
    win flag as the last move left it: the move changes nothing. *)
Lemma move_player_blocked (st : Game) (d : glm.vec2) (o : option Mesh) :
  board_ok st -> player_inside st -> is_direction d ->
  wall_at (glm.x (board_size st)) (board_meshes st) (ahead (player st) d 1) ->
  goal_meshes st !! Z.to_nat (cell_of (glm.x (board_size st)) (player st)) = Some o ->
  o <> Some checkpoint_mesh -> won st = bool_decide (o = Some goal_mesh) ->
  move_player (glm.x d) (glm.y d) st = Ok st.
Proof.
  intros Hok Hin Hd Hwall Ho Hne Hwon.
  destruct (move_player_returns st d Hok Hin Hd)
    as (k & q & o' & Hk & Hq & Hw & _ & _ & _ & Ho' & Hmove).
  assert (Hk0 : k = 0).
  { destruct (decide (k = 0)) as [Hz|Hnz]; [exact Hz|].
    exfalso. apply (Hw 1); [lia | exact Hwall]. }
  subst k. rewrite ahead_0 in Hq. subst q.
  rewrite Ho in Ho'. injection Ho' as <-.
  rewrite Hmove.
  destruct (decide (o = Some checkpoint_mesh)); [contradiction|].
  rewrite <- Hwon. destruct st. reflexivity.
Qed.

(** X3.  The same arrow twice.  If the token did not come to rest on goop,
    a second move in the same direction changes nothing: the token, the
    overlay, the counter and the win flag stay as the first move left
    them. *)
Theorem move_player_again (st st1 : Game) (d : glm.vec2) :
  board_ok st -> player_inside st -> is_direction d ->
  move_player (glm.x d) (glm.y d) st = Ok st1 ->
  ~ goop_at (glm.x (board_size st1)) (goal_meshes st1) (player st1) ->
  move_player (glm.x d) (glm.y d) st1 = Ok st1.
Proof.
  intros Hok Hin Hd Hrun Hng.
  destruct (move_player_keeps st st1 d Hok Hin Hd Hrun) as [Hok1 Hin1].
  destruct (move_player_returns st d Hok Hin Hd)
    as (k & q & o & Hk & Hq & Hw & Hstop & _ & Hqin & Ho & Hmove).
  rewrite Hmove in Hrun. injection Hrun as <-.
  cbn [board_size goal_meshes player board_meshes] in Hng.
  apply move_player_blocked
    with (o := if decide (o = Some checkpoint_mesh)
               then Some checkpoint_collected_mesh else o);
    [exact Hok1 | exact Hin1 | exact Hd | | | |];
    cbn [board_size goal_meshes player board_meshes won].
  - destruct Hstop as [Hwall|[_ Hgoop]].
    + replace (ahead q d 1) with (ahead (player st) d (k + 1)); [exact Hwall|].
      rewrite Hq. unfold ahead. cbn [glm.x glm.y]. f_equal; lia.
    + exfalso. apply Hng. unfold goop_at, is_goop in *.
      fold (cell_of (glm.x (board_size st)) q) in *.
      rewrite Hgoop in Ho. injection Ho as <-.
      destruct (decide (Some goop_mesh = Some checkpoint_mesh)); [discriminate|].
      exact Hgoop.
  - destruct (decide (o = Some checkpoint_mesh)); [|exact Ho].
    apply list_lookup_insert_eq, lookup_lt_is_Some. eauto.
  - destruct (decide (o = Some checkpoint_mesh)); [discriminate | assumption].
  - destruct (decide (o = Some checkpoint_mesh)) as [->|]; [|reflexivity].
    rewrite !bool_decide_eq_false_2 by discriminate. reflexivity.
Qed.

Lemma move_player_again_witness : move_player 0 1 revisited_5x5 = Ok revisited_5x5.
Proof.
  apply (move_player_again checkpoint_5x5 revisited_5x5 (glm.mk 0 1)).
  - split; [vm_compute; intuition discriminate|].
    split; [reflexivity|]. split; [reflexivity|].
    apply border_wallsb_correct. vm_compute. reflexivity.
  - vm_compute. intuition discriminate.
  - right. right. right. reflexivity.
  - vm_compute. reflexivity.
  - vm_compute. discriminate.
Defined.

(** X4.  The null step.  With the token on a cell that is neither wall nor
    goop, the loop of lines 507-512 run with [dx = dy = 0] uses up every
    budget: [move_player(0, 0)] does not return. *)
Theorem move_player_null_step (st : Game) :
  board_ok st -> player_inside st ->
  ~ goop_at (glm.x (board_size st)) (goal_meshes st) (player st) ->
  ~ wall_at (glm.x (board_size st)) (board_meshes st) (player st) ->
  (forall budget,
     slide_player budget (glm.x (board_size st)) (board_meshes st) (goal_meshes st)
       (player st) 0 0 = OutOfFuel) /\
  move_player 0 0 st = OutOfFuel.
Proof.
  intros (Hfits & Hlb & Hlg & Hborder) Hin Hng Hnw.
  unfold player_inside in Hin.
  set (W := glm.x (board_size st)) in *.
  set (H := glm.y (board_size st)) in *.
  set (p := player st) in *.
  pose proof Hfits as (HW & HH & H32).
  pose proof Hin as [Hx Hy].
  assert (HW32 : W < 2 ^ 32) by nia.
  assert (HH32 : H < 2 ^ 32) by nia.
  destruct (cell_in_board W H _ _ Hfits (inside_in_board _ _ _ Hin)) as [Hcell Hr].
  assert (Hp : glm.mk (u32 (glm.x p + 0)) (u32 (glm.y p + 0)) = p).
  { rewrite !Z.add_0_r, !u32_small by lia. destruct p. reflexivity. }
  destruct (vec_get_in_range (board_meshes st) (cell_of W p)) as [m Hm].
  { unfold cell_of. rewrite Hcell, Hlb. unfold board_cells. lia. }
  destruct (vec_get_in_range (goal_meshes st) (cell_of W p)) as [o Ho].
  { unfold cell_of. rewrite Hcell, Hlg. unfold board_cells. lia. }
  assert (Hloop : forall budget,
    slide_player budget W (board_meshes st) (goal_meshes st) p 0 0 = OutOfFuel).
  { induction budget as [|budget IH]; [reflexivity|].
    cbn [slide_player]. rewrite Hp, Hm, bind_Ok_l.
    apply vec_get_Ok in Hm. destruct Hm as [_ Hm].
    destruct (decide (m ≠ Some wall_mesh)) as [_|Heq].
    - rewrite Ho, bind_Ok_l. apply vec_get_Ok in Ho. destruct Ho as [_ Ho].
      destruct (decide (o = Some goop_mesh)) as [->|_]; [|exact IH].
      exfalso. apply Hng. exact Ho.
    - apply dec_stable in Heq. subst m. exfalso. apply Hnw. exact Hm. }
  split; [exact Hloop|].
  unfold move_player. fold W H p. rewrite !u32_small by lia.
  destruct (Z.leb_spec 1 (glm.x p)) as [_|?]; [|lia].
  destruct (Z.ltb_spec (glm.x p + 1) W) as [_|?]; [|lia].
  destruct (Z.leb_spec 1 (glm.y p)) as [_|?]; [|lia].
  destruct (Z.ltb_spec (glm.y p + 1) H) as [_|?]; [|lia].
  cbn [andb negb]. rewrite Hloop. reflexivity.
Qed.

Lemma move_player_null_step_witness :
  (forall budget,
     slide_player budget (glm.x (board_size sticky_5x5)) (board_meshes sticky_5x5)
       (goal_meshes sticky_5x5) (player sticky_5x5) 0 0 = OutOfFuel) /\
  move_player 0 0 sticky_5x5 = OutOfFuel.
Proof.
  apply (move_player_null_step sticky_5x5).
  - split; [vm_compute; intuition discriminate|].
    split; [reflexivity|]. split; [reflexivity|].
    apply border_wallsb_correct. vm_compute. reflexivity.
  - vm_compute. intuition discriminate.
  - vm_compute. discriminate.
  - vm_compute. discriminate.
Defined.

(** * Walks and moves *)

Lemma default_last_cons {A : Type} (p q : A) (qs : list A) :
  default p (last (q :: qs)) = default q (last qs).
Proof. rewrite last_cons. destruct (last qs); reflexivity. Qed.

Lemma walk_path_app (W : Z) (bm gm : list (option Mesh)) (ds1 ds2 : list glm.vec2) :
  forall p qs1 qs2,
    walk_path W bm gm ds1 p = Ok qs1 ->
    walk_path W bm gm ds2 (default p (last qs1)) = Ok qs2 ->
    walk_path W bm gm (ds1 ++ ds2) p = Ok (qs1 ++ qs2).
Proof.
  induction ds1 as [|d ds1 IH]; intros p qs1 qs2 H1 H2.
  - injection H1 as <-. exact H2.
  - cbn [walk_path] in H1. bind_inv H1 as q Hq. bind_inv H1 as qs Hqs.
    injection H1 as <-. rewrite default_last_cons in H2.
    cbn [app walk_path]. rewrite Hq, bind_Ok_l.
    rewrite (IH q qs qs2 Hqs H2), bind_Ok_l. reflexivity.
Qed.

Lemma same_goop_insert (gm : list (option Mesh)) (i : nat) (old new : option Mesh) :
  gm !! i = Some old -> old <> Some goop_mesh -> new <> Some goop_mesh ->
  same_goop gm (<[i := new]> gm).
Proof.
  intros Hi Hold Hnew. split; [apply length_insert|].
  intros j. destruct (decide (i = j)) as [<-|Hne].
  - rewrite list_lookup_insert_eq by (apply lookup_lt_is_Some; eauto).
    rewrite Hi. split; congruence.
  - rewrite list_lookup_insert_ne by exact Hne. tauto.
Qed.

Lemma vec_get_same_goop (gm gm' : list (option Mesh)) (i : Z) :
  same_goop gm gm' ->
  match vec_get gm i, vec_get gm' i with
  | Ok o, Ok o' => o = Some goop_mesh <-> o' = Some goop_mesh
  | Fault, Fault => True
  | _, _ => False
  end.
Proof.
  intros [Hl Hg]. unfold vec_get. destruct (0 <=? i); [|exact I].
  specialize (Hg (Z.to_nat i)).
  destruct (gm !! Z.to_nat i) as [o|] eqn:Ho, (gm' !! Z.to_nat i) as [o'|] eqn:Ho'.
  - split; intros ->.
    + destruct Hg as [_ Hg]. specialize (Hg eq_refl). congruence.
    + destruct Hg as [Hg _]. specialize (Hg eq_refl). congruence.
  - apply lookup_lt_Some in Ho. apply lookup_ge_None in Ho'. lia.
  - apply lookup_lt_Some in Ho'. apply lookup_ge_None in Ho. lia.
  - exact I.
Qed.

Lemma slide_same_goop (W : Z) (bm gm gm' : list (option Mesh)) (d : glm.vec2) :
  same_goop gm gm' ->
  forall n p, slide W n bm gm' p d = slide W n bm gm p d.
Proof.
  intros Hsame. induction n as [|n IH]; intros p; [reflexivity|].
  cbn [slide].
  destruct (vec_get bm (exact_cell W (glm.add p d))) as [m| |]; try reflexivity.
  rewrite !bind_Ok_l. destruct (decide (m ≠ Some wall_mesh)); [|reflexivity].
  pose proof (vec_get_same_goop gm gm' (exact_cell W (glm.add p d)) Hsame) as Hg.
  destruct (vec_get gm (exact_cell W (glm.add p d))) as [o| |],
           (vec_get gm' (exact_cell W (glm.add p d))) as [o'| |];
    try contradiction; try reflexivity.
  rewrite !bind_Ok_l.
  destruct (decide (o = Some goop_mesh)), (decide (o' = Some goop_mesh));
    try tauto. apply IH.
Qed.

Lemma walk_path_same_goop (W : Z) (bm gm gm' : list (option Mesh))
    (ds : list glm.vec2) :
  same_goop gm gm' ->
  forall p, walk_path W bm gm' ds p = walk_path W bm gm ds p.
Proof.
  intros Hsame. induction ds as [|d ds IH]; intros p; [reflexivity|].
  cbn [walk_path]. rewrite (slide_same_goop W bm gm gm' d Hsame).
  destruct (slide W (S (length bm)) bm gm p d) as [q| |]; try reflexivity.
  rewrite !bind_Ok_l, IH. reflexivity.
Qed.

Section Reach.
Variable W H : Z.
Hypothesis Hfits : fits W H.
Variable bm gm : list (option Mesh).
Hypothesis Hlen_bm : length bm = board_cells W H.
Hypothesis Hlen_gm : length gm = board_cells W H.
Hypothesis Hborder : border_walls W H bm.
Hypothesis Hsmall : W * H <= 2 ^ 24.
Variable prev : glm.vec2.

Lemma walk_step_reach (s s' : glm.vec2 * list Z * mt19937) :
  walk_inv W H s /\ walk_reach W H bm gm prev s ->
  walk_step W bm gm s = Ok s' ->
  walk_inv W H s' /\ walk_reach W H bm gm prev s'.
Proof.
  intros [Hinv Hreach] Hrun.
  destruct (walk_step_total W H Hfits bm gm Hlen_bm Hlen_gm Hborder Hsmall s Hinv)
    as (s'' & Hrun' & Hinv').
  rewrite Hrun in Hrun'. injection Hrun' as <-. split; [exact Hinv'|].
  destruct s as [[p counts] g].
  destruct Hinv as (Hin & Hlen & Hci).
  destruct Hreach as ((ds & qs & Hds & Hpath & Hend) & Hnw & Hcr).
  simpl in Hin, Hlen, Hci, Hend, Hnw, Hcr.
  unfold walk_step, mt in Hrun. cbv beta match zeta in Hrun.
  destruct (directions_get (u32 (outputs g (drawn g)) mod 4)) as (d & Hdget & Hd).
  { apply Z.mod_pos_bound. lia. }
  rewrite Hdget, bind_Ok_l in Hrun.
  rewrite (walk_slide_slide W H Hfits Hsmall bm gm _ p d Hlen_bm Hborder Hd Hin)
    in Hrun.
  destruct (slide_spec W H Hfits bm gm Hlen_bm Hlen_gm Hborder
              (S (length bm)) p d Hd Hin)
    as (k & Hk & Hslide & Hkin & Hw & _).
  { apply room_le_cells; assumption. }
  rewrite Hslide, bind_Ok_l in Hrun.
  rewrite (fcell_in_board W H Hsmall _ (inside_in_board _ _ _ Hkin)) in Hrun.
  set (q := ahead p d k) in *.
  destruct (exact_cell_in_board W H Hfits _ (inside_in_board _ _ _ Hkin)) as [Hfc Hr].
  bind_inv Hrun as c Hc. bind_inv Hrun as counts' Hset. injection Hrun as <-.
  apply vec_set_Ok in Hset. destruct Hset as [_ ->].
  assert (Hnwq : ~ wall_at W bm q).
  { destruct (decide (k = 0)) as [Hz|Hnz].
    - unfold q. rewrite Hz, ahead_0. exact Hnw.
    - apply Hw. lia. }
  assert (Hpath' : walk_path W bm gm (ds ++ [d]) prev = Ok (qs ++ [q])).
  { apply walk_path_app; [exact Hpath|]. rewrite Hend.
    cbn [walk_path]. rewrite Hslide, !bind_Ok_l. reflexivity. }
  assert (Hds' : Forall is_direction (ds ++ [d])).
  { apply Forall_app. split; [exact Hds|]. constructor; [exact Hd | constructor]. }
  split; [|split]; simpl.
  - exists (ds ++ [d]), (qs ++ [q]). split; [exact Hds'|]. split; [exact Hpath'|].
    rewrite last_snoc. reflexivity.
  - exact Hnwq.
  - intros i c' Hi Hc'.
    destruct (decide (Z.to_nat (exact_cell W q) = i)) as [<-|Hne].
    + exists (ds ++ [d]), (qs ++ [q]), q. split; [exact Hds'|].
      split; [exact Hpath'|]. split; [apply last_snoc|].
      split; [exact Hkin|]. split; [exact Hnwq|]. rewrite Hfc. reflexivity.
    + rewrite list_lookup_insert_ne in Hi by exact Hne. apply (Hcr i c' Hi Hc').
Qed.

Lemma random_walks_reach (g g' : mt19937) (board_counts : list Z) :
  inside W H prev -> ~ wall_at W bm prev ->
  random_walks W H bm gm prev g = Ok (board_counts, g') ->
  length board_counts = board_cells W H /\
  counts_inside W H board_counts /\
  counts_reached W H bm gm prev board_counts.
Proof.
  intros Hin Hnw. unfold random_walks. rewrite (cells_u32 W H Hfits).
  rewrite (to_vec2_in_board W H Hsmall _ (inside_in_board _ _ _ Hin)).
  pose (P := fun s : list Z * mt19937 =>
    length s.1 = board_cells W H /\ counts_inside W H s.1 /\
    counts_reached W H bm gm prev s.1).
  intros Hrun. change (P (board_counts, g')). revert Hrun. apply (times_inv P).
  - intros [counts h] [counts' h'] (Hl & Hc & Hr) Hbody. simpl in Hl, Hc, Hr.
    bind_inv Hbody as [[p1 counts1] h1] Hsteps. injection Hbody as <- <-.
    revert Hsteps.
    pose (Q := fun s : glm.vec2 * list Z * mt19937 =>
      walk_inv W H s /\ walk_reach W H bm gm prev s).
    intros Hsteps.
    assert (HQ : Q (p1, counts1, h1)).
    { revert Hsteps. apply (times_inv Q); [exact walk_step_reach|].
      split; [split; [exact Hin | split; assumption]|].
      split; [|split; [exact Hnw | exact Hr]].
      exists [], []. split; [constructor|]. split; reflexivity. }
    destruct HQ as [(_ & Hl1 & Hc1) (_ & _ & Hr1)]. split; [exact Hl1|].
    split; [exact Hc1 | exact Hr1].
  - split; [apply length_replicate|]. split.
    + intros i c Hi Hc. apply lookup_replicate in Hi. destruct Hi as [-> _].
      contradiction.
    + intros i c Hi Hc. apply lookup_replicate in Hi. destruct Hi as [-> _].
      contradiction.
Qed.
End Reach.

Lemma collected_from_refl (gm : list (option Mesh)) : collected_from gm gm.
Proof. split; [reflexivity | auto]. Qed.

Lemma collected_from_trans (gm1 gm2 gm3 : list (option Mesh)) :
  collected_from gm1 gm2 -> collected_from gm2 gm3 -> collected_from gm1 gm3.
Proof.
  intros [Hl H12] [Hl' H23]. split; [congruence|]. intros i.
  destruct (H12 i) as [He|[Ha Hb]], (H23 i) as [He'|[Ha' Hb']].
  - left. congruence.
  - right. split; congruence.
  - right. split; congruence.
  - congruence.
Qed.

Lemma collected_from_same_goop (gm gm' : list (option Mesh)) :
  collected_from gm gm' -> same_goop gm gm'.
Proof.
  intros [Hl Hc]. split; [exact Hl|]. intros i.
  destruct (Hc i) as [->|[Ha Hb]]; [tauto|]. rewrite Ha, Hb. split; discriminate.
Qed.

Lemma collected_from_insert (gm : list (option Mesh)) (i : nat) :
  gm !! i = Some (Some checkpoint_mesh) ->
  collected_from gm (<[i := Some checkpoint_collected_mesh]> gm).
Proof.
  intros Hi. split; [apply length_insert|]. intros j.
  destruct (decide (i = j)) as [<-|Hne].
  - right. split; [exact Hi|].
    apply list_lookup_insert_eq, lookup_lt_is_Some. eauto.
  - left. apply list_lookup_insert_ne, Hne.
Qed.

Lemma count_mesh_none (m : Mesh) (gm : list (option Mesh)) :
  (forall i, gm !! i <> Some (Some m)) -> count_mesh m gm = 0%nat.
Proof.
  unfold count_mesh. induction gm as [|o gm IH]; intros Hno; [reflexivity|].
  rewrite filter_cons. destruct (decide (o = Some m)) as [->|_].
  - exfalso. apply (Hno 0%nat). reflexivity.
  - apply IH. intros i. apply (Hno (S i)).
Qed.

Lemma run_moves_counter_sum (moves : list (Z * Z)) (st st' : Game) :
  run_moves moves st = Ok st' ->
  checkpoints st' + Z.of_nat (count_mesh checkpoint_mesh (goal_meshes st'))
  = checkpoints st + Z.of_nat (count_mesh checkpoint_mesh (goal_meshes st)).
Proof.
  unfold run_moves.
  apply (for_each_inv (fun s =>
    checkpoints s + Z.of_nat (count_mesh checkpoint_mesh (goal_meshes s))
    = checkpoints st + Z.of_nat (count_mesh checkpoint_mesh (goal_meshes st)))).
  - intros m s s' _ Hs Hmove. apply move_player_counter_sum in Hmove.
    destruct Hmove as [Hsum _]. lia.
  - reflexivity.
Qed.

(** The moves of the token follow a series of slides. *)
Lemma run_moves_walk_path (ds : list glm.vec2) :
  forall st qs,
    board_ok st -> player_inside st -> Forall is_direction ds ->
    walk_path (glm.x (board_size st)) (board_meshes st) (goal_meshes st) ds
      (player st) = Ok qs ->
    exists st',
      run_moves (map step_to ds) st = Ok st' /\
      player st' = default (player st) (last qs) /\
      board_size st' = board_size st /\ board_meshes st' = board_meshes st /\
      collected_from (goal_meshes st) (goal_meshes st') /\
      (forall q, q ∈ qs ->
         goal_meshes st' !! Z.to_nat (cell_of (glm.x (board_size st)) q)
         <> Some (Some checkpoint_mesh)) /\
      (ds <> [] ->
       won st' = bool_decide
         (goal_meshes st' !! Z.to_nat (cell_of (glm.x (board_size st)) (player st'))
          = Some (Some goal_mesh))).
Proof.
  induction ds as [|d ds IH]; intros st qs Hok Hin Hds Hpath.
  - injection Hpath as <-. exists st. split; [reflexivity|].
    split; [reflexivity|]. split; [reflexivity|]. split; [reflexivity|].
    split; [apply collected_from_refl|]. split; [|congruence].
    intros q Hq. inversion Hq.
  - apply Forall_cons in Hds. destruct Hds as [Hd Hds].
    cbn [walk_path] in Hpath. bind_inv Hpath as q Hq. bind_inv Hpath as qs' Hqs.
    injection Hpath as <-.
    destruct (move_player_returns st d Hok Hin Hd)
      as (k & q0 & o & _ & _ & _ & _ & Hslide & Hqin & Ho & Hmove).
    rewrite Hq in Hslide. injection Hslide as <-.
    destruct (move_player_keeps st _ d Hok Hin Hd Hmove) as [Hok1 Hin1].
    set (W := glm.x (board_size st)) in *.
    set (gm1 := if decide (o = Some checkpoint_mesh)
                then <[Z.to_nat (cell_of W q) := Some checkpoint_collected_mesh]>
                       (goal_meshes st)
                else goal_meshes st) in *.
    set (st1 := mkGame (board_size st) (board_meshes st) gm1 q
                  (if decide (o = Some checkpoint_mesh)
                   then checkpoints st + 1 else checkpoints st)
                  (bool_decide (o = Some goal_mesh))) in *.
    assert (Hcol : collected_from (goal_meshes st) gm1).
    { unfold gm1. destruct (decide (o = Some checkpoint_mesh)) as [->|].
      - apply collected_from_insert, Ho.
      - apply collected_from_refl. }
    assert (Hq1 : gm1 !! Z.to_nat (cell_of W q)
                  = Some (if decide (o = Some checkpoint_mesh)
                          then Some checkpoint_collected_mesh else o)).
    { unfold gm1. destruct (decide (o = Some checkpoint_mesh)); [|exact Ho].
      apply list_lookup_insert_eq, lookup_lt_is_Some. eauto. }
    destruct (IH st1 qs' Hok1 Hin1 Hds) as
      (st' & Hrun & Hpl & Hsz & Hbm & Hcol' & Hcp & Hwon).
    { cbn [st1 board_size board_meshes goal_meshes player]. fold W.
      rewrite (walk_path_same_goop W _ (goal_meshes st) gm1 ds
                 (collected_from_same_goop _ _ Hcol)). exact Hqs. }
    cbn [st1 board_size board_meshes goal_meshes player] in Hpl, Hsz, Hbm, Hcol', Hcp, Hwon.
    fold W in Hcp, Hwon.
    exists st'. split.
    { unfold run_moves in *. cbn [map for_each step_to fst snd].
      rewrite Hmove, bind_Ok_l. exact Hrun. }
    split; [rewrite default_last_cons; exact Hpl|].
    split; [exact Hsz|]. split; [exact Hbm|].
    split; [apply (collected_from_trans _ gm1); assumption|].
    split.
    + intros q' Hq'. apply elem_of_cons in Hq'. destruct Hq' as [->|Hq']; [|auto].
      destruct Hcol' as [_ Hcol']. destruct (Hcol' (Z.to_nat (cell_of W q))) as [He|[_ He]].
      * rewrite He, Hq1. destruct (decide (o = Some checkpoint_mesh)); congruence.
      * rewrite He. discriminate.
    + intros _. destruct ds as [|d' ds']; [|apply Hwon; discriminate].
      injection Hqs as <-. unfold run_moves in Hrun. simpl in Hrun.
      injection Hrun as <-. cbn [st1 won player goal_meshes]. rewrite Hq1.
      destruct (decide (o = Some checkpoint_mesh)) as [->|].
      * rewrite !bool_decide_eq_false_2; [reflexivity| |]; discriminate.
      * apply bool_decide_ext. split; congruence.
Qed.

(** X5.  What moves leave alone.  Through any series of calls of
    [move_player] that return, the size and the terrain of the board stay;
    every cell of the overlay stays as it is, but for checkpoints that
    become collected checkpoints: no goop, goal or collected checkpoint is
    put, taken or moved; and the counter does not go down. *)
Theorem run_moves_overlay (moves : list (Z * Z)) (st st' : Game) :
  run_moves moves st = Ok st' ->
  board_size st' = board_size st /\ board_meshes st' = board_meshes st /\
  collected_from (goal_meshes st) (goal_meshes st') /\
  checkpoints st <= checkpoints st'.
Proof.
  intros Hrun. pose proof (run_moves_board _ _ _ Hrun) as [Hsz Hbm].
  split; [exact Hsz|]. split; [exact Hbm|].
  revert Hrun. unfold run_moves.
  apply (for_each_inv (fun s =>
    collected_from (goal_meshes st) (goal_meshes s) /\
    checkpoints st <= checkpoints s)).
  - intros m s s' _ [Hcol Hcp] Hmove. apply move_player_counter in Hmove.
    cbv zeta in Hmove. destruct Hmove as [(Hold & -> & ->)|(_ & -> & ->)].
    + split; [|lia]. apply (collected_from_trans _ _ _ Hcol).
      apply collected_from_insert, Hold.
    + auto.
  - split; [apply collected_from_refl | lia].
Qed.

Lemma run_moves_overlay_witness :
  board_size revisited_5x5 = board_size checkpoint_5x5 /\
  board_meshes revisited_5x5 = board_meshes checkpoint_5x5 /\
  collected_from (goal_meshes checkpoint_5x5) (goal_meshes revisited_5x5) /\
  checkpoints checkpoint_5x5 <= checkpoints revisited_5x5.
Proof.
  apply (run_moves_overlay [(0, 1)] checkpoint_5x5 revisited_5x5).
  vm_compute. reflexivity.
Defined.

(** * Terrain, overlay and the way to the goal *)

Lemma wall_or_floor_insert (bm : list (option Mesh)) (i : nat) (m : option Mesh) :
  m = Some wall_mesh \/ m = Some floor_mesh ->
  wall_or_floor bm -> wall_or_floor (<[i := m]> bm).
Proof.
  intros Hm Hbm j m' Hj.
  destruct (decide (i = j)) as [<-|Hne].
  - apply list_lookup_insert_Some in Hj.
    destruct Hj as [(_ & <- & _)|[Hne _]]; [exact Hm | congruence].
  - rewrite list_lookup_insert_ne in Hj by exact Hne. apply (Hbm j m' Hj).
Qed.

Lemma clear_board_meshes (W H : Z) (bm : list (option Mesh)) :
  clear_board W H = Ok bm -> wall_or_floor bm.
Proof.
  unfold clear_board. apply (for_each_inv wall_or_floor).
  - intros x b b' _ Hb. apply (for_each_inv wall_or_floor); [|exact Hb].
    intros y c c' _ Hc Hset. apply vec_set_Ok in Hset. destruct Hset as [_ ->].
    apply wall_or_floor_insert; auto.
  - intros i m Hi. apply lookup_replicate in Hi. destruct Hi as [-> _]. auto.
Qed.

Lemma place_walls_meshes (W H : Z) (player_pos : glm.vec2)
    (bm bm' : list (option Mesh)) (g g' : mt19937) :
  place_walls W H player_pos bm g = Ok (bm', g') ->
  wall_or_floor bm -> wall_or_floor bm'.
Proof.
  unfold place_walls, mt. simpl.
  set (n := Z.to_nat _). clearbody n. intros Hrun Hbm.
  pose (P := fun s : list (option Mesh) * mt19937 => wall_or_floor s.1).
  change (P (bm', g')). revert Hrun. apply (times_inv P); [|exact Hbm].
  intros [b h] [b' h'] Hb Hstep. unfold P in *. simpl in *.
  unfold place_wall in Hstep.
  bind_inv Hstep as [pos h1] Hpos.
  destruct (decide (pos = player_pos)).
  - injection Hstep as <- <-. exact Hb.
  - bind_inv Hstep as b1 Hset. injection Hstep as <- <-.
    apply vec_set_Ok in Hset. destruct Hset as [_ ->].
    apply wall_or_floor_insert; auto.
Qed.

Lemma place_goops_floor (W H : Z) (bm gm gm' : list (option Mesh)) (g g' : mt19937) :
  wall_or_floor bm ->
  place_goops W H bm gm g = Ok (gm', g') ->
  overlay_on_floor bm gm -> overlay_on_floor bm gm'.
Proof.
  intros Hbm. unfold place_goops, mt. simpl.
  set (n := Z.to_nat _). clearbody n. intros Hrun Hgm.
  pose (P := fun s : list (option Mesh) * mt19937 => overlay_on_floor bm s.1).
  change (P (gm', g')). revert Hrun. apply (times_inv P); [|exact Hgm].
  intros [b h] [b' h'] Hb Hstep. unfold P in *. simpl in *.
  unfold place_goop in Hstep.
  bind_inv Hstep as [pos h1] Hpos. bind_inv Hstep as m Hm.
  destruct (decide (m ≠ Some wall_mesh)) as [Hne|].
  - bind_inv Hstep as b1 Hset. injection Hstep as <- <-.
    apply vec_set_Ok in Hset. destruct Hset as [_ ->].
    apply vec_get_Ok in Hm. destruct Hm as [_ Hm].
    intros i m' Hi.
    destruct (decide (Z.to_nat (cell_of W pos) = i)) as [<-|Hne'].
    + destruct (Hbm _ _ Hm) as [->| ->]; [congruence | exact Hm].
    + rewrite list_lookup_insert_ne in Hi by exact Hne'. apply (Hb i m' Hi).
  - injection Hstep as <- <-. exact Hb.
Qed.

Lemma overlay_on_floor_insert (bm gm : list (option Mesh)) (i : nat)
    (m : option Mesh) :
  bm !! i = Some (Some floor_mesh) ->
  overlay_on_floor bm gm -> overlay_on_floor bm (<[i := m]> gm).
Proof.
  intros Hfl Hgm j m' Hj.
  destruct (decide (i = j)) as [<-|Hne]; [exact Hfl|].
  rewrite list_lookup_insert_ne in Hj by exact Hne. apply (Hgm j m' Hj).
Qed.

(** A cell of a two-mesh terrain that is not wall is floor. *)
Lemma not_wall_floor (W H : Z) (bm : list (option Mesh)) (p : glm.vec2) :
  fits W H -> length bm = board_cells W H -> wall_or_floor bm ->
  inside W H p -> ~ wall_at W bm p ->
  bm !! Z.to_nat (cell_of W p) = Some (Some floor_mesh).
Proof.
  intros Hfits Hlen Hbm Hin Hnw.
  pose proof (cell_lt W H Hfits bm _ _ Hlen (inside_in_board _ _ _ Hin)) as Hr.
  destruct (lookup_lt_is_Some_2 bm (Z.to_nat (cell_of W p))) as [m Hm];
    [unfold cell_of; lia|].
  destruct (Hbm _ _ Hm) as [->| ->]; [|exact Hm].
  exfalso. apply Hnw. exact Hm.
Qed.

Section Tour.
Variable W H : Z.
Variable player_pos : glm.vec2.
Hypothesis Hfits : fits W H.
Variable bm : list (option Mesh).
Hypothesis Hlen_bm : length bm = board_cells W H.
Hypothesis Hborder : border_walls W H bm.
Hypothesis Hbm : wall_or_floor bm.
Hypothesis Hsmall : W * H <= 2 ^ 24.

Lemma place_goals_tour (budget : nat) :
  forall goals prev_goal gm g goals' prev_goal' gm' g',
    place_goals W H player_pos budget bm goals prev_goal gm g
      = Ok (goals', prev_goal', gm', g') ->
    tour_inv W H bm player_pos prev_goal gm ->
    tour_inv W H bm player_pos prev_goal' gm'.
Proof.
  induction budget as [|budget IH];
    intros goals prev gm g goals' prev' gm' g' Hrun Hinv; [discriminate|].
  cbn [place_goals] in Hrun.
  destruct (goals <? 2); [|injection Hrun as <- <- <- <-; exact Hinv].
  bind_inv Hrun as [counts g1] Hwalks.
  bind_inv Hrun as cs Hscan.
  destruct cs as [|c cs]; [injection Hrun as <- <- <- <-; exact Hinv|].
  bind_inv Hrun as limit Hlimit. unfold mt in Hrun. cbv beta match zeta in Hrun.
  bind_inv Hrun as k Hk.
  bind_inv Hrun as gpos Hgpos.
  bind_inv Hrun as o Hold.
  destruct (decide (o = None)) as [->|]; [|discriminate].
  bind_inv Hrun as gm1 Hset.
  apply vec_get_Ok in Hold. destruct Hold as [_ Hold].
  apply vec_set_Ok in Hset. destruct Hset as [Hrange ->].
  apply IH in Hrun; [exact Hrun|]. clear IH Hrun.
  destruct Hinv as (Hlen_gm & Hin & Hnw & Hfloor & ds & qs & Hds & Hpath & Hend & Hcp).
  destruct (random_walks_reach W H Hfits bm gm Hlen_bm Hlen_gm Hborder Hsmall prev
              g g1 counts Hin Hnw Hwalks) as (Hlen_c & Hci & Hcr).
  pose proof (scan_possible_cells_spec W H player_pos gm counts _ Hscan) as Hspec.
  apply vec_get_Ok in Hgpos. destruct Hgpos as [_ Hgpos].
  apply list_elem_of_lookup_2 in Hgpos.
  rewrite stable_sort_perm in Hgpos. apply Hspec in Hgpos.
  destruct Hgpos as (Hgin & _ & _ & n & Hn & Hnpos).
  destruct (Hcr _ _ Hn) as (ds2 & qs2 & q & Hds2 & Hpath2 & Hlast & Hqin & Hqnw & Hq);
    [lia|].
  assert (Hqg : q = gpos).
  { pose proof (cell_lt W H Hfits gm _ _ Hlen_gm (inside_in_board _ _ _ Hqin)).
    pose proof (cell_lt W H Hfits gm _ _ Hlen_gm Hgin).
    destruct (cell_inj W H _ _ _ _ Hfits (inside_in_board _ _ _ Hqin) Hgin).
    - unfold cell_of in Hq. lia.
    - destruct q, gpos. simpl in *. congruence. }
  subst q.
  pose proof (same_goop_insert gm (Z.to_nat (cell_of W gpos)) None
                (Some checkpoint_mesh) Hold) as Hsame.
  specialize (Hsame ltac:(discriminate) ltac:(discriminate)).
  split; [rewrite length_insert; exact Hlen_gm|].
  split; [exact Hqin|]. split; [exact Hqnw|]. split.
  { apply overlay_on_floor_insert; [|exact Hfloor].
    apply (not_wall_floor W H); assumption. }
  exists (ds ++ ds2), (qs ++ qs2).
  split; [apply Forall_app; auto|]. split.
  { rewrite (walk_path_same_goop W bm gm _ _ Hsame).
    apply walk_path_app; [exact Hpath|]. rewrite Hend. exact Hpath2. }
  split.
  { rewrite last_app, Hlast. reflexivity. }
  intros i Hi.
  destruct (decide (Z.to_nat (cell_of W gpos) = i)) as [<-|Hne].
  - exists gpos. split; [|reflexivity]. apply elem_of_app. right.
    apply last_Some_elem_of. exact Hlast.
  - rewrite list_lookup_insert_ne in Hi by exact Hne.
    destruct (Hcp i Hi) as (q & Hq' & ->). exists q. split; [|reflexivity].
    apply elem_of_app. left. exact Hq'.
Qed.
End Tour.

(** On a board of at most [2^24] cells a pass leaves a terrain of walls
    and floor, and an overlay whose checkpoints lie on a series of slides
    from the token's cell. *)
Lemma create_board_pass_tour (W H : Z) (player_pos : glm.vec2) (g g' : mt19937)
    (goals : Z) (prev_goal : glm.vec2) (bm gm : list (option Mesh)) :
  fits W H -> W * H <= 2 ^ 24 -> inside W H player_pos ->
  create_board_pass W H player_pos g = Ok (goals, prev_goal, bm, gm, g') ->
  wall_or_floor bm /\ tour_inv W H bm player_pos prev_goal gm.
Proof.
  intros Hfits Hsmall Hin Hpass.
  pose proof (create_board_pass_border W H player_pos Hfits _ _ _ _ _ _ Hpass)
    as [Hlen Hborder].
  pose proof (create_board_pass_player W H player_pos Hfits _ _ _ _ _ _ Hin Hpass)
    as Hfloor.
  unfold create_board_pass in Hpass.
  bind_inv Hpass as bm0 Hclear.
  bind_inv Hpass as [bm1 g1] Hwalls.
  bind_inv Hpass as [gm1 g2] Hgoops.
  bind_inv Hpass as [[[goals1 prev1] gm2] g3] Hgoals.
  injection Hpass as <- <- <- <- <-.
  assert (Hbm : wall_or_floor bm1).
  { apply (place_walls_meshes _ _ _ _ _ _ _ Hwalls), (clear_board_meshes W H), Hclear. }
  split; [exact Hbm|].
  pose proof (place_goops_spec _ _ _ _ _ _ _ Hgoops) as [Hlg Hog].
  rewrite length_replicate, (cells_u32 W H Hfits) in Hlg.
  apply (place_goals_tour W H player_pos Hfits bm1 Hlen Hborder Hbm Hsmall
           _ _ _ _ _ _ _ _ _ Hgoals).
  split; [exact Hlg|]. split; [exact Hin|]. split.
  { unfold wall_at, is_wall. unfold floor_at in Hfloor. congruence. }
  split.
  { apply (place_goops_floor _ _ _ _ _ _ _ Hbm Hgoops).
    intros i m Hi. apply lookup_replicate in Hi. destruct Hi as [[=] _]. }
  exists [], []. split; [constructor|]. split; [reflexivity|].
  split; [reflexivity|].
  intros i Hi. exfalso.
  destruct (Hog ltac:(intros j o Hj; apply lookup_replicate in Hj; tauto) i _ Hi);
    discriminate.
Qed.

(** X6.  The layers of a generated board.  After a call of [create_board]
    that returns, with the token inside the border of a board of at most
    [2^24] cells, every terrain cell is wall or floor, none is left
    [nullptr], and every cell whose overlay holds goop, a checkpoint or
    the goal is a floor cell.  The bound is that of the [float] index of
    line 457, which beyond it can count a cell that is wall. *)
Theorem create_board_on_floor (fuel : nat) (st st' : Game) (g g' : mt19937) :
  fits (glm.x (board_size st)) (glm.y (board_size st)) ->
  glm.x (board_size st) * glm.y (board_size st) <= 2 ^ 24 ->
  player_inside st ->
  create_board fuel st g = Ok (st', g') ->
  (forall i m, board_meshes st' !! i = Some m ->
     m = Some wall_mesh \/ m = Some floor_mesh) /\
  (forall i m, goal_meshes st' !! i = Some (Some m) ->
     board_meshes st' !! i = Some (Some floor_mesh)).
Proof.
  intros Hfits Hsmall Hin Hrun.
  apply create_board_last_pass in Hrun.
  destruct Hrun as (g0 & goals & prev & bm & gm & gm' & Hpass & Hne & Hset & ->).
  pose proof (create_board_pass_border _ _ _ Hfits _ _ _ _ _ _ Hpass) as [Hlen Hb].
  destruct (create_board_pass_tour _ _ _ _ _ _ _ _ _ Hfits Hsmall Hin Hpass)
    as (Hbm & _ & Hpin & Hpnw & Hfloor & _).
  apply vec_set_Ok in Hset. destruct Hset as [_ ->].
  cbn [with_board board_meshes goal_meshes]. split; [exact Hbm|].
  apply overlay_on_floor_insert; [|exact Hfloor].
  apply (not_wall_floor _ _ _ _ Hfits Hlen Hbm Hpin Hpnw).
Qed.

Lemma create_board_on_floor_witness :
  (forall i m, board_meshes board_6x5 !! i = Some m ->
     m = Some wall_mesh \/ m = Some floor_mesh) /\
  (forall i m, goal_meshes board_6x5 !! i = Some (Some m) ->
     board_meshes board_6x5 !! i = Some (Some floor_mesh)).
Proof.
  destruct (returned_Ok _ _ _ level_6x5_generated) as (g' & Hrun & _).
  apply (create_board_on_floor 3 level_6x5 board_6x5 (mkMt lcg 0) g').
  - exact fits_6x5.
  - vm_compute. discriminate.
  - vm_compute. intuition discriminate.
  - exact Hrun.
Defined.

(** X7.  Every generated level of at most [2^24] cells can be won.  After
    a call of [create_board] that returns, with the token inside the
    border of such a board, some series of moves in the four directions
    sets the win flag, leaves no checkpoint on the board and has added to
    the counter the number of checkpoints the board had: the goal and
    every checkpoint can be reached by slides from the token's cell.  The
    bound is that of the [float] arithmetic of the walks (lines 453-457),
    which beyond it need not follow the slides of the player. *)
Theorem create_board_winnable (fuel : nat) (st st' : Game) (g g' : mt19937) :
  fits (glm.x (board_size st)) (glm.y (board_size st)) ->
  glm.x (board_size st) * glm.y (board_size st) <= 2 ^ 24 ->
  player_inside st ->
  create_board fuel st g = Ok (st', g') ->
  exists moves st'',
    Forall (fun m => is_direction (glm.mk m.1 m.2)) moves /\
    run_moves moves st' = Ok st'' /\
    won st'' = true /\
    count_mesh checkpoint_mesh (goal_meshes st'') = 0%nat /\
    checkpoints st''
    = checkpoints st' + Z.of_nat (count_mesh checkpoint_mesh (goal_meshes st')).
Proof.
  intros Hfits Hsmall Hin Hrun.
  pose proof (create_board_board_ok fuel st st' g g' Hfits Hrun) as Hok.
  apply create_board_last_pass in Hrun.
  destruct Hrun as (g0 & goals & prev & bm & gm & gm' & Hpass & Hne & Hset & ->).
  destruct (create_board_pass_tour _ _ _ _ _ _ _ _ _ Hfits Hsmall Hin Hpass)
    as (Hbm & Hlen_gm & Hpin & Hpnw & Hfloor & ds & qs & Hds & Hpath & Hend & Hcp).
  destruct (create_board_pass_goals _ _ _ _ _ _ _ _ _ Hpass) as (_ & (_ & _ & Hprev) & _).
  specialize (Hprev Hne).
  apply vec_set_Ok in Hset. destruct Hset as [_ ->].
  set (W := glm.x (board_size st)) in *.
  set (i0 := Z.to_nat (cell_of W prev)) in *.
  set (gmf := <[i0 := Some goal_mesh]> gm) in *.
  assert (Hsame : same_goop gm gmf).
  { apply (same_goop_insert gm i0 _ _ Hprev); discriminate. }
  assert (Hgoal : gmf !! i0 = Some (Some goal_mesh)).
  { apply list_lookup_insert_eq, lookup_lt_is_Some. eauto. }
  destruct (run_moves_walk_path ds (with_board st bm gmf) qs Hok Hin Hds)
    as (st'' & Hmoves & Hpl & Hsz & Hbm' & Hcol & Hvisited & Hwon).
  { cbn [with_board board_size board_meshes goal_meshes player]. fold W.
    rewrite (walk_path_same_goop W bm gm gmf ds Hsame). exact Hpath. }
  cbn [with_board board_size board_meshes goal_meshes player checkpoints]
    in Hpl, Hsz, Hbm', Hcol, Hvisited, Hwon. fold W in Hvisited, Hwon.
  rewrite Hend in Hpl.
  exists (map step_to ds), st''. split.
  { apply Forall_map. eapply Forall_impl; [exact Hds|].
    intros [dx dy] Hd. exact Hd. }
  split; [exact Hmoves|].
  assert (Hqs : ds <> []).
  { destruct (Hcp i0 Hprev) as (q & Hq & _). intros ->.
    injection Hpath as <-. inversion Hq. }
  assert (Hgoal'' : goal_meshes st'' !! i0 = Some (Some goal_mesh)).
  { destruct Hcol as [_ Hcol]. destruct (Hcol i0) as [He|[He _]]; congruence. }
  split.
  { rewrite (Hwon Hqs), Hpl. fold i0. apply bool_decide_eq_true_2, Hgoal''. }
  assert (Hnone : count_mesh checkpoint_mesh (goal_meshes st'') = 0%nat).
  { apply count_mesh_none. intros i Hi.
    destruct Hcol as [_ Hcol]. destruct (Hcol i) as [He|[_ He]]; [|congruence].
    rewrite Hi in He. symmetry in He.
    destruct (decide (i0 = i)) as [<-|Hne']; [congruence|].
    unfold gmf in He. rewrite list_lookup_insert_ne in He by exact Hne'.
    destruct (Hcp i He) as (q & Hq & ->). apply (Hvisited q Hq Hi). }
  split; [exact Hnone|].
  pose proof (run_moves_counter_sum _ _ _ Hmoves) as Hsum.
  cbn [with_board goal_meshes checkpoints] in *. rewrite Hnone in Hsum. lia.
Qed.

Lemma create_board_winnable_witness :
  exists moves st'',
    Forall (fun m => is_direction (glm.mk m.1 m.2)) moves /\
    run_moves moves board_6x5 = Ok st'' /\
    won st'' = true /\
    count_mesh checkpoint_mesh (goal_meshes st'') = 0%nat /\
    checkpoints st''
    = checkpoints board_6x5
      + Z.of_nat (count_mesh checkpoint_mesh (goal_meshes board_6x5)).
Proof.
  destruct (returned_Ok _ _ _ level_6x5_generated) as (g' & Hrun & _).
  apply (create_board_winnable 3 level_6x5 board_6x5 (mkMt lcg 0) g').
  - exact fits_6x5.
  - vm_compute. discriminate.
  - vm_compute. intuition discriminate.
  - exact Hrun.
Defined.

(** * Events *)

Lemma create_board_members (fuel : nat) (st st' : Game) (g g' : mt19937) :
  create_board fuel st g = Ok (st', g') ->
  board_size st' = board_size st /\ player st' = player st.
Proof.
  intros Hrun. apply create_board_last_pass in Hrun.
  destruct Hrun as (g0 & goals & prev & bm & gm & gm' & _ & _ & _ & ->).
  split; reflexivity.
Qed.

(** X8.  Events keep the game well formed.  On a well-formed board with
    the token inside the border and not on a wall, an arrow key is always
    handled and returns, without a draw from the stream; and whatever event
    returns leaves a well-formed board of the same size with the token
    inside the border and not on a wall, so that the next event finds the
    same. *)
Theorem handle_event_invariant (fuel : nat) (evt : Event) (st : Game)
    (g : mt19937) :
  board_ok st -> player_inside st ->
  ~ wall_at (glm.x (board_size st)) (board_meshes st) (player st) ->
  (forall k step, pressed evt = Some k -> step_of k = Some step ->
     exists st', handle_event fuel evt st g = Ok (true, st', g)) /\
  (forall handled st' g',
     handle_event fuel evt st g = Ok (handled, st', g') ->
     board_ok st' /\ player_inside st' /\
     ~ wall_at (glm.x (board_size st')) (board_meshes st') (player st') /\
     board_size st' = board_size st).
Proof.
  intros Hok Hin Hnw.
  assert (Hmove : forall d, is_direction d ->
    exists st', move_player (glm.x d) (glm.y d) st = Ok st' /\
      board_ok st' /\ player_inside st' /\
      ~ wall_at (glm.x (board_size st')) (board_meshes st') (player st') /\
      board_size st' = board_size st).
  { intros d Hd.
    destruct (move_player_returns st d Hok Hin Hd)
      as (k & q & o & _ & _ & _ & _ & _ & _ & _ & Hrun).
    destruct (move_player_keeps st _ d Hok Hin Hd Hrun) as [Hok' Hin'].
    pose proof (move_player_not_wall st _ d Hok Hin Hd Hnw Hrun) as Hnw'.
    eexists. split; [exact Hrun|]. split; [exact Hok'|]. split; [exact Hin'|].
    split; [exact Hnw' | reflexivity]. }
  assert (Hregen : forall st0 st' g',
    board_size st0 = board_size st -> player st0 = player st ->
    create_board fuel st0 g = Ok (st', g') ->
    board_ok st' /\ player_inside st' /\
    ~ wall_at (glm.x (board_size st')) (board_meshes st') (player st') /\
    board_size st' = board_size st).
  { intros st0 st' g' Hsz Hpl Hrun.
    destruct (create_board_members _ _ _ _ _ Hrun) as [Hsz' Hpl'].
    assert (Hfits0 : fits (glm.x (board_size st0)) (glm.y (board_size st0)))
      by (rewrite Hsz; apply Hok).
    assert (Hin0 : player_inside st0)
      by (unfold player_inside in *; rewrite Hsz, Hpl; exact Hin).
    split; [apply (create_board_board_ok fuel st0 st' g g' Hfits0 Hrun)|].
    split; [unfold player_inside in *; rewrite Hsz', Hpl'; exact Hin0|].
    split; [|congruence].
    apply create_board_last_pass in Hrun.
    destruct Hrun as (g0 & goals & prev & bm & gm & gm' & Hpass & _ & _ & ->).
    pose proof (create_board_pass_player _ _ _ Hfits0 _ _ _ _ _ _ Hin0 Hpass) as Hfl.
    cbn [with_board board_size board_meshes player].
    unfold wall_at, is_wall. unfold floor_at in Hfl. congruence. }
  destruct (Hmove (glm.mk (-1) 0)) as (stl & Hl & Hpl); [unfold is_direction; auto|].
  destruct (Hmove (glm.mk 1 0)) as (str & Hr & Hpr); [unfold is_direction; auto|].
  destruct (Hmove (glm.mk 0 1)) as (stu & Hu & Hpu); [unfold is_direction; auto|].
  destruct (Hmove (glm.mk 0 (-1))) as (std & Hd & Hpd); [unfold is_direction; auto|].
  cbn [glm.x glm.y] in Hl, Hr, Hu, Hd.
  assert (Hself : board_ok st /\ player_inside st /\
    ~ wall_at (glm.x (board_size st)) (board_meshes st) (player st) /\
    board_size st = board_size st) by auto.
  unfold handle_event, pressed.
  destruct (keydown evt), (key_repeat evt); cbn [andb negb]; split;
    try (intros k step Hk; discriminate Hk);
    try (intros h st' g' [= <- <- <-]; exact Hself).
  - intros k step [= <-] Hstep.
    destruct (scancode evt); try discriminate; rewrite ?Hl, ?Hr, ?Hu, ?Hd; eauto.
  - intros h st' g' Hrun.
    destruct (scancode evt); rewrite ?Hl, ?Hr, ?Hu, ?Hd in Hrun;
      try (injection Hrun as <- <- <-; assumption).
    + bind_inv Hrun as [st1 g1] Hcb. injection Hrun as <- <- <-.
      refine (Hregen _ _ _ _ _ Hcb); destruct (0 <? checkpoints st); reflexivity.
    + destruct (won st).
      * bind_inv Hrun as [st1 g1] Hcb. injection Hrun as <- <- <-.
        apply (Hregen _ _ _ eq_refl eq_refl Hcb).
      * injection Hrun as <- <- <-. exact Hself.
Qed.

Lemma handle_event_invariant_witness :
  (forall k step,
     pressed (mkEvent true false SCANCODE_UP) = Some k -> step_of k = Some step ->
     exists st',
       handle_event 0 (mkEvent true false SCANCODE_UP) checkpoint_5x5 (mkMt lcg 0)
       = Ok (true, st', mkMt lcg 0)) /\
  (forall handled st' g',
     handle_event 0 (mkEvent true false SCANCODE_UP) checkpoint_5x5 (mkMt lcg 0)
     = Ok (handled, st', g') ->
     board_ok st' /\ player_inside st' /\
     ~ wall_at (glm.x (board_size st')) (board_meshes st') (player st') /\
     board_size st' = board_size checkpoint_5x5).
Proof.
  apply (handle_event_invariant 0 (mkEvent true false SCANCODE_UP) checkpoint_5x5
           (mkMt lcg 0)).
  - split; [vm_compute; intuition discriminate|].
    split; [reflexivity|]. split; [reflexivity|].
    apply border_wallsb_correct. vm_compute. reflexivity.
  - vm_compute. intuition discriminate.
  - vm_compute. discriminate.
Defined.

(** * The numbers drawn from the stream *)

Lemma draws_refl (g : mt19937) : draws g g 0.
Proof. split; [reflexivity | lia]. Qed.

Lemma draws_trans (g1 g2 g3 : mt19937) (n m : Z) :
  draws g1 g2 n -> draws g2 g3 m -> draws g1 g3 (n + m).
Proof. intros [Ho Hd] [Ho' Hd']. split; [congruence | lia]. Qed.

Lemma draws_mt (g : mt19937) : draws g (mt g).2 1.
Proof. split; [reflexivity|]. simpl. lia. Qed.

(** A loop whose body draws [c] numbers draws [n * c] of them. *)
Lemma times_draws {St : Type} (f : St -> mt19937) (c : Z) (body : St -> result St)
    (n : nat) :
  (forall s s', body s = Ok s' -> draws (f s) (f s') c) ->
  forall s s', times n body s = Ok s' -> draws (f s) (f s') (Z.of_nat n * c).
Proof.
  intros Hbody. induction n as [|n IH]; intros s s' Hrun.
  - injection Hrun as <-. apply draws_refl.
  - cbn [times] in Hrun. bind_inv Hrun as s1 Hs1.
    replace (Z.of_nat (S n) * c) with (c + Z.of_nat n * c) by lia.
    apply (draws_trans _ (f s1)); [apply Hbody, Hs1 | apply IH, Hrun].
Qed.

Lemma random_board_position_draws (W H : Z) (g g' : mt19937) (pos : glm.vec2) :
  random_board_position W H g = Ok (pos, g') -> draws g g' 2.
Proof.
  unfold random_board_position, mt. cbv beta match zeta. intros Hrun.
  bind_inv Hrun as px Hpx. bind_inv Hrun as py Hpy. injection Hrun as _ <-.
  split; [reflexivity|]. simpl. lia.
Qed.

Lemma place_walls_draws (W H : Z) (player_pos : glm.vec2)
    (bm bm' : list (option Mesh)) (g g' : mt19937) :
  place_walls W H player_pos bm g = Ok (bm', g') ->
  exists walls, 2 <= walls <= 9 /\ draws g g' (1 + 2 * walls).
Proof.
  unfold place_walls. destruct (mt g) as [r g1] eqn:Hmt. intros Hrun.
  assert (Hr : 0 <= r < 2 ^ 32).
  { unfold mt in Hmt. injection Hmt as <- _. apply Z.mod_pos_bound. lia. }
  assert (Hm : 0 <= r mod 8 < 8) by (apply Z.mod_pos_bound; lia).
  rewrite u32_small in Hrun by (change (2 ^ 32) with 4294967296; lia).
  exists (r mod 8 + 2). split; [lia|].
  apply (draws_trans _ g1).
  - pose proof (draws_mt g) as Hd. rewrite Hmt in Hd. exact Hd.
  - apply (times_draws snd 2) in Hrun.
    + simpl in Hrun. rewrite Z2Nat.id in Hrun by lia.
      replace (2 * (r mod 8 + 2)) with ((r mod 8 + 2) * 2) by lia. exact Hrun.
    + intros [b h] [b' h'] Hstep. simpl. unfold place_wall in Hstep.
      bind_inv Hstep as [pos h1] Hpos.
      apply random_board_position_draws in Hpos.
      destruct (decide (pos = player_pos)).
      * injection Hstep as _ <-. exact Hpos.
      * bind_inv Hstep as b1 Hset. injection Hstep as _ <-. exact Hpos.
Qed.

Lemma place_goops_draws (W H : Z) (bm gm gm' : list (option Mesh))
    (g g' : mt19937) :
  place_goops W H bm gm g = Ok (gm', g') ->
  exists goops, 0 <= goops <= 3 /\ draws g g' (1 + 2 * goops).
Proof.
  unfold place_goops. destruct (mt g) as [r g1] eqn:Hmt. intros Hrun.
  assert (Hm : 0 <= r mod 4 < 4) by (apply Z.mod_pos_bound; lia).
  exists (r mod 4). split; [lia|].
  apply (draws_trans _ g1).
  - pose proof (draws_mt g) as Hd. rewrite Hmt in Hd. exact Hd.
  - apply (times_draws snd 2) in Hrun.
    + simpl in Hrun. rewrite Z2Nat.id in Hrun by lia.
      replace (2 * (r mod 4)) with (r mod 4 * 2) by lia. exact Hrun.
    + intros [b h] [b' h'] Hstep. simpl. unfold place_goop in Hstep.
      bind_inv Hstep as [pos h1] Hpos.
      apply random_board_position_draws in Hpos.
      bind_inv Hstep as m Hm'.
      destruct (decide (m ≠ Some wall_mesh)).
      * bind_inv Hstep as b1 Hset. injection Hstep as _ <-. exact Hpos.
      * injection Hstep as _ <-. exact Hpos.
Qed.

Lemma walk_step_draws (W : Z) (bm gm : list (option Mesh))
    (s s' : glm.vec2 * list Z * mt19937) :
  walk_step W bm gm s = Ok s' -> draws s.2 s'.2 1.
Proof.
  destruct s as [[p counts] g]. unfold walk_step.
  pose proof (draws_mt g) as Hd. destruct (mt g) as [r g1]. intros Hrun.
  bind_inv Hrun as d Hdir. bind_inv Hrun as q Hq. bind_inv Hrun as c Hc.
  bind_inv Hrun as counts' Hset. injection Hrun as <-. exact Hd.
Qed.

Lemma random_walks_draws (W H : Z) (bm gm : list (option Mesh)) (prev : glm.vec2)
    (g g' : mt19937) (board_counts : list Z) :
  random_walks W H bm gm prev g = Ok (board_counts, g') -> draws g g' 2000.
Proof.
  unfold random_walks. intros Hrun.
  apply (times_draws snd 20) in Hrun; [exact Hrun|].
  intros [counts h] [counts' h'] Hbody. simpl.
  bind_inv Hbody as [[p1 counts1] h1] Hsteps. injection Hbody as _ <-.
  apply (times_draws snd 1) in Hsteps; [exact Hsteps|].
  intros s s'. apply walk_step_draws.
Qed.

Lemma place_goals_draws (W H : Z) (player_pos : glm.vec2)
    (bm : list (option Mesh)) (budget : nat) :
  forall goals prev_goal gm g goals' prev_goal' gm' g',
    place_goals W H player_pos budget bm goals prev_goal gm g
      = Ok (goals', prev_goal', gm', g') ->
    0 <= goals ->
    goals <= goals' /\
    draws g g' (2000 * (if goals' <? 2 then goals' - goals + 1
                        else Z.max 0 (2 - goals))
                + (goals' - goals)).
Proof.
  induction budget as [|budget IH];
    intros goals prev gm g goals' prev' gm' g' Hrun Hpos; [discriminate|].
  cbn [place_goals] in Hrun.
  destruct (Z.ltb_spec goals 2) as [Hlt|Hge].
  - bind_inv Hrun as [counts g1] Hwalks.
    apply random_walks_draws in Hwalks.
    bind_inv Hrun as cs Hscan.
    destruct cs as [|c cs].
    { injection Hrun as <- <- <- <-. split; [lia|].
      destruct (Z.ltb_spec goals 2); [|lia].
      replace (2000 * (goals - goals + 1) + (goals - goals)) with 2000 by lia.
      exact Hwalks. }
    bind_inv Hrun as limit Hlimit.
    pose proof (draws_mt g1) as Hd. destruct (mt g1) as [r g2].
    bind_inv Hrun as k Hk.
    bind_inv Hrun as gpos Hgpos.
    bind_inv Hrun as o Hold.
    destruct (decide (o = None)) as [->|]; [|discriminate].
    bind_inv Hrun as gm1 Hset.
    rewrite u32_small in Hrun by (change (2 ^ 32) with 4294967296; lia).
    apply IH in Hrun; [|lia]. destruct Hrun as [Hle Hrun]. split; [lia|].
    pose proof (draws_trans _ _ _ _ _ Hwalks (draws_trans _ _ _ _ _ Hd Hrun)) as Hall.
    destruct (Z.ltb_spec goals' 2).
    + replace (2000 * (goals' - goals + 1) + (goals' - goals))
        with (2000 + (1 + (2000 * (goals' - (goals + 1) + 1) + (goals' - (goals + 1)))))
        by lia. exact Hall.
    + replace (2000 * Z.max 0 (2 - goals) + (goals' - goals))
        with (2000 + (1 + (2000 * Z.max 0 (2 - (goals + 1)) + (goals' - (goals + 1)))))
        by lia. exact Hall.
  - injection Hrun as <- <- <- <-. split; [lia|].
    destruct (Z.ltb_spec goals 2); [lia|].
    replace (2000 * Z.max 0 (2 - goals) + (goals - goals)) with 0 by lia.
    apply draws_refl.
Qed.

(** How many numbers a pass draws. *)
Lemma create_board_pass_draws (W H : Z) (player_pos : glm.vec2) (g g' : mt19937)
    (goals : Z) (prev_goal : glm.vec2) (bm gm : list (option Mesh)) :
  create_board_pass W H player_pos g = Ok (goals, prev_goal, bm, gm, g') ->
  exists walls goops,
    2 <= walls <= 9 /\ 0 <= goops <= 3 /\
    draws g g' (2 + 2 * walls + 2 * goops
                + (if goals =? 0 then 2000 else 4000 + goals)).
Proof.
  intros Hpass.
  pose proof (create_board_pass_goals _ _ _ _ _ _ _ _ _ Hpass) as (Hgoals & _).
  unfold create_board_pass in Hpass.
  bind_inv Hpass as bm0 Hclear.
  bind_inv Hpass as [bm1 g1] Hwalls.
  bind_inv Hpass as [gm1 g2] Hgoops.
  bind_inv Hpass as [[[goals1 prev1] gm2] g3] Hplace.
  injection Hpass as <- <- <- <- <-.
  apply place_walls_draws in Hwalls. destruct Hwalls as (walls & Hw & Hdw).
  apply place_goops_draws in Hgoops. destruct Hgoops as (goops & Hg & Hdg).
  apply place_goals_draws in Hplace; [|lia]. destruct Hplace as [_ Hdp].
  exists walls, goops. split; [exact Hw|]. split; [exact Hg|].
  pose proof (draws_trans _ _ _ _ _ Hdw (draws_trans _ _ _ _ _ Hdg Hdp)) as Hall.
  assert (Hcases : goals1 = 0 \/ goals1 = 1 \/ goals1 = 2) by lia.
  destruct Hcases as [-> | [-> | ->]]; simpl in Hall |- *;
    destruct Hall as [Ho Hd]; (split; [exact Ho | lia]).
Qed.

(** X9.  The numbers drawn by a call of [create_board] that returns.  The
    sequence of the stream is left alone and read forward.  The call is a
    chain of passes, fewer than [fuel] retries and a last pass, and the
    chain is the only one from that stream state.  Each pass that places
    nothing draws between 2006 and 2026 numbers, the last pass between
    4007 and 4028: one for the number of walls, two for each of the two to
    nine walls, one for the number of goops, two for each of the zero to
    three goops, 2000 for each round of walks and one for each pick.  The
    stream has advanced by the sum of these. *)
Theorem create_board_draws (fuel : nat) :
  forall st g st' g',
    create_board fuel st g = Ok (st', g') ->
    outputs g' = outputs g /\
    exists retries last,
      pass_chain (glm.x (board_size st)) (glm.y (board_size st)) (player st)
        g (retries ++ [last]) g' /\
      (forall ns h,
         pass_chain (glm.x (board_size st)) (glm.y (board_size st)) (player st)
           g ns h ->
         ns = retries ++ [last] /\ h = g') /\
      (length retries < fuel)%nat /\
      Forall (fun n => 2006 <= n <= 2026) retries /\
      4007 <= last <= 4028 /\
      Z.of_nat (drawn g') = Z.of_nat (drawn g) + foldr Z.add 0 retries + last.
Proof.
  induction fuel as [|fuel IH]; intros st g st' g' Hrun; [discriminate|].
  cbn [create_board] in Hrun.
  bind_inv Hrun as [[[[goals prev] bm] gm] g1] Hpass.
  pose proof (create_board_pass_goals _ _ _ _ _ _ _ _ _ Hpass) as (Hgoals & _).
  pose proof (create_board_pass_draws _ _ _ _ _ _ _ _ _ Hpass)
    as (walls & goops & Hw & Hg & Ho & Hd).
  destruct (Z.eqb_spec goals 0) as [->|Hne].
  - apply IH in Hrun. cbn [with_board board_size player] in Hrun.
    destruct Hrun as (Ho' & retries & last & Hchain & Huniq & Hlen & Hall & Hlast & Hsum).
    split; [congruence|].
    exists ((Z.of_nat (drawn g1) - Z.of_nat (drawn g)) :: retries), last.
    split; [exact (chain_retry _ _ _ _ _ _ _ _ _ _ Hpass Hchain)|].
    split.
    { intros ns h Hc. inversion Hc as [g2 goals2 prev2 bm2 gm2 h2 Hpass2 Hne2
                                      |g2 prev2 bm2 gm2 h2 ns2 h3 Hpass2 Hc2]; subst.
      - rewrite Hpass in Hpass2. injection Hpass2 as <- _ _ _ _. contradiction.
      - rewrite Hpass in Hpass2. injection Hpass2 as _ _ _ <-.
        destruct (Huniq _ _ Hc2) as [-> ->]. split; reflexivity. }
    split; [simpl; lia|].
    split; [constructor; [simpl in Hd; lia | exact Hall]|].
    split; [exact Hlast|]. simpl. lia.
  - bind_inv Hrun as gm' Hset. injection Hrun as <- <-.
    split; [exact Ho|].
    exists [], (Z.of_nat (drawn g1) - Z.of_nat (drawn g)).
    split; [exact (chain_last _ _ _ _ _ _ _ _ _ Hpass Hne)|].
    split.
    { intros ns h Hc. inversion Hc as [g2 goals2 prev2 bm2 gm2 h2 Hpass2 Hne2
                                      |g2 prev2 bm2 gm2 h2 ns2 h3 Hpass2 Hc2]; subst.
      - rewrite Hpass in Hpass2. injection Hpass2 as _ _ _ _ <-.
        split; reflexivity.
      - rewrite Hpass in Hpass2. injection Hpass2 as -> _ _ _ _. contradiction. }
    split; [simpl; lia|]. split; [constructor|].
    destruct (Z.eqb_spec goals 0); [contradiction|]. simpl. lia.
Qed.

Lemma create_board_draws_witness :
  exists g',
    create_board 1 level_5x3 (mkMt stream_5x3 0) = Ok (board_5x3, g') /\
    outputs g' = outputs (mkMt stream_5x3 0) /\
    exists retries last,
      pass_chain 5 3 (glm.mk 1 1) (mkMt stream_5x3 0) (retries ++ [last]) g' /\
      (forall ns h,
         pass_chain 5 3 (glm.mk 1 1) (mkMt stream_5x3 0) ns h ->
         ns = retries ++ [last] /\ h = g') /\
      (length retries < 1)%nat /\
      Forall (fun n => 2006 <= n <= 2026) retries /\
      4007 <= last <= 4028 /\
      Z.of_nat (drawn g')
      = Z.of_nat (drawn (mkMt stream_5x3 0)) + foldr Z.add 0 retries + last.
Proof.
  destruct (returned_Ok _ _ _ level_5x3_generated) as (g' & Hrun & _).
  exists g'. split; [exact Hrun|].
  apply (create_board_draws 1 level_5x3 (mkMt stream_5x3 0) board_5x3 g' Hrun).
Defined.

(** * What a fresh board holds *)

Lemma fresh_overlay_insert (gm : list (option Mesh)) (i : nat) (o : option Mesh) :
  o = None \/ o = Some goop_mesh \/ o = Some checkpoint_mesh \/ o = Some goal_mesh ->
  fresh_overlay gm -> fresh_overlay (<[i := o]> gm).
Proof.
  intros Ho Hgm j o' Hj.
  destruct (decide (i = j)) as [<-|Hne].
  - apply list_lookup_insert_Some in Hj.
    destruct Hj as [(_ & <- & _)|[Hne _]]; [exact Ho | congruence].
  - rewrite list_lookup_insert_ne in Hj by exact Hne. apply (Hgm j o' Hj).
Qed.

Lemma count_mesh_insert_le (m : Mesh) (gm : list (option Mesh)) (i : nat)
    (new : option Mesh) :
  (count_mesh m (<[i := new]> gm) <= count_mesh m gm + 1)%nat.
Proof.
  destruct (gm !! i) as [old|] eqn:Hi.
  - pose proof (count_mesh_insert m gm i old new Hi) as Hc.
    destruct (decide (old = Some m)), (decide (new = Some m)); lia.
  - rewrite list_insert_ge by (apply lookup_ge_None; exact Hi). lia.
Qed.

Lemma count_mesh_insert_other (m : Mesh) (gm : list (option Mesh)) (i : nat)
    (old new : option Mesh) :
  gm !! i = Some old -> old <> Some m -> new <> Some m ->
  count_mesh m (<[i := new]> gm) = count_mesh m gm.
Proof.
  intros Hi Hold Hnew. pose proof (count_mesh_insert m gm i old new Hi) as Hc.
  destruct (decide (old = Some m)), (decide (new = Some m)); try contradiction. lia.
Qed.

Lemma times_grows {St : Type} (f : St -> nat) (body : St -> result St) (n : nat) :
  (forall s s', body s = Ok s' -> (f s' <= f s + 1)%nat) ->
  forall s s', times n body s = Ok s' -> (f s' <= f s + n)%nat.
Proof.
  intros Hbody. induction n as [|n IH]; intros s s' Hrun.
  - injection Hrun as <-. lia.
  - cbn [times] in Hrun. bind_inv Hrun as s1 Hs1.
    apply Hbody in Hs1. apply IH in Hrun. lia.
Qed.

Lemma place_goops_count (W H : Z) (bm gm gm' : list (option Mesh)) (g g' : mt19937) :
  place_goops W H bm gm g = Ok (gm', g') ->
  (count_mesh goop_mesh gm' <= count_mesh goop_mesh gm + 3)%nat.
Proof.
  unfold place_goops. destruct (mt g) as [r g1]. intros Hrun.
  assert (Hm : 0 <= r mod 4 < 4) by (apply Z.mod_pos_bound; lia).
  apply (times_grows (fun s => count_mesh goop_mesh s.1)) in Hrun.
  - simpl in Hrun. lia.
  - intros [b h] [b' h'] Hstep. simpl. unfold place_goop in Hstep.
    bind_inv Hstep as [pos h1] Hpos. bind_inv Hstep as m Hm'.
    destruct (decide (m ≠ Some wall_mesh)).
    + bind_inv Hstep as b1 Hset. injection Hstep as <- _.
      apply vec_set_Ok in Hset. destruct Hset as [_ ->].
      apply count_mesh_insert_le.
    + injection Hstep as <- _. lia.
Qed.

Lemma place_goals_fresh (W H : Z) (player_pos : glm.vec2)
    (bm : list (option Mesh)) (budget : nat) :
  forall goals prev_goal gm g goals' prev_goal' gm' g',
    place_goals W H player_pos budget bm goals prev_goal gm g
      = Ok (goals', prev_goal', gm', g') ->
    fresh_overlay gm ->
    fresh_overlay gm' /\ count_mesh goop_mesh gm' = count_mesh goop_mesh gm.
Proof.
  induction budget as [|budget IH];
    intros goals prev gm g goals' prev' gm' g' Hrun Hgm; [discriminate|].
  cbn [place_goals] in Hrun.
  destruct (goals <? 2); [|injection Hrun as <- <- <- <-; auto].
  bind_inv Hrun as [counts g1] Hwalks.
  bind_inv Hrun as cs Hscan.
  destruct cs as [|c cs]; [injection Hrun as <- <- <- <-; auto|].
  bind_inv Hrun as limit Hlimit. destruct (mt g1) as [r g2].
  bind_inv Hrun as k Hk.
  bind_inv Hrun as gpos Hgpos.
  bind_inv Hrun as o Hold.
  destruct (decide (o = None)) as [->|]; [|discriminate].
  bind_inv Hrun as gm1 Hset.
  apply vec_get_Ok in Hold. destruct Hold as [_ Hold].
  apply vec_set_Ok in Hset. destruct Hset as [_ ->].
  apply IH in Hrun.
  - destruct Hrun as [Hfresh Hcount]. split; [exact Hfresh|].
    rewrite Hcount. apply (count_mesh_insert_other _ _ _ None); [exact Hold|..];
      discriminate.
  - apply fresh_overlay_insert; auto.
Qed.

(** X10.  The overlay of a fresh board.  After a call of [create_board]
    that returns, a cell of the overlay holds [nullptr], goop, a checkpoint
    or the goal, and nothing else; at most three cells hold goop; no cell
    holds a collected checkpoint. *)
Theorem create_board_overlay (fuel : nat) (st st' : Game) (g g' : mt19937) :
  create_board fuel st g = Ok (st', g') ->
  fresh_overlay (goal_meshes st') /\
  (count_mesh goop_mesh (goal_meshes st') <= 3)%nat /\
  count_mesh checkpoint_collected_mesh (goal_meshes st') = 0%nat.
Proof.
  intros Hrun. apply create_board_last_pass in Hrun.
  destruct Hrun as (g0 & goals & prev & bm & gm & gm' & Hpass & Hne & Hset & ->).
  destruct (create_board_pass_goals _ _ _ _ _ _ _ _ _ Hpass) as (_ & (_ & _ & Hprev) & _).
  specialize (Hprev Hne).
  apply vec_set_Ok in Hset. destruct Hset as [_ ->].
  cbn [with_board goal_meshes].
  unfold create_board_pass in Hpass.
  bind_inv Hpass as bm0 Hclear.
  bind_inv Hpass as [bm1 g1] Hwalls.
  bind_inv Hpass as [gm1 g2] Hgoops.
  bind_inv Hpass as [[[goals1 prev1] gm2] g3] Hgoals.
  injection Hpass as <- <- <- <- <-.
  pose proof (place_goops_count _ _ _ _ _ _ _ Hgoops) as Hcount.
  pose proof (place_goops_spec _ _ _ _ _ _ _ Hgoops) as [_ Hog].
  assert (Hnone : only_goop (replicate (Z.to_nat (u32 (glm.x (board_size st)
                    * glm.y (board_size st)))) (@None Mesh))).
  { intros i o Hi. apply lookup_replicate in Hi. tauto. }
  specialize (Hog Hnone).
  rewrite (count_mesh_none goop_mesh (replicate _ None)) in Hcount
    by (intros i Hi; apply lookup_replicate in Hi; destruct Hi as [[=] _]).
  assert (Hfresh1 : fresh_overlay gm1).
  { intros i o Hi. destruct (Hog i o Hi) as [->| ->]; auto. }
  destruct (place_goals_fresh _ _ _ _ _ _ _ _ _ _ _ _ _ Hgoals Hfresh1)
    as [Hfresh2 Hcount2].
  split; [apply fresh_overlay_insert; auto|]. split.
  - rewrite (count_mesh_insert_other _ _ _ _ _ Hprev) by discriminate. lia.
  - apply count_mesh_none. intros i Hi.
    destruct (decide (Z.to_nat (cell_of (glm.x (board_size st)) prev1) = i))
      as [<-|Hne'].
    + rewrite list_lookup_insert_eq in Hi by (apply lookup_lt_is_Some; eauto).
      discriminate.
    + rewrite list_lookup_insert_ne in Hi by exact Hne'.
      destruct (Hfresh2 i _ Hi) as [?|[?|[?|?]]]; discriminate.
Qed.

Lemma create_board_overlay_witness :
  fresh_overlay (goal_meshes board_6x5) /\
  (count_mesh goop_mesh (goal_meshes board_6x5) <= 3)%nat /\
  count_mesh checkpoint_collected_mesh (goal_meshes board_6x5) = 0%nat.
Proof.
  destruct (returned_Ok _ _ _ level_6x5_generated) as (g' & Hrun & _).
  apply (create_board_overlay 3 level_6x5 board_6x5 (mkMt lcg 0) g' Hrun).
Defined.

Lemma count_mesh_insert_ge (m : Mesh) (gm : list (option Mesh)) (i : nat)
    (new : option Mesh) :
  (count_mesh m gm <= count_mesh m (<[i := new]> gm) + 1)%nat.
Proof.
  destruct (gm !! i) as [old|] eqn:Hi.
  - pose proof (count_mesh_insert m gm i old new Hi) as Hc.
    destruct (decide (old = Some m)), (decide (new = Some m)); lia.
  - rewrite list_insert_ge by (apply lookup_ge_None; exact Hi). lia.
Qed.

Lemma times_shrinks {St : Type} (f : St -> nat) (body : St -> result St) (n : nat) :
  (forall s s', body s = Ok s' -> (f s <= f s' + 1)%nat) ->
  forall s s', times n body s = Ok s' -> (f s <= f s' + n)%nat.
Proof.
  intros Hbody. induction n as [|n IH]; intros s s' Hrun.
  - injection Hrun as <-. lia.
  - cbn [times] in Hrun. bind_inv Hrun as s1 Hs1.
    apply Hbody in Hs1. apply IH in Hrun. lia.
Qed.

(** Lines 419-427 write walls only, and turn at most nine cells into walls. *)
Lemma place_walls_count (W H : Z) (player_pos : glm.vec2)
    (bm bm' : list (option Mesh)) (g g' : mt19937) :
  place_walls W H player_pos bm g = Ok (bm', g') ->
  (forall i, bm' !! i = bm !! i \/ bm' !! i = Some (Some wall_mesh)) /\
  (count_mesh wall_mesh bm' <= count_mesh wall_mesh bm + 9)%nat /\
  (count_mesh floor_mesh bm <= count_mesh floor_mesh bm' + 9)%nat.
Proof.
  unfold place_walls. destruct (mt g) as [r g1] eqn:Hmt. intros Hrun.
  assert (Hr : 0 <= r < 2 ^ 32).
  { unfold mt in Hmt. injection Hmt as <- _. apply Z.mod_pos_bound. lia. }
  assert (Hm : 0 <= r mod 8 < 8) by (apply Z.mod_pos_bound; lia).
  rewrite u32_small in Hrun by (change (2 ^ 32) with 4294967296; lia).
  assert (Hstep : forall s s', place_wall W H player_pos s = Ok s' ->
    (forall i, s'.1 !! i = s.1 !! i \/ s'.1 !! i = Some (Some wall_mesh)) /\
    (count_mesh wall_mesh s'.1 <= count_mesh wall_mesh s.1 + 1)%nat /\
    (count_mesh floor_mesh s.1 <= count_mesh floor_mesh s'.1 + 1)%nat).
  { intros [b h] [b' h'] Hstep. simpl. unfold place_wall in Hstep.
    bind_inv Hstep as [pos h1] Hpos.
    destruct (decide (pos = player_pos)).
    - injection Hstep as <- _. split; [auto | lia].
    - bind_inv Hstep as b1 Hset. injection Hstep as <- _.
      apply vec_set_Ok in Hset. destruct Hset as [Hrange ->].
      split; [|split; [apply count_mesh_insert_le | apply count_mesh_insert_ge]].
      intros i. destruct (decide (Z.to_nat (cell_of W pos) = i)) as [<-|Hne].
      + right. apply list_lookup_insert_eq. lia.
      + left. apply list_lookup_insert_ne, Hne. }
  split; [|split].
  - revert Hrun.
    apply (times_inv (fun s : list (option Mesh) * mt19937 =>
      forall i, s.1 !! i = bm !! i \/ s.1 !! i = Some (Some wall_mesh))); [|auto].
    intros s s' Hs Hbody i. destruct (Hstep s s' Hbody) as (Hi & _).
    destruct (Hi i) as [->|Hw]; [apply Hs | right; exact Hw].
  - apply (times_grows (fun s => count_mesh wall_mesh s.1)) in Hrun.
    + simpl in Hrun. lia.
    + intros s s' Hbody. apply (Hstep s s' Hbody).
  - apply (times_shrinks (fun s => count_mesh floor_mesh s.1)) in Hrun.
    + simpl in Hrun. lia.
    + intros s s' Hbody. apply (Hstep s s' Hbody).
Qed.

(** X11.  The terrain of a generated board.  After a call of
    [create_board] that returns, the terrain is the cleared board of lines
    404-409 but for cells turned into walls: no cell is turned into floor,
    at most nine more cells are wall, and at most nine of the floor cells
    are lost. *)
Theorem create_board_terrain (fuel : nat) (st st' : Game) (g g' : mt19937) :
  create_board fuel st g = Ok (st', g') ->
  exists bm0,
    clear_board (glm.x (board_size st)) (glm.y (board_size st)) = Ok bm0 /\
    length (board_meshes st') = length bm0 /\
    (forall i, board_meshes st' !! i = bm0 !! i \/
               board_meshes st' !! i = Some (Some wall_mesh)) /\
    (count_mesh wall_mesh (board_meshes st') <= count_mesh wall_mesh bm0 + 9)%nat /\
    (count_mesh floor_mesh bm0 <= count_mesh floor_mesh (board_meshes st') + 9)%nat.
Proof.
  intros Hrun. apply create_board_last_pass in Hrun.
  destruct Hrun as (g0 & goals & prev & bm & gm & gm' & Hpass & _ & _ & ->).
  cbn [with_board board_meshes].
  unfold create_board_pass in Hpass.
  bind_inv Hpass as bm0 Hclear.
  bind_inv Hpass as [bm1 g1] Hwalls.
  bind_inv Hpass as [gm1 g2] Hgoops.
  bind_inv Hpass as [[[goals1 prev1] gm2] g3] Hgoals.
  injection Hpass as <- <- <- <- <-.
  exists bm0. split; [exact Hclear|].
  split; [apply (place_walls_border _ _ _ _ _ _ _ Hwalls)|].
  apply (place_walls_count _ _ _ _ _ _ _ Hwalls).
Qed.

Lemma create_board_terrain_witness :
  exists bm0,
    clear_board (glm.x (board_size level_6x5)) (glm.y (board_size level_6x5)) = Ok bm0 /\
    length (board_meshes board_6x5) = length bm0 /\
    (forall i, board_meshes board_6x5 !! i = bm0 !! i \/
               board_meshes board_6x5 !! i = Some (Some wall_mesh)) /\
    (count_mesh wall_mesh (board_meshes board_6x5) <= count_mesh wall_mesh bm0 + 9)%nat /\
    (count_mesh floor_mesh bm0 <= count_mesh floor_mesh (board_meshes board_6x5) + 9)%nat.
Proof.
  destruct (returned_Ok _ _ _ level_6x5_generated) as (g' & Hrun & _).
  apply (create_board_terrain 3 level_6x5 board_6x5 (mkMt lcg 0) g' Hrun).
Defined.

(** * Random positions and boards too narrow for them *)

(** X12.  Random positions (lines 412-417).  On a board at least three
    cells wide and high, [random_board_position] returns a cell strictly
    inside the border and draws two numbers.  On a board two cells wide or
    two cells high it takes a remainder by zero. *)
Theorem random_board_position_range (W H : Z) (g : mt19937) :
  fits W H ->
  (3 <= W -> 3 <= H ->
   exists pos g',
     random_board_position W H g = Ok (pos, g') /\ inside W H pos /\ draws g g' 2) /\
  (W = 2 \/ H = 2 -> random_board_position W H g = Fault).
Proof.
  intros Hfits. split.
  - intros HW HH.
    destruct (random_board_position_inside W H Hfits g HW HH) as (pos & g' & Hrun & Hin).
    exists pos, g'. split; [exact Hrun|]. split; [exact Hin|].
    apply (random_board_position_draws W H g g' pos Hrun).
  - intros Hnarrow. unfold random_board_position, mt, umod. cbv beta match zeta.
    destruct Hnarrow as [->| ->]; [reflexivity|].
    destruct (u32 (W - 2) =? 0); reflexivity.
Qed.

Lemma random_board_position_range_witness :
  (3 <= 5 -> 3 <= 3 ->
   exists pos g',
     random_board_position 5 3 (mkMt lcg 0) = Ok (pos, g') /\ inside 5 3 pos /\
     draws (mkMt lcg 0) g' 2) /\
  (5 = 2 \/ 3 = 2 -> random_board_position 5 3 (mkMt lcg 0) = Fault).
Proof.
  apply (random_board_position_range 5 3 (mkMt lcg 0)). exact fits_5x3.
Defined.

(** X13.  A board two cells wide or two cells high.  Lines 414-415 take
    [mt() % (board_size.x - 2)] and [mt() % (board_size.y - 2)]: on such a
    board the first wall placement divides by zero, and [create_board]
    leaves defined behaviour whatever the stream. *)
Theorem create_board_narrow (fuel : nat) (st : Game) (g : mt19937) :
  fits (glm.x (board_size st)) (glm.y (board_size st)) ->
  glm.x (board_size st) = 2 \/ glm.y (board_size st) = 2 ->
  create_board (S fuel) st g = Fault.
Proof.
  intros Hfits Hnarrow. cbn [create_board].
  set (W := glm.x (board_size st)) in *.
  set (H := glm.y (board_size st)) in *.
  assert (Hpos : forall h, random_board_position W H h = Fault).
  { intros h. unfold random_board_position, mt, umod. cbv beta match zeta.
    destruct Hnarrow as [->| ->]; [reflexivity|].
    destruct (u32 (W - 2) =? 0); reflexivity. }
  assert (Hwalls : forall bm, place_walls W H (player st) bm g = Fault).
  { intros bm. unfold place_walls, mt. cbv beta match zeta.
    set (r := u32 (outputs g (drawn g))).
    assert (Hr : 0 <= r mod 8 < 8) by (apply Z.mod_pos_bound; lia).
    rewrite u32_small by (change (2 ^ 32) with 4294967296; lia).
    destruct (Z.to_nat (r mod 8 + 2)) as [|n] eqn:Hn; [lia|].
    assert (Hwall : forall s, place_wall W H (player st) s = Fault).
    { intros [b h]. unfold place_wall. rewrite Hpos. reflexivity. }
    cbn [times]. rewrite Hwall. reflexivity. }
  unfold create_board_pass.
  destruct (clear_board_total W H Hfits) as [bm ->].
  rewrite bind_Ok_l, Hwalls. reflexivity.
Qed.

Lemma create_board_narrow_witness :
  create_board 1 level_2x5 (mkMt lcg 0) = Fault.
Proof.
  apply (create_board_narrow 0 level_2x5 (mkMt lcg 0)).
  - vm_compute. intuition discriminate.
  - left. reflexivity.
Defined.

(** * The counts of the walks *)

Lemma times_measure {St : Type} (body : St -> result St) (n : nat) :
  forall (P : Z -> St -> Prop),
    (forall k s s', 0 <= k < Z.of_nat n -> P k s -> body s = Ok s' -> P (k + 1) s') ->
    forall s s', P 0 s -> times n body s = Ok s' -> P (Z.of_nat n) s'.
Proof.
  induction n as [|n IH]; intros P Hbody s s' Hs Hrun.
  - injection Hrun as <-. exact Hs.
  - cbn [times] in Hrun. bind_inv Hrun as s1 Hs1.
    replace (Z.of_nat (S n)) with (Z.of_nat n + 1) by lia.
    refine (IH (fun k => P (k + 1)) _ s1 s' _ Hrun).
    + intros k t t' Hk Ht Hstep. apply (Hbody (k + 1) t t'); [lia | exact Ht | exact Hstep].
    + apply (Hbody 0 s s1); [lia | exact Hs | exact Hs1].
Qed.

Lemma counts_total_insert (board_counts : list Z) (i : nat) (c c' : Z) :
  board_counts !! i = Some c ->
  counts_total (<[i := c']> board_counts) = counts_total board_counts - c + c'.
Proof.
  revert i. induction board_counts as [|a l IH]; intros i Hi; [discriminate|].
  destruct i as [|i]; simpl in *.
  - injection Hi as ->. lia.
  - rewrite (IH i Hi). lia.
Qed.

Lemma counts_total_bound (board_counts : list Z) (i : nat) (c : Z) :
  Forall (fun c => 0 <= c) board_counts -> board_counts !! i = Some c ->
  0 <= c <= counts_total board_counts.
Proof.
  intros Hall. revert i. induction Hall as [|a l Ha Hall IH]; intros i Hi; [discriminate|].
  assert (Hl : 0 <= counts_total l).
  { clear -Hall. induction Hall; simpl; lia. }
  destruct i as [|i]; simpl in *.
  - injection Hi as ->. lia.
  - specialize (IH i Hi). lia.
Qed.

Lemma counts_total_replicate (n : nat) : counts_total (replicate n 0) = 0.
Proof. induction n as [|n IH]; simpl; [reflexivity | exact IH]. Qed.

Lemma walk_step_counts (W : Z) (bm gm : list (option Mesh))
    (s s' : glm.vec2 * list Z * mt19937) :
  Forall (fun c => 0 <= c) s.1.2 -> counts_total s.1.2 < 2 ^ 32 - 1 ->
  walk_step W bm gm s = Ok s' ->
  Forall (fun c => 0 <= c) s'.1.2 /\ counts_total s'.1.2 = counts_total s.1.2 + 1 /\
  length s'.1.2 = length s.1.2.
Proof.
  destruct s as [[p counts] g]. simpl. intros Hall Hlt Hrun.
  unfold walk_step in Hrun. destruct (mt g) as [r g1].
  bind_inv Hrun as d Hd. bind_inv Hrun as q Hq. bind_inv Hrun as c Hc.
  bind_inv Hrun as counts' Hset. injection Hrun as <-. simpl.
  apply vec_get_Ok in Hc. destruct Hc as [_ Hc].
  apply vec_set_Ok in Hset. destruct Hset as [_ ->].
  pose proof (counts_total_bound counts _ c Hall Hc) as Hb.
  rewrite u32_small by lia.
  split; [|split].
  - apply Forall_insert; [exact Hall | lia].
  - rewrite (counts_total_insert counts _ c (c + 1) Hc). lia.
  - apply length_insert.
Qed.

Example walks_4x4 :
  returned (random_walks 4 4 open_4x4 (replicate 16 None) (glm.mk 1 1)
              (mkMt stream_4x4 6))
  = Some (board_counts_4x4, 2006).
Proof. vm_compute. reflexivity. Qed.

(** X14.  The counts of a round of walks (lines 444-459).  A round that
    returns has counted 2000 resting cells, one for each step of each walk:
    the counts add up to 2000, so that none is above 2000 and the [+= 1] of
    line 457 never wraps around. *)
Theorem random_walks_counts (W H : Z) (bm gm : list (option Mesh))
    (prev_goal : glm.vec2) (g g' : mt19937) (board_counts : list Z) :
  random_walks W H bm gm prev_goal g = Ok (board_counts, g') ->
  length board_counts = Z.to_nat (u32 (W * H)) /\
  counts_total board_counts = 2000 /\
  Forall (fun c => 0 <= c <= 2000) board_counts.
Proof.
  unfold random_walks. intros Hrun.
  pose (P := fun (i : Z) (s : list Z * mt19937) =>
    length s.1 = Z.to_nat (u32 (W * H)) /\
    Forall (fun c => 0 <= c) s.1 /\ counts_total s.1 = 20 * i).
  assert (HP : P (Z.of_nat 100) (board_counts, g')).
  { revert Hrun. apply (times_measure _ 100 P).
    - intros i [counts h] [counts' h'] Hi (Hlen & Hall & Htot) Hbody.
      simpl in Hlen, Hall, Htot.
      bind_inv Hbody as [[p1 counts1] h1] Hsteps. injection Hbody as <- <-.
      pose (Q := fun (k : Z) (s : glm.vec2 * list Z * mt19937) =>
        length s.1.2 = Z.to_nat (u32 (W * H)) /\
        Forall (fun c => 0 <= c) s.1.2 /\ counts_total s.1.2 = 20 * i + k).
      assert (HQ : Q (Z.of_nat 20) (p1, counts1, h1)).
      { revert Hsteps. apply (times_measure _ 20 Q).
        - intros k s s' Hk (Hl & Ha & Ht) Hstep.
          destruct (walk_step_counts W bm gm s s' Ha) as (Ha' & Ht' & Hl');
            [change (2 ^ 32) with 4294967296; lia | exact Hstep|].
          split; [congruence|]. split; [exact Ha'|]. lia.
        - split; [exact Hlen|]. split; [exact Hall|]. simpl. lia. }
      destruct HQ as (Hl & Ha & Ht). simpl in Hl, Ha, Ht.
      split; [exact Hl|]. split; [exact Ha|]. simpl. lia.
    - split; [apply length_replicate|]. split.
      + apply Forall_replicate. lia.
      + simpl. rewrite counts_total_replicate. lia. }
  destruct HP as (Hlen & Hall & Htot). simpl in Hlen, Hall, Htot.
  split; [exact Hlen|]. split; [lia|].
  apply Forall_lookup. intros i c Hc.
  pose proof (counts_total_bound _ _ _ Hall Hc). lia.
Qed.

Lemma random_walks_counts_witness :
  length board_counts_4x4 = Z.to_nat (u32 (4 * 4)) /\
  counts_total board_counts_4x4 = 2000 /\
  Forall (fun c => 0 <= c <= 2000) board_counts_4x4.
Proof.
  destruct (returned_Ok _ _ _ walks_4x4) as (g' & Hrun & _).
  apply (random_walks_counts 4 4 open_4x4 (replicate 16 None) (glm.mk 1 1)
           (mkMt stream_4x4 6) g' board_counts_4x4 Hrun).
Defined.

(** * The cut of the candidate list, for every list *)

(** The loop of line 483 stops at the first position, from [limit] on, whose
    successor is past the end or has another count. *)
Lemma extend_limit_spec (W : Z) (board_counts : list Z) (cs : list glm.vec2)
    (budget : nat) :
  forall limit limit',
    0 <= limit -> Z.of_nat (length cs) < 2 ^ 32 ->
    extend_limit W budget board_counts cs limit = Ok limit' ->
    limit <= limit' /\
    (forall i a b, limit <= i < limit' ->
       cs !! Z.to_nat i = Some a -> cs !! Z.to_nat (i + 1) = Some b ->
       board_counts !! Z.to_nat (cell_of W a) = board_counts !! Z.to_nat (cell_of W b)) /\
    (forall a b,
       cs !! Z.to_nat limit' = Some a -> cs !! Z.to_nat (limit' + 1) = Some b ->
       board_counts !! Z.to_nat (cell_of W a) <> board_counts !! Z.to_nat (cell_of W b)).
Proof.
  induction budget as [|budget IH]; intros limit limit' Hpos Hlen Hrun; [discriminate|].
  cbn [extend_limit] in Hrun.
  destruct (Z.ltb_spec (u32 (limit + 1)) (Z.of_nat (length cs))) as [Hlt|Hge].
  - assert (Hsmall : u32 (limit + 1) = limit + 1).
    { destruct (Z.ltb_spec (limit + 1) (2 ^ 32)) as [Hs|Hs];
        [apply u32_small; lia|].
      exfalso.
      bind_inv Hrun as a Ha. apply vec_get_Ok in Ha. destruct Ha as [_ Ha].
      apply lookup_lt_Some in Ha. lia. }
    rewrite Hsmall in Hrun, Hlt.
    bind_inv Hrun as a Ha. bind_inv Hrun as b Hb.
    bind_inv Hrun as ca Hca. bind_inv Hrun as cb Hcb.
    apply vec_get_Ok in Ha, Hb, Hca, Hcb.
    destruct Ha as [_ Ha], Hb as [_ Hb], Hca as [_ Hca], Hcb as [_ Hcb].
    destruct (Z.eqb_spec ca cb) as [->|Hne].
    + apply IH in Hrun; [|lia|exact Hlen].
      destruct Hrun as (Hle & Heq & Hstop). split; [lia|]. split; [|exact Hstop].
      intros i a' b' Hi Ha' Hb'.
      destruct (decide (i = limit)) as [->|Hne]; [congruence|].
      apply (Heq i); [lia | assumption..].
    + injection Hrun as <-. split; [lia|]. split; [intros i a' b' Hi; lia|].
      intros a' b' Ha' Hb'. congruence.
  - injection Hrun as <-. split; [lia|]. split; [intros i a' b' Hi; lia|].
    intros a' b' Ha' Hb'. exfalso. apply lookup_lt_Some in Hb'.
    destruct (Z.ltb_spec (limit + 1) (2 ^ 32)) as [Hs|Hs]; [|lia].
    rewrite u32_small in Hge by lia. lia.
Qed.

(** X15.  Lines 481-484 on any non-empty list of candidates of the board.
    The cut [limit] is computed without a fault and lies between
    [max(1, n / 4)] and the length [n] of the list, so that
    [mt() % limit] never divides by zero and the pick is an element of the
    list.  From position [max(1, n / 4)] up to [limit], neighbours have
    equal counts, and the candidate after position [limit], if any, has
    another count than the one at [limit]. *)
Theorem pick_limit_in_range (W H : Z) (board_counts : list Z)
    (cs : list glm.vec2) :
  fits W H -> length board_counts = board_cells W H ->
  (forall c, c ∈ cs -> in_board W H (glm.x c) (glm.y c)) ->
  Z.of_nat (length cs) < 2 ^ 32 -> cs <> [] ->
  exists limit,
    pick_limit W board_counts cs = Ok limit /\
    Z.max 1 (Z.of_nat (length cs) / 4) <= limit <= Z.of_nat (length cs) /\
    (forall r, exists k c, umod r limit = Ok k /\ vec_get cs k = Ok c) /\
    (forall i a b, Z.max 1 (Z.of_nat (length cs) / 4) <= i < limit ->
       cs !! Z.to_nat i = Some a -> cs !! Z.to_nat (i + 1) = Some b ->
       count_of W board_counts a = count_of W board_counts b) /\
    (forall a b,
       cs !! Z.to_nat limit = Some a -> cs !! Z.to_nat (limit + 1) = Some b ->
       count_of W board_counts a <> count_of W board_counts b).
Proof.
  intros Hfits Hlen Hin H32 Hne.
  assert (Hn : 1 <= Z.of_nat (length cs)) by (destruct cs; [congruence | simpl; lia]).
  assert (Hq : 0 <= Z.of_nat (length cs) / 4 < Z.of_nat (length cs)).
  { split; [apply Z.div_pos; lia|]. apply Z.div_lt; lia. }
  pose proof H32 as Hn32. change (2 ^ 32) with 4294967296 in Hn32.
  unfold pick_limit. rewrite u32_small by lia.
  set (limit0 := Z.max 1 (Z.of_nat (length cs) / 4)) in *.
  destruct (extend_limit_total W H Hfits board_counts cs Hlen Hin H32
              (S (length cs)) limit0) as (limit & Hrun & Hl);
    [lia | change (2 ^ 32) with 4294967296; lia | lia |].
  destruct (extend_limit_spec W board_counts cs _ limit0 limit ltac:(lia) H32 Hrun)
    as (_ & Heq & Hstop).
  assert (Hcount : forall a, a ∈ cs ->
    board_counts !! Z.to_nat (cell_of W a) = Some (count_of W board_counts a)).
  { intros a Ha. unfold count_of.
    destruct (lookup_lt_is_Some_2 board_counts (Z.to_nat (cell_of W a))) as [n ->];
      [|reflexivity].
    destruct (cell_in_board W H _ _ Hfits (Hin a Ha)) as [Hc Hr].
    unfold cell_of. rewrite Hc, Hlen. unfold board_cells. lia. }
  exists limit. split; [exact Hrun|]. split; [lia|]. split; [|split].
  - intros r. unfold umod. destruct (Z.eqb_spec limit 0) as [?|_]; [lia|].
    assert (Hk : 0 <= r mod limit < limit) by (apply Z.mod_pos_bound; lia).
    destruct (vec_get_in_range cs (r mod limit)) as [c Hc]; [lia|]. eauto.
  - intros i a b Hi Ha Hb. specialize (Heq i a b Hi Ha Hb).
    rewrite !Hcount in Heq by (eapply list_elem_of_lookup_2; eassumption).
    congruence.
  - intros a b Ha Hb Heq'. apply (Hstop a b Ha Hb).
    rewrite !Hcount by (eapply list_elem_of_lookup_2; eassumption).
    congruence.
Qed.

Lemma pick_limit_in_range_witness :
  exists limit,
    pick_limit 4 board_counts_4x4 [glm.mk 2 1; glm.mk 1 2; glm.mk 2 2] = Ok limit /\
    Z.max 1 (Z.of_nat (length [glm.mk 2 1; glm.mk 1 2; glm.mk 2 2]) / 4) <= limit
      <= Z.of_nat (length [glm.mk 2 1; glm.mk 1 2; glm.mk 2 2]) /\
    (forall r, exists k c,
       umod r limit = Ok k /\
       vec_get [glm.mk 2 1; glm.mk 1 2; glm.mk 2 2] k = Ok c).
Proof.
  destruct (pick_limit_in_range 4 4 board_counts_4x4
              [glm.mk 2 1; glm.mk 1 2; glm.mk 2 2])
    as (limit & Hrun & Hrange & Hpick & _).
  - vm_compute. intuition discriminate.
  - reflexivity.
  - intros c Hc. unfold in_board.
    repeat (apply elem_of_cons in Hc; destruct Hc as [->|Hc]; [simpl; lia|]).
    inversion Hc.
  - simpl. lia.
  - discriminate.
  - exists limit. auto.
Defined.

Lemma StronglySorted_lookup_le (key : glm.vec2 -> Z) (l : list glm.vec2) :
  StronglySorted (fun c1 c2 => key c1 <= key c2) l ->
  forall i j a b, (i <= j)%nat -> l !! i = Some a -> l !! j = Some b ->
    key a <= key b.
Proof.
  induction 1 as [|c l Hs IH Hall]; intros i j a b Hij Ha Hb; [discriminate|].
  destruct i as [|i], j as [|j]; simpl in *; try lia.
  - assert (a = b) by congruence. subst. lia.
  - injection Ha as ->. rewrite Forall_forall in Hall.
    apply Hall. apply (list_elem_of_lookup_2 _ _ _ Hb).
  - apply (IH i j a b); [lia | assumption..].
Qed.

(** X16.  The pick is among the least visited (lines 475-484).  The
    candidates are sorted by count and the pick is one of the first
    [limit]: whatever number is drawn, the cell picked is a candidate, and
    no candidate that the sorted list holds at or after the position of the
    pick, so none beyond the cut, has a smaller count. *)
Theorem pick_least_visited (W H : Z) (board_counts : list Z) (cs : list glm.vec2) :
  fits W H -> length board_counts = board_cells W H ->
  (forall c, c ∈ cs -> in_board W H (glm.x c) (glm.y c)) ->
  Z.of_nat (length cs) < 2 ^ 32 -> cs <> [] ->
  exists limit,
    pick_limit W board_counts (stable_sort (count_of W board_counts) cs) = Ok limit /\
    forall r, exists k gpos,
      umod r limit = Ok k /\ 0 <= k < limit /\
      vec_get (stable_sort (count_of W board_counts) cs) k = Ok gpos /\
      gpos ∈ cs /\
      forall j c, k <= j ->
        stable_sort (count_of W board_counts) cs !! Z.to_nat j = Some c ->
        count_of W board_counts gpos <= count_of W board_counts c.
Proof.
  intros Hfits Hlen Hin H32 Hne.
  set (sorted := stable_sort (count_of W board_counts) cs).
  assert (Hperm : sorted ≡ₚ cs) by apply stable_sort_perm.
  assert (Hslen : length sorted = length cs) by (rewrite Hperm; reflexivity).
  destruct (pick_limit_total W H Hfits board_counts sorted Hlen) as (limit & Hrun & Hl).
  { intros c Hc. apply Hin. rewrite <- Hperm. exact Hc. }
  { rewrite Hslen. exact H32. }
  { intros Hnil. rewrite Hnil in Hslen. destruct cs; [congruence | discriminate]. }
  exists limit. split; [exact Hrun|].
  intros r. unfold umod. destruct (Z.eqb_spec limit 0) as [?|_]; [lia|].
  assert (Hk : 0 <= r mod limit < limit) by (apply Z.mod_pos_bound; lia).
  destruct (vec_get_in_range sorted (r mod limit)) as [gpos Hgpos]; [lia|].
  exists (r mod limit), gpos. split; [reflexivity|]. split; [exact Hk|].
  split; [exact Hgpos|].
  apply vec_get_Ok in Hgpos. destruct Hgpos as [_ Hgpos].
  split; [rewrite <- Hperm; apply (list_elem_of_lookup_2 _ _ _ Hgpos)|].
  intros j c Hj Hc.
  apply (StronglySorted_lookup_le (count_of W board_counts) sorted
           (stable_sort_sorted _ _) (Z.to_nat (r mod limit)) (Z.to_nat j));
    [lia | exact Hgpos | exact Hc].
Qed.

Lemma pick_least_visited_witness :
  exists limit,
    pick_limit 4 board_counts_4x4
      (stable_sort (count_of 4 board_counts_4x4) [glm.mk 2 1; glm.mk 1 2; glm.mk 2 2])
    = Ok limit /\
    forall r, exists k gpos,
      umod r limit = Ok k /\ 0 <= k < limit /\
      vec_get (stable_sort (count_of 4 board_counts_4x4) [glm.mk 2 1; glm.mk 1 2; glm.mk 2 2]) k = Ok gpos /\
      gpos ∈ [glm.mk 2 1; glm.mk 1 2; glm.mk 2 2] /\
      forall j c, k <= j ->
        stable_sort (count_of 4 board_counts_4x4) [glm.mk 2 1; glm.mk 1 2; glm.mk 2 2] !! Z.to_nat j = Some c ->
        count_of 4 board_counts_4x4 gpos <= count_of 4 board_counts_4x4 c.
Proof.
  apply (pick_least_visited 4 4 board_counts_4x4 [glm.mk 2 1; glm.mk 1 2; glm.mk 2 2]).
  - vm_compute. intuition discriminate.
  - reflexivity.
  - intros c Hc. unfold in_board.
    repeat (apply elem_of_cons in Hc; destruct Hc as [->|Hc]; [simpl; lia|]).
    inversion Hc.
  - simpl. lia.
  - discriminate.
Defined.

(** * The mesh index *)

Lemma loaded_bind_Loaded {A B : Type} (m : loaded A) (k : A -> loaded B) (b : B) :
  m ≫= k = Loaded b <-> exists a, m = Loaded a /\ k a = Loaded b.
Proof.
  destruct m as [a|w]; simpl; split.
  - intros Hk. exists a. auto.
  - intros (a' & [= <-] & Hk). exact Hk.
  - discriminate.
  - intros (a' & Ha & _). discriminate.
Qed.

Section Index.
Context {Vertex : Type}.
Variable vertices : list Vertex.
Variable names : list Ascii.ascii.

Lemma add_entry_Loaded (e : MeshIndex.IndexEntry)
    (index index' : gmap string MeshIndex.Mesh) :
  MeshIndex.add_entry vertices names e index = Loaded index' <->
  entry_ok vertices names e /\ index !! MeshIndex.name_of names e = None /\
  index' = <[MeshIndex.name_of names e := mesh_of e]> index.
Proof.
  unfold MeshIndex.add_entry, entry_ok, mesh_of.
  destruct (Z.gtb_spec (MeshIndex.name_begin e) (MeshIndex.name_end e)),
           (Z.gtb_spec (MeshIndex.name_end e) (Z.of_nat (length names)));
    cbn [orb]; try (split; [discriminate | intros [[? ?] _]; lia]).
  destruct (Z.gtb_spec (MeshIndex.vertex_begin e) (MeshIndex.vertex_end e)),
           (Z.gtb_spec (MeshIndex.vertex_end e) (Z.of_nat (length vertices)));
    cbn [orb]; try (split; [discriminate | intros [[? ?] _]; lia]).
  destruct (index !! MeshIndex.name_of names e) as [m|].
  - split; [discriminate | intros (_ & [=] & _)].
  - split.
    + intros [= <-]. split; [lia|]. auto.
    + intros (_ & _ & ->). reflexivity.
Qed.

Lemma add_entries_Loaded (index_entries : list MeshIndex.IndexEntry) :
  forall index index',
    MeshIndex.add_entries vertices names index_entries index = Loaded index' <->
    Forall (entry_ok vertices names) index_entries /\
    NoDup (map (MeshIndex.name_of names) index_entries) /\
    (forall e, e ∈ index_entries -> index !! MeshIndex.name_of names e = None) /\
    index' = foldl (fun ix e => <[MeshIndex.name_of names e := mesh_of e]> ix)
               index index_entries.
Proof.
  induction index_entries as [|e es IH]; intros index index'.
  - cbn. split.
    + intros [= <-]. split; [constructor|]. split; [constructor|].
      split; [|reflexivity]. intros e He. inversion He.
    + intros (_ & _ & _ & ->). reflexivity.
  - cbn [MeshIndex.add_entries map foldl].
    rewrite loaded_bind_Loaded, Forall_cons, NoDup_cons. split.
    + intros (index1 & H1 & Hrest). apply add_entry_Loaded in H1.
      destruct H1 as (Hok & Hnew & ->). apply IH in Hrest.
      destruct Hrest as (Hall & Hnd & Hfresh & ->).
      split; [auto|]. split; [split; [|exact Hnd]|].
      { intros Hin. apply list_elem_of_fmap in Hin. destruct Hin as (e' & Heq & He').
        specialize (Hfresh e' He'). rewrite <- Heq, lookup_insert_eq in Hfresh.
        discriminate. }
      split; [|reflexivity].
      intros e' He'. apply elem_of_cons in He'. destruct He' as [->|He']; [exact Hnew|].
      specialize (Hfresh e' He').
      apply lookup_insert_None in Hfresh. tauto.
    + intros ([Hok Hall] & [Hnin Hnd] & Hfresh & ->).
      exists (<[MeshIndex.name_of names e := mesh_of e]> index). split.
      * apply add_entry_Loaded. split; [exact Hok|]. split; [|reflexivity].
        apply Hfresh. left.
      * apply IH. split; [exact Hall|]. split; [exact Hnd|]. split; [|reflexivity].
        intros e' He'. apply lookup_insert_None. split.
        -- apply Hfresh. right. exact He'.
        -- intros Heq. apply Hnin. rewrite Heq. apply list_elem_of_fmap.
           exists e'. auto.
Qed.

(** What the finished index maps a name to. *)
Lemma index_lookup (index_entries : list MeshIndex.IndexEntry) :
  forall (index : gmap string MeshIndex.Mesh) name mesh,
    NoDup (map (MeshIndex.name_of names) index_entries) ->
    (forall e, e ∈ index_entries -> index !! MeshIndex.name_of names e = None) ->
    foldl (fun ix e => <[MeshIndex.name_of names e := mesh_of e]> ix)
      index index_entries !! name = Some mesh <->
    index !! name = Some mesh \/ named names index_entries name mesh.
Proof.
  induction index_entries as [|e es IH]; intros index name mesh Hnd Hfresh.
  - cbn. split; [auto|]. intros [?|(e & He & _)]; [assumption | inversion He].
  - cbn [foldl map] in *. apply NoDup_cons in Hnd. destruct Hnd as [Hnin Hnd].
    rewrite IH; [|exact Hnd|].
    + unfold named. split.
      * intros [Hl|(e' & He' & Hn & Hm)].
        -- apply lookup_insert_Some in Hl.
           destruct Hl as [[<- <-]|[_ Hl]]; [right|left; exact Hl].
           exists e. split; [left|]. auto.
        -- right. exists e'. split; [right; exact He' | auto].
      * intros [Hl|(e' & He' & Hn & Hm)].
        -- left. apply lookup_insert_Some. right. split; [|exact Hl].
           intros <-. rewrite Hfresh in Hl by left. discriminate.
        -- apply elem_of_cons in He'. destruct He' as [->|He'].
           ++ left. subst. apply lookup_insert_eq.
           ++ right. exists e'. auto.
    + intros e' He'. apply lookup_insert_None. split.
      * apply Hfresh. right. exact He'.
      * intros Heq. apply Hnin. rewrite Heq. apply list_elem_of_fmap. exists e'. auto.
Qed.

Lemma lookup_Loaded (index : gmap string MeshIndex.Mesh) (name : string)
    (mesh : MeshIndex.Mesh) :
  MeshIndex.lookup index name = Loaded mesh <-> index !! name = Some mesh.
Proof.
  unfold MeshIndex.lookup. destruct (index !! name); split; congruence.
Qed.

Lemma lookup_Throws (index : gmap string MeshIndex.Mesh) (name : string) :
  index !! name = None -> MeshIndex.lookup index name = Throws (not_in_index name).
Proof. unfold MeshIndex.lookup. intros ->. reflexivity. Qed.

Lemma named_unique (index_entries : list MeshIndex.IndexEntry) (name : string)
    (m1 m2 : MeshIndex.Mesh) :
  NoDup (map (MeshIndex.name_of names) index_entries) ->
  named names index_entries name m1 -> named names index_entries name m2 -> m1 = m2.
Proof.
  intros Hnd (e1 & He1 & Hn1 & ->) (e2 & He2 & Hn2 & ->).
  apply list_elem_of_lookup in He1, He2.
  destruct He1 as [i Hi], He2 as [j Hj].
  assert (Hij : i = j).
  { apply (NoDup_lookup _ i j name Hnd); rewrite list_lookup_fmap.
    - rewrite Hi. simpl. congruence.
    - rewrite Hj. simpl. congruence. }
  subst j. congruence.
Qed.

(** Looking a name up in the finished index finds the entry of that
    name. *)
Lemma index_find (index_entries : list MeshIndex.IndexEntry) (name : string)
    (mesh : MeshIndex.Mesh) :
  NoDup (map (MeshIndex.name_of names) index_entries) ->
  MeshIndex.lookup
    (foldl (fun ix e => <[MeshIndex.name_of names e := mesh_of e]> ix)
       ∅ index_entries) name = Loaded mesh <->
  named names index_entries name mesh.
Proof.
  intros Hnd. rewrite lookup_Loaded, index_lookup; [|exact Hnd|].
  - rewrite lookup_empty. split; [intros [[=]|?]; assumption | auto].
  - intros e _. apply lookup_empty.
Qed.

(** The meshes that load are those of entries of the index. *)
Lemma load_named (index_entries : list MeshIndex.IndexEntry)
    (meshes : MeshIndex.Meshes) :
  MeshIndex.load vertices names index_entries = Loaded meshes ->
  Forall (entry_ok vertices names) index_entries /\
  NoDup (map (MeshIndex.name_of names) index_entries) /\
  named names index_entries "Wall" (MeshIndex.wall_mesh meshes) /\
  named names index_entries "Floor" (MeshIndex.floor_mesh meshes) /\
  named names index_entries "Player" (MeshIndex.player_mesh meshes) /\
  named names index_entries "Goop" (MeshIndex.goop_mesh meshes) /\
  named names index_entries "Checkpoint" (MeshIndex.checkpoint_mesh meshes) /\
  named names index_entries "CheckpointCollected"
    (MeshIndex.checkpoint_collected_mesh meshes) /\
  named names index_entries "Goal" (MeshIndex.goal_mesh meshes).
Proof.
  unfold MeshIndex.load. rewrite loaded_bind_Loaded.
  intros (index & Hindex & Hrun). apply add_entries_Loaded in Hindex.
  destruct Hindex as (Hall & Hnd & _ & ->).
  repeat (apply loaded_bind_Loaded in Hrun;
          let m := fresh "m" in let Hm := fresh "Hm" in
          destruct Hrun as (m & Hm & Hrun); apply index_find in Hm; [|exact Hnd]).
  injection Hrun as <-. cbn. tauto.
Qed.

(** X17.  When the seven meshes load.  Lines 149-183 return, with the
    meshes [meshes], exactly when every entry of the index has ordered
    ranges within the name characters and the vertex data, no two entries
    have the same name, and each of the names "Wall", "Floor", "Player",
    "Goop", "Checkpoint", "CheckpointCollected" and "Goal" is the name of an
    entry whose vertex range is the mesh set. *)
Theorem load_Loaded (index_entries : list MeshIndex.IndexEntry)
    (meshes : MeshIndex.Meshes) :
  MeshIndex.load vertices names index_entries = Loaded meshes <->
  Forall (entry_ok vertices names) index_entries /\
  NoDup (map (MeshIndex.name_of names) index_entries) /\
  named names index_entries "Wall" (MeshIndex.wall_mesh meshes) /\
  named names index_entries "Floor" (MeshIndex.floor_mesh meshes) /\
  named names index_entries "Player" (MeshIndex.player_mesh meshes) /\
  named names index_entries "Goop" (MeshIndex.goop_mesh meshes) /\
  named names index_entries "Checkpoint" (MeshIndex.checkpoint_mesh meshes) /\
  named names index_entries "CheckpointCollected"
    (MeshIndex.checkpoint_collected_mesh meshes) /\
  named names index_entries "Goal" (MeshIndex.goal_mesh meshes).
Proof.
  split; [apply load_named|].
  intros (Hall & Hnd & H1 & H2 & H3 & H4 & H5 & H6 & H7).
  unfold MeshIndex.load. rewrite loaded_bind_Loaded.
  eexists. split.
  - apply add_entries_Loaded. split; [exact Hall|]. split; [exact Hnd|].
    split; [|reflexivity]. intros e _. apply lookup_empty.
  - apply index_find in H1, H2, H3, H4, H5, H6, H7; try exact Hnd.
    rewrite H1, H2, H3, H4, H5, H6, H7. cbn. destruct meshes. reflexivity.
Qed.

(** X18.  The meshes lie within the vertex data.  If the entries hold
    [uint32_t] values and the meshes load, then each of the seven meshes
    starts at a vertex, has a count that is not negative and ends within
    the vertex data: [glDrawArrays] is never given a range outside the
    buffer. *)
Theorem load_in_buffer (index_entries : list MeshIndex.IndexEntry)
    (meshes : MeshIndex.Meshes) :
  Forall entry_u32 index_entries ->
  MeshIndex.load vertices names index_entries = Loaded meshes ->
  in_buffer vertices (MeshIndex.wall_mesh meshes) /\
  in_buffer vertices (MeshIndex.floor_mesh meshes) /\
  in_buffer vertices (MeshIndex.player_mesh meshes) /\
  in_buffer vertices (MeshIndex.goop_mesh meshes) /\
  in_buffer vertices (MeshIndex.checkpoint_mesh meshes) /\
  in_buffer vertices (MeshIndex.checkpoint_collected_mesh meshes) /\
  in_buffer vertices (MeshIndex.goal_mesh meshes).
Proof.
  intros Hu32 Hload. apply load_named in Hload.
  destruct Hload as (Hall & _ & Hnamed).
  assert (Hin : forall name mesh,
    named names index_entries name mesh -> in_buffer vertices mesh).
  { intros name mesh (e & He & _ & ->).
    rewrite Forall_forall in Hall, Hu32.
    destruct (Hall e He) as [_ Hv]. destruct (Hu32 e He) as (_ & _ & Hb & He').
    unfold in_buffer, mesh_of. cbn [MeshIndex.first MeshIndex.count].
    rewrite u32_small by lia. lia. }
  destruct Hnamed as (H1 & H2 & H3 & H4 & H5 & H6 & H7).
  repeat split; eapply Hin; eassumption.
Qed.

Lemma add_entries_duplicate (index_entries : list MeshIndex.IndexEntry) :
  forall index : gmap string MeshIndex.Mesh,
    Forall (entry_ok vertices names) index_entries ->
    ~ NoDup (map (MeshIndex.name_of names) index_entries) \/
    (exists e, e ∈ index_entries /\ index !! MeshIndex.name_of names e <> None) ->
    MeshIndex.add_entries vertices names index_entries index
    = Throws "duplicate name in index.".
Proof.
  induction index_entries as [|e es IH]; intros index Hall Hdup.
  - exfalso. destruct Hdup as [Hnd|(e & He & _)]; [apply Hnd; constructor|inversion He].
  - apply Forall_cons in Hall. destruct Hall as [Hok Hall].
    cbn [MeshIndex.add_entries].
    destruct (index !! MeshIndex.name_of names e) as [m|] eqn:Hlook.
    + unfold MeshIndex.add_entry. unfold entry_ok in Hok.
      destruct (Z.gtb_spec (MeshIndex.name_begin e) (MeshIndex.name_end e)); [lia|].
      destruct (Z.gtb_spec (MeshIndex.name_end e) (Z.of_nat (length names))); [lia|].
      destruct (Z.gtb_spec (MeshIndex.vertex_begin e) (MeshIndex.vertex_end e)); [lia|].
      destruct (Z.gtb_spec (MeshIndex.vertex_end e) (Z.of_nat (length vertices)));
        [lia|].
      cbn [orb]. rewrite Hlook. reflexivity.
    + assert (Hadd : MeshIndex.add_entry vertices names e index
                     = Loaded (<[MeshIndex.name_of names e := mesh_of e]> index)).
      { apply add_entry_Loaded. auto. }
      rewrite Hadd. cbn. apply IH; [exact Hall|].
      destruct (decide (MeshIndex.name_of names e ∈ map (MeshIndex.name_of names) es))
        as [Hin|Hnin].
      * right. apply list_elem_of_fmap in Hin. destruct Hin as (e' & Heq & He').
        exists e'. split; [exact He'|]. rewrite <- Heq, lookup_insert_eq. discriminate.
      * destruct Hdup as [Hnd|(e' & He' & Hne)].
        -- left. intros Hnd'. apply Hnd. cbn. apply NoDup_cons. auto.
        -- apply elem_of_cons in He'. destruct He' as [->|He']; [congruence|].
           right. exists e'. split; [exact He'|].
           intros Hnone. apply lookup_insert_None in Hnone. tauto.
Qed.

(** X19.  A name that occurs twice.  If every entry has valid ranges
    and two entries have the same name, the constructor throws "duplicate
    name in index.", whatever else the index holds. *)
Theorem load_duplicate (index_entries : list MeshIndex.IndexEntry) :
  Forall (entry_ok vertices names) index_entries ->
  ~ NoDup (map (MeshIndex.name_of names) index_entries) ->
  MeshIndex.load vertices names index_entries = Throws "duplicate name in index.".
Proof.
  intros Hall Hdup. unfold MeshIndex.load.
  rewrite add_entries_duplicate; [reflexivity | exact Hall | auto].
Qed.

(** X20.  A missing mesh.  With a well-formed index, the names are
    looked up in the order of lines 177-183, and the constructor throws for
    the first one that no entry has, with the message that names it. *)
Theorem load_missing (index_entries : list MeshIndex.IndexEntry)
    (found : list string) (name : string) (rest : list string) :
  Forall (entry_ok vertices names) index_entries ->
  NoDup (map (MeshIndex.name_of names) index_entries) ->
  required_names = found ++ name :: rest ->
  (forall n, n ∈ found -> n ∈ map (MeshIndex.name_of names) index_entries) ->
  name ∉ map (MeshIndex.name_of names) index_entries ->
  MeshIndex.load vertices names index_entries = Throws (not_in_index name).
Proof.
  intros Hall Hnd Hreq Hfound Hmissing. unfold MeshIndex.load.
  pose (index := foldl (fun ix e => <[MeshIndex.name_of names e := mesh_of e]> ix)
                  (∅ : gmap string MeshIndex.Mesh) index_entries).
  assert (Hindex : MeshIndex.add_entries vertices names index_entries ∅ = Loaded index).
  { apply add_entries_Loaded. split; [exact Hall|]. split; [exact Hnd|].
    split; [|reflexivity]. intros e _. apply lookup_empty. }
  rewrite Hindex.
  assert (Hhit : forall n, n ∈ found -> exists m, MeshIndex.lookup index n = Loaded m).
  { intros n Hn. apply Hfound, list_elem_of_fmap in Hn. destruct Hn as (e & -> & He).
    exists (mesh_of e). apply lookup_Loaded. unfold index.
    apply index_lookup; [exact Hnd | intros e' _; apply lookup_empty|].
    right. exists e. auto. }
  assert (Hmiss : MeshIndex.lookup index name = Throws (not_in_index name)).
  { apply lookup_Throws. destruct (index !! name) as [m|] eqn:Hm; [|reflexivity].
    exfalso. apply Hmissing. unfold index in Hm.
    apply index_lookup in Hm; [|exact Hnd | intros e' _; apply lookup_empty].
    destruct Hm as [Hm|(e & He & <- & _)]; [rewrite lookup_empty in Hm; discriminate|].
    apply list_elem_of_fmap. exists e. auto. }
  cbn [mbind loaded_bind].
  unfold required_names in Hreq.
  repeat (destruct found as [|? found];
          [injection Hreq as <- <-; rewrite Hmiss; reflexivity|];
          injection Hreq as <- Hreq;
          let Hm := fresh "Hm" in
          destruct (Hhit _ ltac:(left)) as [? Hm]; rewrite Hm; cbn [mbind loaded_bind];
          assert (Hhit' : forall n, n ∈ found ->
                    exists m, MeshIndex.lookup index n = Loaded m)
            by (intros n Hn; apply Hhit; right; exact Hn);
          clear Hhit; rename Hhit' into Hhit).
  destruct found; discriminate.
Qed.
End Index.

Example blob_loaded :
  MeshIndex.load blob_vertices blob_names blob_index = Loaded blob_meshes.
Proof. vm_compute. reflexivity. Qed.

Lemma load_Loaded_witness :
  MeshIndex.load blob_vertices blob_names blob_index = Loaded blob_meshes.
Proof.
  apply (load_Loaded blob_vertices blob_names blob_index blob_meshes).
  split; [repeat constructor; simpl; lia|].
  split; [apply (bool_decide_unpack _); vm_compute; exact I|].
  split; [eexists; split; [left | split; reflexivity]|].
  split; [eexists; split; [do 1 right; left | split; reflexivity]|].
  split; [eexists; split; [do 2 right; left | split; reflexivity]|].
  split; [eexists; split; [do 3 right; left | split; reflexivity]|].
  split; [eexists; split; [do 4 right; left | split; reflexivity]|].
  split; [eexists; split; [do 5 right; left | split; reflexivity]|].
  eexists; split; [do 6 right; left | split; reflexivity].
Defined.

Lemma load_in_buffer_witness :
  in_buffer blob_vertices (MeshIndex.wall_mesh blob_meshes) /\
  in_buffer blob_vertices (MeshIndex.floor_mesh blob_meshes) /\
  in_buffer blob_vertices (MeshIndex.player_mesh blob_meshes) /\
  in_buffer blob_vertices (MeshIndex.goop_mesh blob_meshes) /\
  in_buffer blob_vertices (MeshIndex.checkpoint_mesh blob_meshes) /\
  in_buffer blob_vertices (MeshIndex.checkpoint_collected_mesh blob_meshes) /\
  in_buffer blob_vertices (MeshIndex.goal_mesh blob_meshes).
Proof.
  apply (load_in_buffer blob_vertices blob_names blob_index blob_meshes).
  - repeat constructor; simpl; lia.
  - exact blob_loaded.
Defined.

Lemma load_duplicate_witness :
  MeshIndex.load blob_vertices blob_names blob_index_twice
  = Throws "duplicate name in index.".
Proof.
  apply (load_duplicate blob_vertices blob_names blob_index_twice).
  - repeat constructor; simpl; lia.
  - apply (bool_decide_unpack _). vm_compute. exact I.
Defined.

Lemma load_missing_witness :
  MeshIndex.load blob_vertices blob_names blob_index_short
  = Throws (not_in_index "Player").
Proof.
  apply (load_missing blob_vertices blob_names blob_index_short
           ["Wall"; "Floor"]%string "Player"
           ["Goop"; "Checkpoint"; "CheckpointCollected"; "Goal"]%string).
  - repeat constructor; simpl; lia.
  - apply (bool_decide_unpack _). vm_compute. exact I.
  - reflexivity.
  - intros n Hn.
    repeat (apply elem_of_cons in Hn;
            destruct Hn as [->|Hn];
            [apply (bool_decide_unpack _); vm_compute; exact I|]).
    inversion Hn.
  - apply (bool_decide_unpack _). vm_compute. exact I.
Defined.

(** * Drawing *)

(** The invariant of a counting loop may mention the number of rounds. *)
Lemma for_each_seqZ_inv {St : Type} (body : Z -> St -> result St) (n : nat) :
  forall (P : Z -> St -> Prop) (a : Z),
    (forall i s s', 0 <= i < Z.of_nat n -> P i s -> body (a + i) s = Ok s' ->
                    P (i + 1) s') ->
    forall s s', P 0 s -> for_each body (seqZ a (Z.of_nat n)) s = Ok s' ->
                 P (Z.of_nat n) s'.
Proof.
  induction n as [|n IH]; intros P a Hbody s s' Hs Hrun.
  - injection Hrun as <-. exact Hs.
  - rewrite seqZ_cons in Hrun by lia. cbn [for_each] in Hrun.
    bind_inv Hrun as s1 Hs1.
    replace (Z.pred (Z.of_nat (S n))) with (Z.of_nat n) in Hrun by lia.
    replace (Z.of_nat (S n)) with (Z.of_nat n + 1) by lia.
    refine (IH (fun i => P (i + 1)) (Z.succ a) _ s1 s' _ Hrun).
    + intros i t t' Hi Ht Hstep. apply (Hbody (i + 1) t t'); [lia | exact Ht|].
      replace (a + (i + 1)) with (Z.succ a + i) by lia. exact Hstep.
    + apply (Hbody 0 s s1); [lia | exact Hs|].
      replace (a + 0) with a by lia. exact Hs1.
Qed.

Lemma count_objects_snoc (gm : list (option Mesh)) (o : option Mesh) :
  count_objects (gm ++ [o])
  = (count_objects gm + (if decide (o = None) then 0 else 1))%nat.
Proof.
  unfold count_objects. rewrite filter_app, length_app, filter_cons, filter_nil.
  destruct (decide (o <> None)), (decide (o = None)); simpl; try lia; tauto.
Qed.

(** X21.  What [draw] draws.  On a well-formed board none of whose terrain
    cells is [nullptr], [draw] returns: no null pointer is dereferenced and
    no vector is read out of range.  It draws one mesh for each cell of
    the board and one more for each cell whose overlay is not [nullptr],
    and then, last, the token at its cell. *)
Theorem draw_scene (st : Game) :
  board_ok st ->
  (forall i m, board_meshes st !! i = Some m -> m <> None) ->
  exists calls,
    draw st
    = Ok (calls ++ [mkDrawCall player_mesh (glm.x (player st)) (glm.y (player st))]) /\
    length calls
    = (board_cells (glm.x (board_size st)) (glm.y (board_size st))
       + count_objects (goal_meshes st))%nat.
Proof.
  intros (Hfits & Hlb & Hlg & _) Hnn.
  set (W := glm.x (board_size st)) in *.
  set (H := glm.y (board_size st)) in *.
  pose proof Hfits as (HW & HH & H32).
  assert (Hcell : forall x y calls, in_board W H x y ->
    exists m o,
      board_meshes st !! Z.to_nat (y * W + x) = Some (Some m) /\
      goal_meshes st !! Z.to_nat (y * W + x) = Some o /\
      draw_cell st y x calls
      = Ok ((calls ++ [mkDrawCall m x y])
            ++ match o with Some o => [mkDrawCall o x y] | None => [] end)).
  { intros x y calls Hin. unfold draw_cell. fold W.
    destruct (cell_in_board W H x y Hfits Hin) as [Hc Hr]. rewrite Hc.
    destruct (vec_get_in_range (board_meshes st) (y * W + x)) as [m Hm];
      [rewrite Hlb; unfold board_cells; lia|].
    destruct (vec_get_in_range (goal_meshes st) (y * W + x)) as [o Ho];
      [rewrite Hlg; unfold board_cells; lia|].
    rewrite Hm, Ho. apply vec_get_Ok in Hm, Ho.
    destruct Hm as [_ Hm], Ho as [_ Ho].
    destruct m as [m|]; [|exfalso; apply (Hnn _ _ Hm); reflexivity].
    exists m, o. split; [exact Hm|]. split; [exact Ho|].
    cbn. destruct o; [reflexivity | rewrite app_nil_r; reflexivity]. }
  assert (Htotal : exists calls,
    for_each (fun y calls => for_each (draw_cell st y) (seqZ 0 W) calls)
      (seqZ 0 H) [] = Ok calls).
  { destruct (for_each_total (fun _ : list DrawCall => True)
      (fun y calls => for_each (draw_cell st y) (seqZ 0 W) calls) (seqZ 0 H))
      with (s := @nil DrawCall) as (calls & Hcalls & _); [|exact I|eauto].
    intros y calls Hy _. apply elem_of_seqZ_0 in Hy.
    apply (for_each_total (fun _ => True)); [|exact I].
    intros x calls' Hx _. apply elem_of_seqZ_0 in Hx.
    destruct (Hcell x y calls') as (m & o & _ & _ & ->); [unfold in_board; lia|].
    eauto. }
  destruct Htotal as [calls Hcalls]. exists calls. unfold draw. fold W H.
  rewrite Hcalls. split; [reflexivity|].
  pose (P := fun (k : Z) (cs : list DrawCall) =>
    length cs = (Z.to_nat (k * W)
                 + count_objects (take (Z.to_nat (k * W)) (goal_meshes st)))%nat).
  assert (HP : P (Z.of_nat (Z.to_nat H)) calls).
  { revert Hcalls. rewrite <- (Z2Nat.id H) at 1 by lia.
    apply (for_each_seqZ_inv _ (Z.to_nat H) P 0).
    - intros y cs cs' Hy Hcs Hrow. rewrite Z.add_0_l in Hrow.
      pose (Q := fun (j : Z) (cs1 : list DrawCall) =>
        length cs1 = (Z.to_nat (y * W + j)
                      + count_objects (take (Z.to_nat (y * W + j)) (goal_meshes st)))%nat).
      assert (HQ : Q (Z.of_nat (Z.to_nat W)) cs').
      { revert Hrow. rewrite <- (Z2Nat.id W) at 1 by lia.
        apply (for_each_seqZ_inv _ (Z.to_nat W) Q 0).
        - intros x cs1 cs2 Hx Hcs1 Hstep. rewrite Z.add_0_l in Hstep.
          destruct (Hcell x y cs1) as (m & o & _ & Ho & Hrun);
            [unfold in_board; lia|].
          rewrite Hrun in Hstep. injection Hstep as <-.
          unfold Q in *.
          assert (Hidx : 0 <= y * W + x) by nia.
          replace (Z.to_nat (y * W + (x + 1))) with (S (Z.to_nat (y * W + x))) by lia.
          rewrite (take_S_r _ _ _ Ho), count_objects_snoc, !length_app, Hcs1.
          destruct o as [o|];
            [destruct (decide (Some o = None)); [discriminate|]
            |destruct (decide (@None Mesh = None)); [|congruence]];
            simpl; rewrite ?length_app; simpl; lia.
        - unfold Q, P in *. rewrite Z.add_0_r. exact Hcs. }
      unfold Q, P in *. rewrite Z2Nat.id in HQ by lia.
      replace ((y + 1) * W) with (y * W + W) by lia. exact HQ.
    - unfold P. simpl. reflexivity. }
  unfold P in HP. rewrite Z2Nat.id in HP by lia.
  rewrite HP. unfold board_cells.
  replace (H * W) with (W * H) by lia.
  rewrite firstn_all2 by (rewrite Hlg; unfold board_cells; lia). reflexivity.
Qed.

Lemma draw_scene_witness :
  exists calls,
    draw board_6x5
    = Ok (calls ++ [mkDrawCall player_mesh (glm.x (player board_6x5))
                      (glm.y (player board_6x5))]) /\
    length calls
    = (board_cells (glm.x (board_size board_6x5)) (glm.y (board_size board_6x5))
       + count_objects (goal_meshes board_6x5))%nat.
Proof.
  apply (draw_scene board_6x5).
  - split; [exact fits_6x5|]. split; [reflexivity|]. split; [reflexivity|].
    apply border_wallsb_correct. vm_compute. reflexivity.
  - intros i m Hi ->. apply list_elem_of_lookup_2 in Hi. vm_compute in Hi.
    repeat (apply elem_of_cons in Hi; destruct Hi as [Hi|Hi]; [discriminate|]).
    inversion Hi.
Defined.

(** A loop that returns has run its body on every element. *)
Lemma for_each_Ok_elem {A St : Type} (body : A -> St -> result St) (l : list A) :
  forall s s' a, for_each body l s = Ok s' -> a ∈ l ->
    exists t t', body a t = Ok t'.
Proof.
  induction l as [|b l IH]; intros s s' a Hrun Ha; [inversion Ha|].
  cbn [for_each] in Hrun. bind_inv Hrun as s1 Hs1.
  apply elem_of_cons in Ha. destruct Ha as [->|Ha]; [eauto|].
  apply (IH s1 s' a Hrun Ha).
Qed.

Lemma for_each_fuel {A St : Type} (body : A -> St -> result St) (l : list A) :
  (forall a s, body a s <> OutOfFuel) ->
  forall s, for_each body l s <> OutOfFuel.
Proof.
  intros Hbody. induction l as [|b l IH]; intros s; [discriminate|].
  cbn [for_each]. specialize (Hbody b s).
  destruct (body b s) as [s1| |]; [apply IH | discriminate | contradiction].
Qed.

Lemma vec_get_fuel {A : Type} (v : list A) (i : Z) : vec_get v i <> OutOfFuel.
Proof.
  unfold vec_get. destruct (0 <=? i); [|discriminate].
  destruct (v !! Z.to_nat i); discriminate.
Qed.

(** X22.  A null terrain cell.  If some cell of the board holds [nullptr]
    in [board_meshes], the value that the [resize] of line 208 fills new
    cells with, [draw] dereferences a null pointer: it leaves defined
    behaviour. *)
Theorem draw_null_terrain (st : Game) (x y : Z) :
  in_board (glm.x (board_size st)) (glm.y (board_size st)) x y ->
  board_meshes st !! Z.to_nat (cell (glm.x (board_size st)) x y) = Some None ->
  draw st = Fault.
Proof.
  intros [Hx Hy] Hnull. unfold draw.
  set (W := glm.x (board_size st)) in *.
  set (H := glm.y (board_size st)) in *.
  assert (Hcell : forall calls, draw_cell st y x calls = Fault).
  { intros calls. unfold draw_cell. fold W. unfold vec_get.
    assert (Hpos : 0 <= cell W x y) by (apply Z.mod_pos_bound; lia).
    destruct (Z.leb_spec 0 (cell W x y)); [|lia]. rewrite Hnull. reflexivity. }
  destruct (for_each _ (seqZ 0 H) []) as [calls| |] eqn:Hrun; [exfalso|reflexivity|exfalso].
  - destruct (for_each_Ok_elem _ _ _ _ y Hrun) as (t & t' & Hrow);
      [apply elem_of_seqZ_0, Hy|].
    destruct (for_each_Ok_elem _ _ _ _ x Hrow) as (c & c' & Hc);
      [apply elem_of_seqZ_0, Hx|].
    rewrite Hcell in Hc. discriminate.
  - revert Hrun. apply for_each_fuel. intros y' s. apply for_each_fuel.
    intros x' s'. unfold draw_cell. fold W.
    pose proof (vec_get_fuel (board_meshes st) (cell W x' y')) as Hb.
    pose proof (vec_get_fuel (goal_meshes st) (cell W x' y')) as Hg.
    destruct (vec_get (board_meshes st) (cell W x' y')) as [[m|]| |];
      cbn; try discriminate; try congruence.
    destruct (vec_get (goal_meshes st) (cell W x' y')) as [[o|]| |];
      cbn; try discriminate; congruence.
Qed.

Lemma draw_null_terrain_witness : draw level_3x3 = Fault.
Proof.
  apply (draw_null_terrain level_3x3 0 0).
  - unfold in_board. simpl. lia.
  - reflexivity.
Defined.
